(** * to_doable: session and abuse-control core

    A shallow embedding of the server's rate limiter
    ([middleware/rate-limit.js]), idempotency middleware
    ([middleware/idempotency.js]), token utilities ([utils/jwt.js]) and the
    [/login] and [/refresh] routes, with the properties the specification
    states about them; and of the code around them: the cache
    ([services/cache.js]), the password and token helpers
    ([utils/crypto.js]), the authentication middleware
    ([middleware/auth.js]), the [/logout] route, the sweeps of
    [jobs/cleanup.js] and the administrator's unblock, with further
    properties read off that code.

    Conventions.  Timestamps are integers in milliseconds ([Date.now()]);
    one request observes a single clock value [now], used both for the
    JavaScript [new Date()] and for SQL's [NOW()], except where an answer
    depends on a second reading of the clock, which is then a value of
    its own ([later] in [post_login]).  SQL [INTEGER] columns are
    [Z]; the [FLOAT] column [tokens] is an exact rational.  A nullable column
    is an [option].  Each SQL statement is one atomic step. *)

From Stdlib Require Import ZArith List String Ascii Bool Lia Permutation.
From Stdlib Require Import QArith Qminmax Lqa.
From Stdlib Require Import DecimalString.
Import ListNotations.
#[local] Set Warnings "-register-all".
Local Open Scope string_scope.
Local Open Scope Z_scope.

(* ================================================================= *)
(** ** JavaScript completions *)

(** A JavaScript computation either completes normally or throws. *)
Inductive completion (A : Type) : Type :=
| Normal (a : A)
| Throw (message : string).
Arguments Normal {A} a.
Arguments Throw {A} message.

Definition bind {A B} (c : completion A) (k : A -> completion B) : completion B :=
  match c with
  | Normal a => k a
  | Throw m => Throw m
  end.

(** [try { body } catch (err) { handler }] *)
Definition try_catch {A} (body : completion A) (handler : string -> completion A)
  : completion A :=
  match body with
  | Normal a => Normal a
  | Throw m => handler m
  end.

Notation "x <- c ;; k" := (bind c (fun x => k))
  (at level 61, c at next level, right associativity).

(* ================================================================= *)
(** ** JSON values and strings *)

(** A JavaScript value that has a JSON text, as a handler passes it to
    [res.json] and as [JSON.parse] returns it.  An object lists its
    properties in the order [JSON.stringify] writes them. *)
Inductive json : Type :=
| JNull
| JBool (b : bool)
| JNumber (n : Z)
| JString (s : string)
| JArray (items : list json)
| JObject (properties : list (string * json)).

(** [s.split(sep)] for a one-character separator: never empty. *)
Fixpoint split (sep : ascii) (s : string) : list string :=
  match s with
  | EmptyString => [EmptyString]
  | String c rest =>
      match split sep rest with
      | first :: others =>
          if Ascii.eqb c sep then EmptyString :: first :: others
          else String c first :: others
      | [] => [String c EmptyString]
      end
  end.

(** White space that [String.prototype.trim] removes, among the characters
    a header value can hold (one character per byte). *)
Definition is_white_space (c : ascii) : bool :=
  let n := nat_of_ascii c in
  ((9 <=? n) && (n <=? 13))%nat || (n =? 32)%nat || (n =? 160)%nat.

Fixpoint trim_start (l : list ascii) : list ascii :=
  match l with
  | c :: rest => if is_white_space c then trim_start rest else l
  | [] => []
  end.

(** [s.trim()] *)
Definition trim (s : string) : string :=
  string_of_list_ascii
    (rev (trim_start (rev (trim_start (list_ascii_of_string s))))).

(* ================================================================= *)
(** ** Buffer: base64 *)

(** A [Buffer] is a list of bytes; a string is the list of its bytes.

    [buffer.toString('base64')] reads the bytes as one run of bits, most
    significant first, cuts it into groups of six (the last one filled with
    zeros), writes each group as a character of the alphabet and fills the
    last quadruple with [=]. *)

Definition bits_of_byte (c : ascii) : list bool :=
  let '(Ascii b0 b1 b2 b3 b4 b5 b6 b7) := c in [b7; b6; b5; b4; b3; b2; b1; b0].

Fixpoint bytes_of_bits (bits : list bool) : list ascii :=
  match bits with
  | b7 :: b6 :: b5 :: b4 :: b3 :: b2 :: b1 :: b0 :: rest =>
      Ascii b0 b1 b2 b3 b4 b5 b6 b7 :: bytes_of_bits rest
  | _ => []
  end.

Fixpoint sextets_of_bits (bits : list bool) : list (list bool) :=
  match bits with
  | [] => []
  | b5 :: b4 :: b3 :: b2 :: b1 :: b0 :: rest =>
      [b5; b4; b3; b2; b1; b0] :: sextets_of_bits rest
  | [b5; b4; b3; b2; b1] => [[b5; b4; b3; b2; b1; false]]
  | [b5; b4; b3; b2] => [[b5; b4; b3; b2; false; false]]
  | [b5; b4; b3] => [[b5; b4; b3; false; false; false]]
  | [b5; b4] => [[b5; b4; false; false; false; false]]
  | [b5] => [[b5; false; false; false; false; false]]
  end.

Definition base64_alphabet : list ascii :=
  list_ascii_of_string
    "ABCDEFGHIJKLMNOPQRSTUVWXYZabcdefghijklmnopqrstuvwxyz0123456789+/".

(** The number a group of bits writes, most significant bit first. *)
Definition value_of_bits (bits : list bool) : nat :=
  fold_left (fun n (b : bool) => (2 * n + if b then 1 else 0)%nat) bits 0%nat.

Definition char_of_sextet (bits : list bool) : ascii :=
  nth (value_of_bits bits) base64_alphabet "A"%char.

Fixpoint index_of (c : ascii) (l : list ascii) : option nat :=
  match l with
  | [] => None
  | x :: rest =>
      if Ascii.eqb x c then Some 0%nat else option_map S (index_of c rest)
  end.

Definition sextet_of_value (n : nat) : list bool :=
  [Nat.testbit n 5; Nat.testbit n 4; Nat.testbit n 3;
   Nat.testbit n 2; Nat.testbit n 1; Nat.testbit n 0].

(** The decoder reads both alphabets: [-] is [+] and [_] is [/]. *)
Definition sextet_of_char (c : ascii) : option (list bool) :=
  if Ascii.eqb c "-" then Some (sextet_of_value 62)
  else if Ascii.eqb c "_" then Some (sextet_of_value 63)
  else option_map sextet_of_value (index_of c base64_alphabet).

Definition base64_padding (n : nat) : list ascii :=
  repeat "="%char ((4 - n mod 4) mod 4).

(** [buffer.toString('base64')] *)
Definition base64_encode (bytes : list ascii) : list ascii :=
  let body := map char_of_sextet (sextets_of_bits (flat_map bits_of_byte bytes)) in
  (body ++ base64_padding (List.length body))%list.

(** The groups of six bits of an encoded text: the decoder stops at the
    first [=] and passes over characters outside the alphabet. *)
Fixpoint sextets_of_chars (chars : list ascii) : list (list bool) :=
  match chars with
  | [] => []
  | c :: rest =>
      if Ascii.eqb c "=" then []
      else match sextet_of_char c with
           | Some s => s :: sextets_of_chars rest
           | None => sextets_of_chars rest
           end
  end.

(** [Buffer.from(text, 'base64')]: never throws. *)
Definition base64_decode (chars : list ascii) : list ascii :=
  bytes_of_bits (List.concat (sextets_of_chars chars)).

(** [s.replace(/c/g, by)] for a one-character pattern. *)
Definition replace_all (c : ascii) (by_ : list ascii) (s : list ascii) : list ascii :=
  flat_map (fun x => if Ascii.eqb x c then by_ else [x]) s.

(* ================================================================= *)
(** ** The Node.js runtime *)

(** What the server takes from the runtime and its [crypto] module.  The
    functions are parameters; the properties below hold for every choice of
    them, under the hypotheses they state. *)
Class Runtime : Type := {
  (** [createHmac('sha256', secret).update(data).digest()] *)
  hmac_sha256 : string -> string -> string;
  (** [createHash('sha256').update(token).digest('hex')] *)
  sha256_hex : string -> string;
  (** [scrypt(password, salt, 64, ...)]: the derived key. *)
  scrypt : string -> list ascii -> list ascii;
  JSON_stringify : json -> string;
  (** [JSON.parse] throws a [SyntaxError] on text that is not JSON. *)
  JSON_parse : string -> completion json;
  (** [x < n] for an [x] that is not a number: the coercion of [x] may
      throw, and a [NaN] compares false. *)
  coerced_less_than : json -> Z -> completion bool;
  (** [date.toJSON()], the text of a timestamp in a response body. *)
  to_iso_string : Z -> string
}.

(* ================================================================= *)
(** ** config/index.js *)

Module rate_limit_config.
Module registration.
Definition max_per_day : Z := 20.
Definition block_escalation : list Z := [3600; 86400; 604800].
End registration.
Module login.
Module ip.
Definition tokens_per_minute : Z := 5.
Definition bucket_size : Z := 5.
(** [login.ip] has no [block_escalation] property. *)
Definition block_escalation : option (list Z) := None.
End ip.
Module user.
Definition max_consecutive_failures : Z := 5.
Definition block_escalation : list Z := [300; 900; 1800].
End user.
End login.
End rate_limit_config.

(** [jwt_config] of [config/index.js]: the environment decides the fields,
    with these defaults. *)
Record jwt_configuration : Type := mk_jwt_configuration {
  secret : string;
  access_expiry : string;
  refresh_expiry : string
}.

Definition default_jwt_config : jwt_configuration :=
  {| secret := "dev-secret-change-in-production";
     access_expiry := "15m";
     refresh_expiry := "7d" |}.

(* ================================================================= *)
(** ** utils/validation.js *)

Inductive validation : Type :=
| Valid (value : string)
| Invalid (error : string).

(** One character of the class [[a-zA-Z0-9_-]]. *)
Definition is_url_safe (c : ascii) : bool :=
  let n := nat_of_ascii c in
  (((97 <=? n) && (n <=? 122)) || ((65 <=? n) && (n <=? 90))
   || ((48 <=? n) && (n <=? 57)) || (n =? 95) || (n =? 45))%nat.

(** [/^[a-zA-Z0-9_-]+$/.test(s)] *)
Definition safe_regex_test (s : string) : bool :=
  match list_ascii_of_string s with
  | [] => false
  | l => forallb is_url_safe l
  end.

(** [validate_idempotency_key(key)], for a header that is present:
    [key] is a string, and [!key] holds of the empty one. *)
Definition validate_idempotency_key (key : string) : validation :=
  if String.eqb key EmptyString then Invalid "Idempotency key is required"
  else
    let trimmed := trim key in
    if ((String.length trimmed <? 8) || (255 <? String.length trimmed))%nat then
      Invalid "Idempotency key must be between 8 and 255 characters"
    else if negb (safe_regex_test trimmed) then
      Invalid "Idempotency key contains invalid characters"
    else Valid trimmed.

(* ================================================================= *)
(** ** utils/crypto.js *)

Section Crypto.

Context {rt : Runtime}.

(** [hash_token(token)] *)
Definition hash_token (token : string) : string := sha256_hex token.

(** [verify_password(password, stored_hash, stored_salt)]: the stored
    values are decoded, the key is derived and compared. *)
Definition verify_password (password stored_hash stored_salt : string) : bool :=
  let salt := base64_decode (list_ascii_of_string stored_salt) in
  let expected_hash := base64_decode (list_ascii_of_string stored_hash) in
  let derived_key := scrypt password salt in
  if negb (List.length derived_key =? List.length expected_hash)%nat then false
  else String.eqb (string_of_list_ascii derived_key)
                  (string_of_list_ascii expected_hash).

End Crypto.

(* ================================================================= *)
(** ** utils/jwt.js *)

Definition is_digit (c : ascii) : bool :=
  let n := nat_of_ascii c in ((48 <=? n) && (n <=? 57))%nat.

(** [parseInt(digits, 10)] on a run of decimal digits. *)
Definition parse_int (digits : list ascii) : Z :=
  fold_left (fun acc c => 10 * acc + (Z.of_nat (nat_of_ascii c) - 48)) digits 0.

(** [parse_duration(duration)]: the text must match [/^(\d+)([mhd])$/]. *)
Definition parse_duration (duration : string) : completion Z :=
  match rev (list_ascii_of_string duration) with
  | unit :: (_ :: _) as reversed_digits =>
      if forallb is_digit reversed_digits then
        let value := parse_int (rev reversed_digits) in
        if Ascii.eqb unit "m" then Normal (value * 60 * 1000)
        else if Ascii.eqb unit "h" then Normal (value * 60 * 60 * 1000)
        else if Ascii.eqb unit "d" then Normal (value * 24 * 60 * 60 * 1000)
        else Throw ("Invalid duration format: " ++ duration)
      else Throw ("Invalid duration format: " ++ duration)
  | _ => Throw ("Invalid duration format: " ++ duration)
  end.

(** [base64_url_encode(input)] *)
Definition base64_url_encode (input : string) : string :=
  string_of_list_ascii
    (replace_all "=" []
       (replace_all "/" ["_"%char]
          (replace_all "+" ["-"%char]
             (base64_encode (list_ascii_of_string input))))).

(** [while (base64.length % 4 !== 0) base64 += '=']: at most three rounds. *)
Fixpoint restore_padding (rounds : nat) (base64 : list ascii) : list ascii :=
  match rounds with
  | O => base64
  | S rounds' =>
      if (List.length base64 mod 4 =? 0)%nat then base64
      else restore_padding rounds' (base64 ++ ["="%char])
  end.

(** [base64_url_decode(input)] *)
Definition base64_url_decode (input : string) : string :=
  let base64 :=
    replace_all "_" ["/"%char]
      (replace_all "-" ["+"%char] (list_ascii_of_string input)) in
  string_of_list_ascii (base64_decode (restore_padding 3 base64)).

(** [crypto.timingSafeEqual(a, b)] throws when the lengths differ. *)
Definition timingSafeEqual (a b : string) : completion bool :=
  if (String.length a =? String.length b)%nat then Normal (String.eqb a b)
  else Throw "Input buffers must have the same byte length".

(** No [.] among the characters of [s]. *)
Definition dot_free (s : string) : bool :=
  forallb (fun c => negb (Ascii.eqb c ".")) (list_ascii_of_string s).

(** The verdict of [verify_jwt]. *)
Inductive verdict : Type :=
| valid (payload : json)
| invalid (error : string).

(** A JavaScript value passed as a token. *)
Inductive js_value : Type :=
| js_undefined
| js_null
| js_boolean (b : bool)
| js_number (n : Z)
| js_object
| js_string (s : string).

(** The own property [name] of an object; [None] is [undefined]. *)
Fixpoint assoc (name : string) (properties : list (string * json)) : option json :=
  match properties with
  | [] => None
  | (k, v) :: rest => if String.eqb k name then Some v else assoc name rest
  end.

(** [v.name] for a value [JSON.parse] returned: reading a property of [null]
    throws, and a number, a string, a boolean or an array has no such
    property. *)
Definition get_property (v : json) (name : string) : completion (option json) :=
  match v with
  | JNull => Throw "Cannot read properties of null"
  | JObject properties => Normal (assoc name properties)
  | _ => Normal None
  end.

(** [{...obj, name: v}]: an own property keeps its place. *)
Fixpoint set_property (name : string) (v : json) (properties : list (string * json))
  : list (string * json) :=
  match properties with
  | [] => [(name, v)]
  | (k, old) :: rest =>
      if String.eqb k name then (k, v) :: rest
      else (k, old) :: set_property name v rest
  end.

(** Truthiness of a property that was read. *)
Definition truthy (v : option json) : bool :=
  match v with
  | None => false
  | Some JNull => false
  | Some (JBool b) => b
  | Some (JNumber n) => negb (n =? 0)
  | Some (JString s) => negb (String.eqb s EmptyString)
  | Some (JArray _) => true
  | Some (JObject _) => true
  end.

(** The fixed header [{ alg: 'HS256', typ: 'JWT' }]. *)
Definition jwt_header : json :=
  JObject [("alg", JString "HS256"); ("typ", JString "JWT")].

(** A user, as the token functions read it. *)
Record user : Type := mk_user {
  id : string;
  username : string;
  is_admin : bool;
  is_verified : bool
}.

(** The [options] of [create_access_token]. *)
Record access_options : Type := mk_access_options {
  is_impersonation : bool;
  admin_id : string
}.

Definition no_options : access_options :=
  {| is_impersonation := false; admin_id := EmptyString |}.

Section Jwt.

Context {rt : Runtime}.
Variable jwt_config : jwt_configuration.

(** [x < n]: numeric on numbers. *)
Definition less_than (x : json) (n : Z) : completion bool :=
  match x with
  | JNumber e => Normal (e <? n)
  | _ => coerced_less_than x n
  end.

(** [create_signature(data, secret)] *)
Definition create_signature (data secret : string) : string :=
  base64_url_encode (hmac_sha256 secret data).

(** [verify_signature(data, signature, secret)] *)
Definition verify_signature (data signature secret : string) : completion bool :=
  let expected := create_signature data secret in
  if negb (String.length signature =? String.length expected)%nat then Normal false
  else timingSafeEqual signature expected.

(** The payload [create_jwt] signs: the claims, then [iat] and [exp]. *)
Definition full_payload (now duration : Z) (payload : list (string * json))
  : list (string * json) :=
  set_property "exp" (JNumber ((now + duration) / 1000))
    (set_property "iat" (JNumber (now / 1000)) payload).

(** [create_jwt(payload, options)] at the clock value [now];
    [expiry] is [options.expiry]. *)
Definition create_jwt (now : Z) (payload : list (string * json))
    (expiry : option string) : completion string :=
  let expiry :=
    match expiry with
    | Some e => if String.eqb e EmptyString then access_expiry jwt_config else e
    | None => access_expiry jwt_config
    end in
  duration <- parse_duration expiry ;;
  let encoded_header := base64_url_encode (JSON_stringify jwt_header) in
  let encoded_payload :=
    base64_url_encode (JSON_stringify (JObject (full_payload now duration payload))) in
  let signature_input := encoded_header ++ "." ++ encoded_payload in
  let signature := create_signature signature_input (secret jwt_config) in
  Normal (signature_input ++ "." ++ signature).

(** The body of [verify_jwt]'s [try]. *)
Definition verify_jwt_body (now : Z) (token : js_value) : completion verdict :=
  match token with
  | js_string token =>
      if String.eqb token EmptyString then Normal (invalid "Token is required")
      else
        match split "." token with
        | [encoded_header; encoded_payload; signature] =>
            let signature_input := encoded_header ++ "." ++ encoded_payload in
            ok <- verify_signature signature_input signature (secret jwt_config) ;;
            if negb ok then Normal (invalid "Invalid signature")
            else
              payload <- JSON_parse (base64_url_decode encoded_payload) ;;
              let now := now / 1000 in
              exp <- get_property payload "exp" ;;
              if truthy exp then
                match exp with
                | Some e =>
                    expired <- less_than e now ;;
                    if expired then Normal (invalid "Token expired")
                    else Normal (valid payload)
                | None => Normal (valid payload)
                end
              else Normal (valid payload)
        | _ => Normal (invalid "Invalid token format")
        end
  | _ => Normal (invalid "Token is required")
  end.

(** [verify_jwt(token)] at the clock value [now]. *)
Definition verify_jwt (now : Z) (token : js_value) : completion verdict :=
  try_catch (verify_jwt_body now token)
            (fun _ => Normal (invalid "Invalid token")).

(** The claims [create_access_token] puts in the payload. *)
Definition access_claims (u : user) (options : access_options)
  : list (string * json) :=
  let payload :=
    [("sub", JString (id u));
     ("username", JString (username u));
     ("is_admin", JBool (is_admin u));
     ("is_verified", JBool (is_verified u));
     ("type", JString "access")] in
  if is_impersonation options then
    set_property "admin_id" (JString (admin_id options))
      (set_property "is_impersonation" (JBool true) payload)
  else payload.

(** [create_access_token(user, options)] *)
Definition create_access_token (now : Z) (u : user) (options : access_options)
  : completion string :=
  create_jwt now (access_claims u options) (Some (access_expiry jwt_config)).

(** [create_refresh_token(user, stay_logged_in)] *)
Definition create_refresh_token (now : Z) (u : user) (stay_logged_in : bool)
  : completion string :=
  let payload :=
    [("sub", JString (id u));
     ("type", JString "refresh");
     ("session_only", JBool (negb stay_logged_in))] in
  create_jwt now payload
    (Some (if stay_logged_in then refresh_expiry jwt_config else "24h")).

(** [get_expiry_date(duration)] *)
Definition get_expiry_date (now : Z) (duration : string) : completion Z :=
  d <- parse_duration duration ;; Normal (now + d).

End Jwt.

(* ================================================================= *)
(** ** middleware/rate-limit.js *)

(** What [get_block_duration] can return: a number of seconds, [null]
    (permanent), or [undefined] when the array is read at an index that is
    not one of its own (a negative count). *)
Inductive block_duration : Type :=
| Seconds (s : Z)
| Permanent
| Undefined.

(** [escalation[i]]: reading a JavaScript array. *)
Definition array_get (escalation : list Z) (i : Z) : option Z :=
  if i <? 0 then None else nth_error escalation (Z.to_nat i).

Definition get_block_duration (block_count : Z) (escalation : list Z) : block_duration :=
  if block_count >=? Z.of_nat (List.length escalation) then Permanent
  else match array_get escalation block_count with
       | Some s => Seconds s
       | None => Undefined
       end.

(** [is_currently_blocked(blocked_until)] *)
Definition is_currently_blocked (now : Z) (blocked_until : option Z) : bool :=
  match blocked_until with
  | None => false
  | Some t => now <? t
  end.

(** [Math.ceil((blocked_until - now) / 1000)] *)
Definition remaining_seconds (now blocked_until : Z) : Z :=
  - ((- (blocked_until - now)) / 1000).

(** *** Login, per IP: token bucket *)

Record login_ip_row : Type := mk_login_ip_row {
  tokens : Q;
  last_refill : Z;
  ip_blocked_until : option Z;
  ip_block_count : Z
}.

(** [EXTRACT(EPOCH FROM NOW() - last_refill)]: the elapsed time in seconds. *)
Definition epoch_seconds (now last : Z) : Q := (inject_Z (now - last) / 1000)%Q.

(** The [INSERT ... ON CONFLICT (ip_address) DO UPDATE ... RETURNING]
    statement of [rate_limit_login_ip], on the row of one address. *)
Definition refill_login_ip (now : Z) (bucket : Q) (existing : option login_ip_row)
  : login_ip_row :=
  match existing with
  | None =>
      {| tokens := bucket; last_refill := now;
         ip_blocked_until := None; ip_block_count := 0 |}
  | Some r =>
      {| tokens := Qmin bucket
                     (tokens r + (epoch_seconds now (last_refill r) / 60) * bucket)%Q;
         last_refill := now;
         ip_blocked_until := ip_blocked_until r;
         ip_block_count := ip_block_count r |}
  end.

(** [UPDATE rate_limit_login_ip SET tokens = tokens - 1] *)
Definition consume_token (r : login_ip_row) : login_ip_row :=
  {| tokens := (tokens r - 1)%Q; last_refill := last_refill r;
     ip_blocked_until := ip_blocked_until r; ip_block_count := ip_block_count r |}.

(** The two block updates. *)
Definition block_ip_permanent (r : login_ip_row) : login_ip_row :=
  {| tokens := tokens r; last_refill := last_refill r;
     ip_blocked_until := None; ip_block_count := ip_block_count r + 1 |}.

Definition block_ip_until (now seconds : Z) (r : login_ip_row) : login_ip_row :=
  {| tokens := tokens r; last_refill := last_refill r;
     ip_blocked_until := Some (now + seconds * 1000);
     ip_block_count := ip_block_count r + 1 |}.

(** The row selected by [is_permanently_blocked]'s query. *)
Definition permanent_row (blocked_until : option Z) (block_count : Z) : bool :=
  match blocked_until with
  | None => 4 <=? block_count
  | Some _ => false
  end.

(** [is_permanently_blocked(ip, table)]: [cached] is what [cache.get]
    returned ([None] for [undefined]). *)
Definition is_permanently_blocked (cached : option bool)
    (blocked_until : option Z) (block_count : Z) (present : bool) : bool :=
  match cached with
  | Some b => b
  | None => present && permanent_row blocked_until block_count
  end.

(** How a limiter middleware ends. *)
Inductive limiter_outcome : Type :=
| Next
| TooManyRequests (retry_after : option Z).

(** [config.block_escalation || rate_limit_config.registration.block_escalation] *)
Definition login_ip_escalation : list Z :=
  match rate_limit_config.login.ip.block_escalation with
  | Some l => l
  | None => rate_limit_config.registration.block_escalation
  end.

(** [rate_limit_login_ip(req, res, next)] on the row of the caller's
    address.  An [undefined] duration makes the interval literal of the
    second update ill-formed: the query throws and the [catch] calls
    [next()], after the refill has been written. *)
Definition rate_limit_login_ip (now : Z) (cached : option bool)
    (existing : option login_ip_row) : limiter_outcome * option login_ip_row :=
  let present := match existing with Some _ => true | None => false end in
  let bu := match existing with Some r => ip_blocked_until r | None => None end in
  let bc := match existing with Some r => ip_block_count r | None => 0 end in
  if is_permanently_blocked cached bu bc present then (TooManyRequests None, existing)
  else
    let record :=
      refill_login_ip now (inject_Z rate_limit_config.login.ip.bucket_size) existing in
    if is_currently_blocked now (ip_blocked_until record) then
      (TooManyRequests
         (option_map (remaining_seconds now) (ip_blocked_until record)),
       Some record)
    else if negb (Qle_bool 1%Q (tokens record)) then
      match get_block_duration (ip_block_count record) login_ip_escalation with
      | Permanent => (TooManyRequests None, Some (block_ip_permanent record))
      | Seconds d =>
          (TooManyRequests (if d =? 0 then None else Some d),
           Some (block_ip_until now d record))
      | Undefined => (Next, Some record)
      end
    else (Next, Some (consume_token record)).

(** [cleanup_rate_limits], second statement, on one row. *)
Definition cleanup_login_ip (now : Z) (r : login_ip_row) : login_ip_row :=
  match ip_blocked_until r with
  | Some t =>
      if t <? now then
        {| tokens := 5%Q; last_refill := last_refill r;
           ip_blocked_until := None; ip_block_count := ip_block_count r |}
      else r
  | None => r
  end.

(** *** Login, per user: counter with decay *)

Record login_user_row : Type := mk_login_user_row {
  consecutive_failures : Z;
  last_failure_at : option Z;
  blocked_until : option Z;
  block_count : Z
}.

Definition thirty_minutes : Z := 30 * 60 * 1000.

(** [last_failure_at < NOW() - INTERVAL '30 minutes']; a comparison with
    [NULL] is not true. *)
Definition decayed (now : Z) (last : option Z) : bool :=
  match last with
  | Some t => t <? now - thirty_minutes
  | None => false
  end.

(** The [INSERT ... ON CONFLICT (user_id) DO UPDATE ... RETURNING] statement
    of [record_login_failure], on the row of one user. *)
Definition upsert_login_failure (now : Z) (existing : option login_user_row)
  : login_user_row :=
  match existing with
  | None =>
      {| consecutive_failures := 1; last_failure_at := Some now;
         blocked_until := None; block_count := 0 |}
  | Some r =>
      {| consecutive_failures :=
           if decayed now (last_failure_at r) then 1
           else consecutive_failures r + 1;
         last_failure_at := Some now;
         blocked_until := blocked_until r;
         block_count := block_count r |}
  end.

(** The object [record_login_failure] resolves to. *)
Record failure_result : Type := mk_failure_result {
  blocked : bool;
  duration : option Z;
  permanent : bool
}.

Definition not_blocked : failure_result :=
  {| blocked := false; duration := None; permanent := false |}.

(** [record_login_failure(user_id)] on the row of that user. *)
Definition record_login_failure (now : Z) (existing : option login_user_row)
  : failure_result * login_user_row :=
  let record := upsert_login_failure now existing in
  if consecutive_failures record
       >=? rate_limit_config.login.user.max_consecutive_failures then
    match get_block_duration (block_count record)
            rate_limit_config.login.user.block_escalation with
    | Permanent =>
        ({| blocked := true; duration := None; permanent := true |},
         {| consecutive_failures := consecutive_failures record;
            last_failure_at := last_failure_at record;
            blocked_until := None;
            block_count := block_count record + 1 |})
    | Seconds d =>
        ({| blocked := true; duration := Some d; permanent := false |},
         {| consecutive_failures := 0;
            last_failure_at := last_failure_at record;
            blocked_until := Some (now + d * 1000);
            block_count := block_count record + 1 |})
    | Undefined => (not_blocked, record)
    end
  else (not_blocked, record).

(** [reset_login_failures(user_id)] *)
Definition reset_login_failures (existing : option login_user_row)
  : option login_user_row :=
  option_map (fun r =>
    {| consecutive_failures := 0; last_failure_at := None;
       blocked_until := blocked_until r; block_count := block_count r |}) existing.

(** The object [check_user_login_block] resolves to. *)
Inductive block_status : Type :=
| NotBlocked
| BlockedPermanently
| BlockedUntil (t : Z).

Definition check_user_login_block (now : Z) (existing : option login_user_row)
  : block_status :=
  match existing with
  | None => NotBlocked
  | Some record =>
      match blocked_until record with
      | None => if block_count record >=? 4 then BlockedPermanently else NotBlocked
      | Some t => if now <? t then BlockedUntil t else NotBlocked
      end
  end.

(* ================================================================= *)
(** ** middleware/idempotency.js *)

(** A row of [idempotency_keys]; [key] is the primary key. *)
Record idempotency_row : Type := mk_idempotency_row {
  key : string;
  user_id : option string;
  endpoint : string;
  response_status : Z;
  response_body : json;
  created_at : Z;
  expires_at : Z
}.

(** What the middleware reads of a request: the [Idempotency-Key] header,
    [req.user?.id], [req.method] and [req.originalUrl]. *)
Record request : Type := mk_request {
  idempotency_key_header : option string;
  req_user_id : option string;
  method : string;
  originalUrl : string
}.

(** What the client receives: status, body and whether the
    [Idempotent-Replayed] header is set. *)
Record response : Type := mk_response {
  status : Z;
  body : json;
  replayed : bool
}.

(** The database and the record of the handlers' side effects: one entry per
    execution of a handler, latest first. *)
Record world : Type := mk_world {
  idempotency_keys : list idempotency_row;
  side_effects : list request
}.

(** A route handler: it runs its side effect and calls [res.json] once with
    a status and a body, which may depend on the effects that happened
    before.  The body is an object, given by its properties: every
    [res.json] of the server's handlers takes an object literal. *)
Definition handler : Type := list request -> request -> Z * list (string * json).

(** The (key, caller, endpoint) tuple of a request. *)
Record ticket : Type := mk_ticket {
  t_key : string;
  t_user_id : option string;
  t_endpoint : string
}.

Definition twenty_four_hours : Z := 24 * 60 * 60 * 1000.

(** [req.user?.id || null] *)
Definition caller_id (req : request) : option string :=
  match req_user_id req with
  | Some id => if String.eqb id EmptyString then None else Some id
  | None => None
  end.

(** [`${req.method}:${req.originalUrl.split('?')[0]}`] *)
Definition endpoint_of (req : request) : string :=
  method req ++ ":" ++ hd EmptyString (split "?"%char (originalUrl req)).

(** The tuple under which a request with the validated key [k] is
    looked up and stored: [[key, user_id, endpoint]]. *)
Definition ticket_of (k : string) (req : request) : ticket :=
  {| t_key := k; t_user_id := caller_id req; t_endpoint := endpoint_of req |}.

Definition option_string_eqb (a b : option string) : bool :=
  match a, b with
  | Some x, Some y => String.eqb x y
  | None, None => true
  | _, _ => false
  end.

(** The [WHERE] clause of the lookup:
    [key = $1 AND (user_id = $2 OR (user_id IS NULL AND $2 IS NULL))
     AND endpoint = $3 AND expires_at > NOW()]. *)
Definition matches (now : Z) (t : ticket) (r : idempotency_row) : bool :=
  String.eqb (key r) (t_key t)
  && option_string_eqb (user_id r) (t_user_id t)
  && String.eqb (endpoint r) (t_endpoint t)
  && (now <? expires_at r).

(** The [SELECT] of the middleware. *)
Definition select_existing (now : Z) (t : ticket) (table : list idempotency_row)
  : list idempotency_row :=
  filter (matches now t) table.

Definition has_key (k : string) (r : idempotency_row) : bool := String.eqb (key r) k.

(** *** The [JSONB] column

    [response_body] is [JSONB]: the body, sent as its JSON text, is kept
    as a value, not as the text.  An object holds each key once, the
    last value given for it, with the keys in the order of the column:
    shorter keys first, keys of one length byte by byte. *)
Definition jsonb_key_before (a b : string) : bool :=
  (String.length a <? String.length b)%nat
  || ((String.length a =? String.length b)%nat && String.ltb a b).

Fixpoint jsonb_insert (k : string) (v : json) (members : list (string * json))
  : list (string * json) :=
  match members with
  | [] => [(k, v)]
  | (k', v') :: rest =>
      if String.eqb k' k then (k, v) :: rest
      else if jsonb_key_before k k' then (k, v) :: (k', v') :: rest
      else (k', v') :: jsonb_insert k v rest
  end.

Definition jsonb_members (properties : list (string * json))
  : list (string * json) :=
  fold_left (fun members kv => jsonb_insert (fst kv) (snd kv) members)
            properties [].

(** An array index: the decimal text, without leading zeros, of an
    integer from 0 to 2^32 - 2. *)
Definition is_array_index (k : string) : bool :=
  match list_ascii_of_string k with
  | [] => false
  | c :: rest =>
      forallb (fun d => (48 <=? nat_of_ascii d)%nat && (nat_of_ascii d <=? 57)%nat)
              (c :: rest)
      && (negb (Ascii.eqb c "0") || match rest with [] => true | _ => false end)
      && (fold_left (fun a d => 10 * a + (Z.of_nat (nat_of_ascii d) - 48))
                    (c :: rest) 0 <? 4294967295)
  end.

(** The object that the driver's [JSON.parse] builds from the text the
    column returns: an object lists its array indices first, in
    ascending order (the order the column has them in), then its other
    keys in the order of the text. *)
Definition own_property_order (members : list (string * json))
  : list (string * json) :=
  (filter (fun kv => is_array_index (fst kv)) members
   ++ filter (fun kv => negb (is_array_index (fst kv))) members)%list.

(** What the row gives back for a body that was stored: the value read
    from the column, [cached.response_body]. *)
Fixpoint jsonb (v : json) : json :=
  match v with
  | JArray items => JArray (map jsonb items)
  | JObject properties =>
      JObject (own_property_order
                 (jsonb_members (map (fun kv => (fst kv, jsonb (snd kv)))
                                     properties)))
  | _ => v
  end.

(** A text with the character NUL.  [JSON.stringify] writes it as
    [\u0000], which a [JSONB] value cannot hold. *)
Definition has_nul (s : string) : bool :=
  existsb (fun c => Ascii.eqb c "000"%char) (list_ascii_of_string s).

Fixpoint json_has_nul (v : json) : bool :=
  match v with
  | JString s => has_nul s
  | JArray items => existsb json_has_nul items
  | JObject properties =>
      existsb (fun kv => has_nul (fst kv) || json_has_nul (snd kv)) properties
  | _ => false
  end.

(** The [DO UPDATE SET] part: status, body and expiry are replaced, the
    caller, the endpoint and [created_at] stay. *)
Definition overwrite (now : Z) (st : Z) (column : json) (r : idempotency_row)
  : idempotency_row :=
  {| key := key r; user_id := user_id r; endpoint := endpoint r;
     response_status := st; response_body := column;
     created_at := created_at r; expires_at := now + twenty_four_hours |}.

(** [INSERT INTO idempotency_keys ... ON CONFLICT (key) DO UPDATE SET ...]
    with the body [b] for [$5].  The statement throws when [endpoint]
    does not fit its [VARCHAR(255)] column and when the body holds a NUL
    character; the row holds the body as the [JSONB] column keeps it. *)
Definition insert_or_update (now : Z) (t : ticket) (st : Z)
    (b : list (string * json)) (table : list idempotency_row)
  : completion (list idempotency_row) :=
  if (255 <? String.length (t_endpoint t))%nat then
    Throw "value too long for type character varying(255)"
  else if json_has_nul (JObject b) then
    Throw "unsupported Unicode escape sequence"
  else
    let column := jsonb (JObject b) in
    if existsb (has_key (t_key t)) table then
      Normal (map (fun r => if has_key (t_key t) r
                            then overwrite now st column r else r)
                  table)
    else
      Normal (table ++
              [{| key := t_key t; user_id := t_user_id t; endpoint := t_endpoint t;
                  response_status := st; response_body := column;
                  created_at := now; expires_at := now + twenty_four_hours |}])%list.

(** Where a request is in the middleware chain. *)
Inductive phase : Type :=
| Arrived
| Running (capture : option ticket)
| Responding (capture : option ticket) (st : Z) (b : list (string * json))
| Done (r : response).

Definition bad_request (error message : string) : response :=
  {| status := 400;
     body := JObject [("error", JString error); ("message", JString message)];
     replayed := false |}.

(** The middleware up to [next()]: the header checks and the lookup.
    It either answers itself or lets the handler run, with [res.json]
    intercepted when a key was given. *)
Definition idempotency (required : bool) (now : Z) (req : request)
    (table : list idempotency_row) : phase :=
  match idempotency_key_header req with
  | None =>
      if required then
        Done (bad_request "Idempotency key required"
                          "Please provide an Idempotency-Key header")
      else Running None
  | Some key_header =>
      if String.eqb key_header EmptyString then
        if required then
          Done (bad_request "Idempotency key required"
                            "Please provide an Idempotency-Key header")
        else Running None
      else
        match validate_idempotency_key key_header with
        | Invalid error => Done (bad_request "Invalid idempotency key" error)
        | Valid k =>
            let t := ticket_of k req in
            match select_existing now t table with
            | cached :: _ =>
                Done {| status := response_status cached;
                        body := response_body cached;
                        replayed := true |}
            | [] => Running (Some t)
            end
        end
  end.

(** The intercepted [res.json(body)]: the response is stored when its
    status is below 500; a failing insert is logged and ignored. *)
Definition res_json (now : Z) (capture : option ticket) (st : Z)
    (b : list (string * json)) (table : list idempotency_row)
  : list idempotency_row :=
  match capture with
  | Some t =>
      if st <? 500 then
        match insert_or_update now t st b table with
        | Normal table' => table'
        | Throw _ => table
        end
      else table
  | None => table
  end.

(** One atomic step of a request: the middleware's lookup, the handler's
    execution, or the handler's call of [res.json]. *)
Definition step (h : handler) (required : bool) (now : Z) (req : request)
    (w : world) (p : phase) : world * phase :=
  match p with
  | Arrived => (w, idempotency required now req (idempotency_keys w))
  | Running capture =>
      let '(st, b) := h (side_effects w) req in
      ({| idempotency_keys := idempotency_keys w;
          side_effects := req :: side_effects w |},
       Responding capture st b)
  | Responding capture st b =>
      ({| idempotency_keys := res_json now capture st b (idempotency_keys w);
          side_effects := side_effects w |},
       Done {| status := st; body := JObject b; replayed := false |})
  | Done r => (w, Done r)
  end.

(** A request served without interleaving: lookup, handler, [res.json]. *)
Definition serve (h : handler) (required : bool) (now : Z) (req : request)
    (w : world) : world * phase :=
  let '(w1, p1) := step h required now req w Arrived in
  let '(w2, p2) := step h required now req w1 p1 in
  step h required now req w2 p2.

(** Two requests in flight; [schedule] says whose step comes next
    ([false] for the first request, [true] for the second) and when. *)
Record race : Type := mk_race {
  shared : world;
  first : phase;
  second : phase
}.

Definition race_step (h : handler) (required : bool) (req1 req2 : request)
    (who : bool) (now : Z) (s : race) : race :=
  if who then
    let '(w, p) := step h required now req2 (shared s) (second s) in
    {| shared := w; first := first s; second := p |}
  else
    let '(w, p) := step h required now req1 (shared s) (first s) in
    {| shared := w; first := p; second := second s |}.

Fixpoint run (h : handler) (required : bool) (req1 req2 : request)
    (schedule : list (bool * Z)) (s : race) : race :=
  match schedule with
  | [] => s
  | (who, now) :: rest =>
      run h required req1 req2 rest (race_step h required req1 req2 who now s)
  end.

(** [cleanup_idempotency_keys]: [DELETE ... WHERE expires_at < NOW()]. *)
Definition cleanup_idempotency_keys (now : Z) (table : list idempotency_row)
  : list idempotency_row :=
  filter (fun r => negb (expires_at r <? now)) table.

(** The row of tuple [t] created at [created] and last written at [now],
    with [b] in the column [response_body]. *)
Definition stored_row (t : ticket) (created now st : Z) (b : json)
  : idempotency_row :=
  {| key := t_key t; user_id := t_user_id t; endpoint := t_endpoint t;
     response_status := st; response_body := b;
     created_at := created; expires_at := now + twenty_four_hours |}.

(* ================================================================= *)
(** ** routes/auth.js: [/login] and [/refresh] *)

(** A row of [users]. *)
Record user_row : Type := mk_user_row {
  u_id : string;
  u_username : string;
  u_email : string;
  password_hash : string;
  password_salt : string;
  u_is_admin : bool;
  u_is_verified : bool;
  deleted_at : option Z;
  deleted_by_admin : bool
}.

(** A row of [refresh_tokens]. *)
Record refresh_token_row : Type := mk_refresh_token_row {
  rt_id : string;
  rt_user_id : string;
  token_hash : string;
  rt_expires_at : Z;
  is_session_only : bool;
  rt_created_at : Z;
  last_used_at : option Z;
  user_agent : option string;
  ip_address : option string
}.

(** The tables the two routes touch, and the record of the calls of
    [verify_password]: password, stored hash, stored salt, latest first. *)
Record database : Type := mk_database {
  users : list user_row;
  refresh_tokens : list refresh_token_row;
  rate_limit_login_user : string -> option login_user_row;
  password_checks : list (string * string * string)
}.

(** A cookie set by [res.cookie(name, value, options)]. *)
Record cookie : Type := mk_cookie {
  cookie_name : string;
  cookie_value : string;
  httpOnly : bool;
  secure : bool;
  sameSite : string;
  path : string;
  maxAge : option Z
}.

(** What a route sends: status, body, cookies set and cookies cleared. *)
Record http_response : Type := mk_http_response {
  http_status : Z;
  http_body : json;
  set_cookies : list cookie;
  cleared_cookies : list string
}.

Definition json_response (st : Z) (b : json) : http_response :=
  {| http_status := st; http_body := b; set_cookies := []; cleared_cookies := [] |}.

(** What [/login] reads of a request. *)
Record login_request : Type := mk_login_request {
  body_username : option string;
  body_password : option string;
  stay_logged_in : bool;
  header_user_agent : option string;
  req_ip : option string
}.

(** [LOWER(text)] on the letters A to Z. *)
Definition lower (text : string) : string :=
  string_of_list_ascii
    (map (fun c => let n := nat_of_ascii c in
                   if ((65 <=? n) && (n <=? 90))%nat then ascii_of_nat (n + 32) else c)
         (list_ascii_of_string text)).

Definition set_rate_limit (user : string) (row : login_user_row)
    (table : string -> option login_user_row) : string -> option login_user_row :=
  fun k => if String.eqb k user then Some row else table k.

Definition json_of_date {rt : Runtime} (date : option Z) : json :=
  match date with
  | Some t => JString (to_iso_string t)
  | None => JNull
  end.

Section Routes.

Context {rt : Runtime}.
Variable jwt_config : jwt_configuration.
(** [process.env.ENVIRONMENT] *)
Variable environment : string.

(** [get_cookie_options(session_only)], before name and value are set. *)
Definition get_cookie_options (session_only : bool) : completion cookie :=
  if session_only then
    Normal {| cookie_name := EmptyString; cookie_value := EmptyString;
              httpOnly := true; secure := String.eqb environment "PROD";
              sameSite := "strict"; path := "/"; maxAge := None |}
  else
    max_age <- parse_duration (refresh_expiry jwt_config) ;;
    Normal {| cookie_name := EmptyString; cookie_value := EmptyString;
              httpOnly := true; secure := String.eqb environment "PROD";
              sameSite := "strict"; path := "/"; maxAge := Some max_age |}.

(** [res.cookie('access_token', token, { ...options, maxAge: 15 * 60 * 1000 })] *)
Definition access_cookie (token : string) (options : cookie) : cookie :=
  {| cookie_name := "access_token"; cookie_value := token;
     httpOnly := httpOnly options; secure := secure options;
     sameSite := sameSite options; path := path options;
     maxAge := Some (15 * 60 * 1000) |}.

(** [res.cookie('refresh_token', token, options)] *)
Definition refresh_cookie (token : string) (options : cookie) : cookie :=
  {| cookie_name := "refresh_token"; cookie_value := token;
     httpOnly := httpOnly options; secure := secure options;
     sameSite := sameSite options; path := path options;
     maxAge := maxAge options |}.

(** The join of [/refresh]:
    [refresh_tokens rt JOIN users u ON rt.user_id = u.id
     WHERE rt.token_hash = $1 AND rt.expires_at > NOW()]. *)
Definition select_refresh_token (now : Z) (hash : string) (db : database)
  : list (refresh_token_row * user_row) :=
  flat_map
    (fun r =>
       if String.eqb (token_hash r) hash && (now <? rt_expires_at r) then
         map (fun u => (r, u))
             (filter (fun u => String.eqb (rt_user_id r) (u_id u)) (users db))
       else [])
    (refresh_tokens db).

Definition touch (now : Z) (r : refresh_token_row) : refresh_token_row :=
  {| rt_id := rt_id r; rt_user_id := rt_user_id r; token_hash := token_hash r;
     rt_expires_at := rt_expires_at r; is_session_only := is_session_only r;
     rt_created_at := rt_created_at r; last_used_at := Some now;
     user_agent := user_agent r; ip_address := ip_address r |}.

(** [UPDATE refresh_tokens SET last_used_at = NOW() WHERE token_hash = $1] *)
Definition update_last_used (now : Z) (hash : string)
    (table : list refresh_token_row) : list refresh_token_row :=
  map (fun r => if String.eqb (token_hash r) hash then touch now r else r) table.

Definition with_refresh_tokens (table : list refresh_token_row) (db : database)
  : database :=
  {| users := users db; refresh_tokens := table;
     rate_limit_login_user := rate_limit_login_user db;
     password_checks := password_checks db |}.

(** [POST /refresh]; [refresh_token] is [req.cookies?.refresh_token]. *)
Definition post_refresh (now : Z) (refresh_token : option string)
    (db : database) : http_response * database :=
  match refresh_token with
  | None => (json_response 401 (JObject [("error", JString "No refresh token")]), db)
  | Some token =>
      if String.eqb token EmptyString then
        (json_response 401 (JObject [("error", JString "No refresh token")]), db)
      else
        let hash := hash_token token in
        match select_refresh_token now hash db with
        | [] =>
            ({| http_status := 401;
                http_body := JObject [("error", JString "Invalid refresh token")];
                set_cookies := [];
                cleared_cookies := ["access_token"; "refresh_token"] |}, db)
        | (record, u) :: _ =>
            let db' :=
              with_refresh_tokens
                (update_last_used now hash (refresh_tokens db)) db in
            let identity :=
              {| id := u_id u; username := u_username u;
                 is_admin := u_is_admin u; is_verified := u_is_verified u |} in
            match
              access_token <- create_access_token jwt_config now identity no_options ;;
              options <- get_cookie_options (is_session_only record) ;;
              Normal
                {| http_status := 200;
                   http_body :=
                     JObject
                       [("message", JString "Token refreshed");
                        ("user",
                         JObject
                           [("id", JString (u_id u));
                            ("username", JString (u_username u));
                            ("email", JString (u_email u));
                            ("is_admin", JBool (u_is_admin u));
                            ("is_verified", JBool (u_is_verified u));
                            ("deleted_at", json_of_date (deleted_at u))])];
                   set_cookies := [access_cookie access_token options];
                   cleared_cookies := [] |}
            with
            | Normal response => (response, db')
            | Throw _ =>
                (json_response 500
                   (JObject [("error", JString "Token refresh failed")]), db')
            end
        end
  end.

(** The lookup of [/login]:
    [WHERE LOWER(username) = LOWER($1) OR LOWER(email) = LOWER($1)]. *)
Definition find_user (name : string) (db : database) : list user_row :=
  filter (fun u => String.eqb (lower (u_username u)) (lower name)
                   || String.eqb (lower (u_email u)) (lower name))
         (users db).

Definition log_password_check (password stored_hash stored_salt : string)
    (db : database) : database :=
  {| users := users db; refresh_tokens := refresh_tokens db;
     rate_limit_login_user := rate_limit_login_user db;
     password_checks := (password, stored_hash, stored_salt) :: password_checks db |}.

Definition with_rate_limit (user : string) (row : option login_user_row)
    (db : database) : database :=
  match row with
  | Some r =>
      {| users := users db; refresh_tokens := refresh_tokens db;
         rate_limit_login_user := set_rate_limit user r (rate_limit_login_user db);
         password_checks := password_checks db |}
  | None => db
  end.

(** [store_refresh_token(user_id, token, stay_logged_in, req)]; the new
    row takes [fresh_id] as its generated [id], and the insert throws on
    a hash that is already stored ([token_hash] is [UNIQUE]). *)
Definition store_refresh_token (now : Z) (fresh_id : string) (user : string)
    (token : string) (stay : bool) (req : login_request) (db : database)
  : completion database :=
  let hash := hash_token token in
  expires <- get_expiry_date now
               (if stay then refresh_expiry jwt_config else "24h") ;;
  if existsb (fun r => String.eqb (token_hash r) hash) (refresh_tokens db) then
    Throw "duplicate key value violates unique constraint"
  else
    Normal
      (with_refresh_tokens
         (refresh_tokens db ++
          [{| rt_id := fresh_id; rt_user_id := user; token_hash := hash;
              rt_expires_at := expires; is_session_only := negb stay;
              rt_created_at := now; last_used_at := None;
              user_agent :=
                match header_user_agent req with
                | Some a => if String.eqb a EmptyString then None else Some a
                | None => None
                end;
              ip_address :=
                match req_ip req with
                | Some a => if String.eqb a EmptyString then None else Some a
                | None => None
                end |}])%list db).

(** [set_auth_cookies(res, access_token, refresh_token, stay_logged_in)] *)
Definition set_auth_cookies (access_token refresh_token : string) (stay : bool)
  : completion (list cookie) :=
  options <- get_cookie_options (negb stay) ;;
  Normal [access_cookie access_token options; refresh_cookie refresh_token options].

Definition invalid_credentials : http_response :=
  json_response 401 (JObject [("error", JString "Invalid credentials")]).

(** The part of [/login] after a correct password: tokens, the stored
    refresh token, cookies and the body. *)
Definition login_success (now : Z) (fresh_id : string) (req : login_request)
    (u : user_row) (db : database) : http_response * database :=
  let identity :=
    {| id := u_id u; username := u_username u;
       is_admin := u_is_admin u; is_verified := u_is_verified u |} in
  let failed db' :=
    (json_response 500 (JObject [("error", JString "Login failed")]), db') in
  let issue (b : json) :=
    match create_access_token jwt_config now identity no_options with
    | Throw _ => failed db
    | Normal access_token =>
        match create_refresh_token jwt_config now identity (stay_logged_in req) with
        | Throw _ => failed db
        | Normal refresh_token =>
            match store_refresh_token now fresh_id (u_id u) refresh_token
                    (stay_logged_in req) req db with
            | Throw _ => failed db
            | Normal db' =>
                match set_auth_cookies access_token refresh_token
                        (stay_logged_in req) with
                | Throw _ => failed db'
                | Normal cookies =>
                    ({| http_status := 200; http_body := b;
                        set_cookies := cookies; cleared_cookies := [] |}, db')
                end
            end
        end
    end in
  match deleted_at u with
  | Some deleted =>
      if deleted_by_admin u then
        (json_response 403
           (JObject [("error", JString "Account has been deleted");
                     ("can_recover", JBool false)]), db)
      else
        issue (JObject
                 [("message", JString "Account is deactivated");
                  ("code", JString "ACCOUNT_DELETED");
                  ("can_recover", JBool true);
                  ("user",
                   JObject [("id", JString (u_id u));
                            ("username", JString (u_username u));
                            ("deleted_at", JString (to_iso_string deleted))])])
  | None =>
      issue (JObject
               [("message", JString "Login successful");
                ("user",
                 JObject [("id", JString (u_id u));
                          ("username", JString (u_username u));
                          ("email", JString (u_email u));
                          ("is_admin", JBool (u_is_admin u));
                          ("is_verified", JBool (u_is_verified u))])])
  end.

(** [POST /login], after the per-address limiter let the request through.
    The answer to a user with a running block reads the clock again,
    [new Date()] in [block_status.until - new Date()]: [later] is that
    reading, taken after the block was checked at [now]. *)
Definition post_login (now later : Z) (fresh_id : string) (req : login_request)
    (db : database) : http_response * database :=
  let missing :=
    (json_response 400
       (JObject [("error", JString "Username and password required")]), db) in
  match body_username req, body_password req with
  | Some name, Some password =>
      if String.eqb name EmptyString || String.eqb password EmptyString then missing
      else
        match find_user name db with
        | [] =>
            (invalid_credentials,
             log_password_check password "dummy_hash_to_prevent_timing_attack"
                                "dummy_salt" db)
        | u :: _ =>
            match check_user_login_block now (rate_limit_login_user db (u_id u)) with
            | BlockedPermanently =>
                (json_response 403
                   (JObject
                      [("error", JString "Account locked");
                       ("message",
                        JString "Too many failed login attempts. Please contact support.")]),
                 db)
            | BlockedUntil t =>
                (json_response 429
                   (JObject [("error", JString "Account temporarily locked");
                             ("retry_after", JNumber (remaining_seconds later t))]),
                 db)
            | NotBlocked =>
                let db1 :=
                  log_password_check password (password_hash u) (password_salt u) db in
                if verify_password password (password_hash u) (password_salt u) then
                  login_success now fresh_id req u
                    (with_rate_limit (u_id u)
                       (reset_login_failures (rate_limit_login_user db1 (u_id u)))
                       db1)
                else
                  let '(failure, row) :=
                    record_login_failure now (rate_limit_login_user db1 (u_id u)) in
                  let db2 := with_rate_limit (u_id u) (Some row) db1 in
                  if blocked failure then
                    (json_response 429
                       (JObject
                          (("error", JString "Account temporarily locked")
                           :: ("message", JString "Too many failed login attempts")
                           :: match duration failure with
                              | Some d => [("retry_after", JNumber d)]
                              | None => []
                              end)),
                     db2)
                  else (invalid_credentials, db2)
            end
        end
  | _, _ => missing
  end.

End Routes.

(* ================================================================= *)
(** ** jobs/cleanup.js and routes/admin.js: the limiter's tables *)

(** [cleanup_rate_limits], third statement, on one row:
    [UPDATE rate_limit_login_user SET consecutive_failures = 0,
     blocked_until = NULL
     WHERE blocked_until IS NOT NULL AND blocked_until < NOW()]. *)
Definition cleanup_login_user (now : Z) (r : login_user_row) : login_user_row :=
  match blocked_until r with
  | Some t =>
      if t <? now then
        {| consecutive_failures := 0; last_failure_at := last_failure_at r;
           blocked_until := None; block_count := block_count r |}
      else r
  | None => r
  end.

(** [POST /api/admin/users/:id/unblock], on the row of that user:
    [UPDATE rate_limit_login_user
     SET blocked_until = NULL, consecutive_failures = 0, block_count = 0]. *)
Definition admin_unblock (r : login_user_row) : login_user_row :=
  {| consecutive_failures := 0; last_failure_at := last_failure_at r;
     blocked_until := None; block_count := 0 |}.

(* ================================================================= *)
(** ** services/cache.js *)

(** [MemoryCache]: a [Map] from keys to entries, in insertion order.  The
    values are of a type [V] (none of them [undefined]; the limiter stores
    booleans); [expires_at] is a time, or [null]. *)
Module MemoryCache.

Section Store.

Variable V : Type.

Record entry : Type := mk_entry {
  value : V;
  expires_at : option Z
}.

Definition store : Type := list (string * entry).

(** [Map.prototype.get], [set] (an existing key keeps its place) and
    [delete]. *)
Fixpoint map_get (key : string) (s : store) : option entry :=
  match s with
  | [] => None
  | (k, e) :: rest => if String.eqb k key then Some e else map_get key rest
  end.

Fixpoint map_set (key : string) (e : entry) (s : store) : store :=
  match s with
  | [] => [(key, e)]
  | (k, old) :: rest =>
      if String.eqb k key then (k, e) :: rest else (k, old) :: map_set key e rest
  end.

Definition map_delete (key : string) (s : store) : store :=
  filter (fun ke => negb (String.eqb (fst ke) key)) s.

(** [entry.expires_at && now > entry.expires_at]: [null] and 0 are falsy. *)
Definition expired (now : Z) (e : entry) : bool :=
  match expires_at e with
  | Some t => negb (t =? 0) && (t <? now)
  | None => false
  end.

(** [!entry.expires_at || now < entry.expires_at] *)
Definition persistable (now : Z) (e : entry) : bool :=
  match expires_at e with
  | Some t => (t =? 0) || (now <? t)
  | None => true
  end.

(** [get(key)]: [None] is [undefined]; an expired entry is deleted. *)
Definition get (key : string) (now : Z) (s : store) : option V * store :=
  match map_get key s with
  | None => (None, s)
  | Some e =>
      if expired now e then (None, map_delete key s) else (Some (value e), s)
  end.

(** [set(key, value, ttl_ms)]: [ttl_ms ? Date.now() + ttl_ms : null]. *)
Definition set (key : string) (v : V) (ttl_ms : option Z) (now : Z) (s : store)
  : store :=
  map_set key
    {| value := v;
       expires_at := match ttl_ms with
                     | Some ttl => if ttl =? 0 then None else Some (now + ttl)
                     | None => None
                     end |} s.

(** [delete(key)]: whether the key was there, and the store. *)
Definition delete (key : string) (s : store) : bool * store :=
  (match map_get key s with Some _ => true | None => false end, map_delete key s).

(** [size()]: the entries of the map, expired ones included. *)
Definition size (s : store) : nat := List.length s.

(** [cleanup()] *)
Definition cleanup (now : Z) (s : store) : store :=
  filter (fun ke => negb (expired now (snd ke))) s.

(** [get_all()]: the object with the entries to persist, as the list of
    its own properties, here in the order of the map (an object lists
    keys that are array indices first).  An assignment to
    [data['__proto__']] sets the prototype of [data] and adds no
    property. *)
Definition get_all (now : Z) (s : store) : list (string * entry) :=
  filter (fun ke => persistable now (snd ke)
                    && negb (String.eqb (fst ke) "__proto__")) s.

(** [load_all(data)] *)
Definition load_all (now : Z) (data : list (string * entry)) (s : store) : store :=
  fold_left (fun acc ke => if persistable now (snd ke)
                           then map_set (fst ke) (snd ke) acc else acc)
            data s.

End Store.

Arguments mk_entry {V} value expires_at.
Arguments value {V} e.
Arguments expires_at {V} e.
Arguments map_get {V} key s.
Arguments map_set {V} key e s.
Arguments map_delete {V} key s.
Arguments expired {V} now e.
Arguments persistable {V} now e.
Arguments get {V} key now s.
Arguments set {V} key v ttl_ms now s.
Arguments delete {V} key s.
Arguments size {V} s.
Arguments cleanup {V} now s.
Arguments get_all {V} now s.
Arguments load_all {V} now data s.

End MemoryCache.

(* ================================================================= *)
(** ** middleware/rate-limit.js: the permanent-block check and its cache *)

(** The template [`${table}:permanent:${ip}`]. *)
Definition permanent_cache_key (table ip : string) : string :=
  table ++ ":permanent:" ++ ip.

(** [rate_limit_login_ip(req, res, next)] with the cache it reads and
    writes: [is_permanently_blocked] looks up
    [rate_limit_login_ip:permanent:<ip>], asks the database on a miss and
    keeps the answer for a minute; the permanent block deletes the key. *)
Definition rate_limit_login_ip_cached (now : Z) (ip : string)
    (cache : MemoryCache.store bool) (existing : option login_ip_row)
  : limiter_outcome * MemoryCache.store bool * option login_ip_row :=
  let cache_key := permanent_cache_key "rate_limit_login_ip" ip in
  let '(hit, cache) := MemoryCache.get cache_key now cache in
  let present := match existing with Some _ => true | None => false end in
  let bu := match existing with Some r => ip_blocked_until r | None => None end in
  let bc := match existing with Some r => ip_block_count r | None => 0 end in
  let is_blocked := is_permanently_blocked hit bu bc present in
  let cache :=
    match hit with
    | Some _ => cache
    | None => MemoryCache.set cache_key is_blocked (Some 60000) now cache
    end in
  if is_blocked then (TooManyRequests None, cache, existing)
  else
    let record :=
      refill_login_ip now (inject_Z rate_limit_config.login.ip.bucket_size) existing in
    if is_currently_blocked now (ip_blocked_until record) then
      (TooManyRequests
         (option_map (remaining_seconds now) (ip_blocked_until record)),
       cache, Some record)
    else if negb (Qle_bool 1%Q (tokens record)) then
      match get_block_duration (ip_block_count record) login_ip_escalation with
      | Permanent =>
          (TooManyRequests None, snd (MemoryCache.delete cache_key cache),
           Some (block_ip_permanent record))
      | Seconds d =>
          (TooManyRequests (if d =? 0 then None else Some d), cache,
           Some (block_ip_until now d record))
      | Undefined => (Next, cache, Some record)
      end
    else (Next, cache, Some (consume_token record)).

(* ================================================================= *)
(** ** middleware/rate-limit.js: the client address and registrations *)

(** [get_client_ip(req)]: [forwarded] is [req.headers['x-forwarded-for']]
    and [remote_address] is [req.socket.remoteAddress]. *)
Definition get_client_ip (forwarded remote_address : option string) : string :=
  let from_socket :=
    match remote_address with
    | Some a => if String.eqb a EmptyString then "127.0.0.1" else a
    | None => "127.0.0.1"
    end in
  match forwarded with
  | Some f =>
      if String.eqb f EmptyString then from_socket
      else trim (hd EmptyString (split "," f))
  | None => from_socket
  end.

(** A row of [rate_limit_registration]. *)
Record registration_row : Type := mk_registration_row {
  request_count : Z;
  window_start : Z;
  reg_blocked_until : option Z;
  reg_block_count : Z
}.

Definition one_day : Z := 24 * 60 * 60 * 1000.

(** The [INSERT ... ON CONFLICT (ip_address) DO UPDATE ... RETURNING]
    statement of [rate_limit_registration], on the row of one address: a
    window older than one day is started again. *)
Definition upsert_registration (now : Z) (existing : option registration_row)
  : registration_row :=
  match existing with
  | None =>
      {| request_count := 1; window_start := now;
         reg_blocked_until := None; reg_block_count := 0 |}
  | Some r =>
      if window_start r <? now - one_day then
        {| request_count := 1; window_start := now;
           reg_blocked_until := reg_blocked_until r;
           reg_block_count := reg_block_count r |}
      else
        {| request_count := request_count r + 1; window_start := window_start r;
           reg_blocked_until := reg_blocked_until r;
           reg_block_count := reg_block_count r |}
  end.

(** How the registration limiter ends: [next()], or a 429 with a body. *)
Inductive registration_outcome : Type :=
| Proceed
| Refused (body : json).

(** [rate_limit_registration(req, res, next)] on the row of the caller's
    address; [cached] is what [cache.get] returned.  As in the login
    limiter, an [undefined] duration makes the block update throw, and
    the [catch] calls [next()]. *)
Definition rate_limit_registration (now : Z) (cached : option bool)
    (existing : option registration_row)
  : registration_outcome * option registration_row :=
  let present := match existing with Some _ => true | None => false end in
  let bu := match existing with Some r => reg_blocked_until r | None => None end in
  let bc := match existing with Some r => reg_block_count r | None => 0 end in
  if is_permanently_blocked cached bu bc present then
    (Refused
       (JObject
          [("error", JString "Too many registration attempts");
           ("message",
            JString "This IP has been permanently blocked due to excessive registration attempts")]),
     existing)
  else
    let record := upsert_registration now existing in
    if is_currently_blocked now (reg_blocked_until record) then
      (Refused
         (JObject
            (("error", JString "Too many registration attempts")
             :: ("message", JString "Please try again later")
             :: match reg_blocked_until record with
                | Some t => [("retry_after", JNumber (remaining_seconds now t))]
                | None => []
                end)),
       Some record)
    else if rate_limit_config.registration.max_per_day <? request_count record then
      match get_block_duration (reg_block_count record)
              rate_limit_config.registration.block_escalation with
      | Permanent =>
          (Refused
             (JObject [("error", JString "Too many registration attempts");
                       ("message", JString "This IP has been permanently blocked");
                       ("retry_after", JNull)]),
           Some {| request_count := request_count record;
                   window_start := window_start record;
                   reg_blocked_until := None;
                   reg_block_count := reg_block_count record + 1 |})
      | Seconds d =>
          (Refused
             (JObject [("error", JString "Too many registration attempts");
                       ("message", JString "Please try again later");
                       ("retry_after", JNumber d)]),
           Some {| request_count := request_count record;
                   window_start := window_start record;
                   reg_blocked_until := Some (now + d * 1000);
                   reg_block_count := reg_block_count record + 1 |})
      | Undefined => (Proceed, Some record)
      end
    else (Proceed, Some record).

(** [cleanup_rate_limits], first statement, on one row:
    [UPDATE rate_limit_registration SET request_count = 0, window_start = NOW()
     WHERE window_start < NOW() - INTERVAL '1 day'
     AND blocked_until IS NULL OR blocked_until < NOW()];
    [AND] binds tighter than [OR]. *)
Definition cleanup_registration (now : Z) (r : registration_row) : registration_row :=
  let old_window := window_start r <? now - one_day in
  let selected :=
    match reg_blocked_until r with
    | None => old_window
    | Some t => t <? now
    end in
  if selected then
    {| request_count := 0; window_start := now;
       reg_blocked_until := reg_blocked_until r;
       reg_block_count := reg_block_count r |}
  else r.

(* ================================================================= *)
(** ** utils/crypto.js: passwords and random tokens *)

(** [hash_password(password)]; [salt] is [randomBytes(SALT_LENGTH)].  The
    result is the pair of [hash] and [salt], both in base64. *)
Definition hash_password {rt : Runtime} (salt : list ascii) (password : string)
  : string * string :=
  (string_of_list_ascii (base64_encode (scrypt password salt)),
   string_of_list_ascii (base64_encode salt)).

(** [generate_token(bytes)]; [random] is [randomBytes(bytes)]. *)
Definition generate_token (random : list ascii) : string :=
  string_of_list_ascii
    (replace_all "=" []
       (replace_all "/" ["_"%char]
          (replace_all "+" ["-"%char] (base64_encode random)))).

(* ================================================================= *)
(** ** middleware/auth.js *)

(** [req.user], as the middlewares attach it. *)
Record request_user : Type := mk_request_user {
  ru_id : string;
  ru_username : string;
  ru_email : string;
  ru_is_admin : bool;
  ru_is_verified : bool;
  ru_deleted_at : option Z
}.

(** [req.impersonation]: [{ is_impersonating: true, admin_id }], with
    [admin_id] whatever the payload holds under that name. *)
Record impersonation : Type := mk_impersonation {
  imp_admin_id : option json
}.

(** The cookies a request carries: [req.cookies?.access_token] and
    [req.cookies?.refresh_token]. *)
Record request_cookies : Type := mk_request_cookies {
  access_token_cookie : option string;
  refresh_token_cookie : option string
}.

(** How an authentication middleware ends: it answers itself, or calls
    [next()] with what it attached to the request and the cookies it
    set. *)
Inductive auth_outcome : Type :=
| Answered (r : http_response)
| Passed (user : option request_user) (acting : option impersonation)
         (cookies : list cookie).

(** [cookie || null] *)
Definition cookie_or_null (c : option string) : option string :=
  match c with
  | Some text => if String.eqb text EmptyString then None else Some text
  | None => None
  end.

(** [get_access_token(req)] and [get_refresh_token(req)] *)
Definition get_access_token (req : request_cookies) : option string :=
  cookie_or_null (access_token_cookie req).

Definition get_refresh_token (req : request_cookies) : option string :=
  cookie_or_null (refresh_token_cookie req).

(** The fields of a row of [users] that the middlewares attach. *)
Definition request_user_of (u : user_row) : request_user :=
  {| ru_id := u_id u; ru_username := u_username u; ru_email := u_email u;
     ru_is_admin := u_is_admin u; ru_is_verified := u_is_verified u;
     ru_deleted_at := deleted_at u |}.

(** [get_user_by_id(user_id)]: [user_id] is the claim [sub] as the payload
    holds it.  The column is a [UUID]: a claim that is not the text of
    one matches no row ([undefined] and [null] select nothing, anything
    else makes the query throw, which the function answers with
    [null]). *)
Definition get_user_by_id (user_id : option json) (db : database) : option user_row :=
  match user_id with
  | Some (JString text) =>
      hd_error (filter (fun u => String.eqb (u_id u) text) (users db))
  | _ => None
  end.

Section AuthMiddleware.

Context {rt : Runtime}.
Variable jwt_config : jwt_configuration.
Variable environment : string.

(** [try_refresh_token(req, res, refresh_token)]: on success the user of
    the token and the cookie with the new access token.  Everything runs
    in one [try]; what throws after the update of [last_used_at] leaves
    the update done. *)
Definition try_refresh_token (now : Z) (refresh_token : string) (db : database)
  : option (request_user * cookie) * database :=
  match verify_jwt jwt_config now (js_string refresh_token) with
  | Normal (valid payload) =>
      match get_property payload "type" with
      | Normal (Some (JString type)) =>
          if String.eqb type "refresh" then
            let hash := hash_token refresh_token in
            match select_refresh_token now hash db with
            | [] => (None, db)
            | (record, u) :: _ =>
                let db' :=
                  with_refresh_tokens
                    (update_last_used now hash (refresh_tokens db)) db in
                let identity :=
                  {| id := rt_user_id record; username := u_username u;
                     is_admin := u_is_admin u; is_verified := u_is_verified u |} in
                match
                  access_token <-
                    create_access_token jwt_config now identity no_options ;;
                  options <-
                    get_cookie_options jwt_config environment
                      (is_session_only record) ;;
                  Normal (access_cookie access_token options)
                with
                | Normal c =>
                    (Some ({| ru_id := rt_user_id record;
                              ru_username := u_username u;
                              ru_email := u_email u;
                              ru_is_admin := u_is_admin u;
                              ru_is_verified := u_is_verified u;
                              ru_deleted_at := deleted_at u |}, c), db')
                | Throw _ => (None, db')
                end
            end
          else (None, db)
      | _ => (None, db)
      end
  | _ => (None, db)
  end.

Definition unauthorized (error : string) : http_response :=
  json_response 401 (JObject [("error", JString error)]).

(** What [require_auth] and [optional_auth] attach for a verified
    payload and the row of its user. *)
Definition attach (payload : json) (u : user_row) : auth_outcome :=
  Passed (Some (request_user_of u))
         match get_property payload "is_impersonation" with
         | Normal flag =>
             if truthy flag then
               Some {| imp_admin_id :=
                         match get_property payload "admin_id" with
                         | Normal v => v
                         | Throw _ => None
                         end |}
             else None
         | Throw _ => None
         end
         [].

(** The claim [sub] of a verified payload: [result.payload.sub]. *)
Definition subject (payload : json) : option json :=
  match get_property payload "sub" with
  | Normal v => v
  | Throw _ => None
  end.

(** [require_auth(req, res, next)] *)
Definition require_auth (now : Z) (req : request_cookies) (db : database)
  : auth_outcome * database :=
  match get_access_token req with
  | None => (Answered (unauthorized "Authentication required"), db)
  | Some access_token =>
      match verify_jwt jwt_config now (js_string access_token) with
      | Normal (valid payload) =>
          match get_user_by_id (subject payload) db with
          | None => (Answered (unauthorized "User not found"), db)
          | Some u => (attach payload u, db)
          end
      | _ =>
          match get_refresh_token req with
          | Some refresh_token =>
              match try_refresh_token now refresh_token db with
              | (Some (user, c), db') => (Passed (Some user) None [c], db')
              | (None, db') =>
                  (Answered (unauthorized "Invalid or expired token"), db')
              end
          | None => (Answered (unauthorized "Invalid or expired token"), db)
          end
      end
  end.

(** [optional_auth(req, res, next)] *)
Definition optional_auth (now : Z) (req : request_cookies) (db : database)
  : auth_outcome :=
  match get_access_token req with
  | None => Passed None None []
  | Some access_token =>
      match verify_jwt jwt_config now (js_string access_token) with
      | Normal (valid payload) =>
          match get_user_by_id (subject payload) db with
          | None => Passed None None []
          | Some u => attach payload u
          end
      | _ => Passed None None []
      end
  end.

End AuthMiddleware.

(** [require_admin], [require_verified] and [block_deleted_users]: the
    answer, or [None] for [next()]. *)
Definition require_admin (user : option request_user) : option http_response :=
  match user with
  | None => Some (json_response 401 (JObject [("error", JString "Authentication required")]))
  | Some u =>
      if ru_is_admin u then None
      else Some (json_response 403 (JObject [("error", JString "Admin access required")]))
  end.

Definition require_verified (user : option request_user) : option http_response :=
  match user with
  | None => Some (json_response 401 (JObject [("error", JString "Authentication required")]))
  | Some u =>
      if ru_is_verified u then None
      else Some (json_response 403
                   (JObject [("error", JString "Email verification required");
                             ("code", JString "EMAIL_NOT_VERIFIED")]))
  end.

Definition block_deleted_users (user : option request_user) : option http_response :=
  match user with
  | Some u =>
      match ru_deleted_at u with
      | Some _ =>
          Some (json_response 403
                  (JObject [("error", JString "Account is deactivated");
                            ("code", JString "ACCOUNT_DELETED");
                            ("can_recover", JBool true)]))
      | None => None
      end
  | None => None
  end.

(* ================================================================= *)
(** ** routes/auth.js: [/logout] *)

(** [DELETE FROM refresh_tokens WHERE token_hash = $1] *)
Definition delete_refresh_token (hash : string) (table : list refresh_token_row)
  : list refresh_token_row :=
  filter (fun r => negb (String.eqb (token_hash r) hash)) table.

(** [POST /logout], after [require_auth] let the request through;
    [refresh_token] is [req.cookies?.refresh_token]. *)
Definition post_logout {rt : Runtime} (refresh_token : option string) (db : database)
  : http_response * database :=
  let db' :=
    match refresh_token with
    | Some token =>
        if String.eqb token EmptyString then db
        else with_refresh_tokens
               (delete_refresh_token (hash_token token) (refresh_tokens db)) db
    | None => db
    end in
  ({| http_status := 200;
      http_body := JObject [("message", JString "Logged out successfully")];
      set_cookies := [];
      cleared_cookies := ["access_token"; "refresh_token"] |}, db').

(* ================================================================= *)
(** ** The vocabulary of the properties *)
(** [config.bucket_size], as the query parameter [$2]. *)
Definition capacity : Q := inject_Z rate_limit_config.login.ip.bucket_size.

(** A stored row holds at most [capacity] tokens. *)
Definition within_capacity (row : option login_ip_row) : Prop :=
  match row with
  | Some r => (tokens r <= capacity)%Q
  | None => True
  end.

(** The primary-key constraint of [idempotency_keys]. *)
Definition primary_key (table : list idempotency_row) : Prop :=
  NoDup (map key table).

(** The stored responses of a tuple, expired or not. *)
Definition stored_for (t : ticket) (table : list idempotency_row)
  : list idempotency_row :=
  filter (fun r => String.eqb (key r) (t_key t)
                   && option_string_eqb (user_id r) (t_user_id t)
                   && String.eqb (endpoint r) (t_endpoint t)) table.

(** What happens between two requests of a tuple: other requests are
    served, and the expired rows are swept. *)
Inductive operation : Type :=
| Serve (h : handler) (required : bool) (now : Z) (req : request)
| Sweep (now : Z).

Definition perform (w : world) (op : operation) : world :=
  match op with
  | Serve h required now req => fst (serve h required now req w)
  | Sweep now =>
      {| idempotency_keys := cleanup_idempotency_keys now (idempotency_keys w);
         side_effects := side_effects w |}
  end.

(** An operation that leaves the stored response of tuple [t] alone until
    [expiry]: a sweep no later than [expiry], a request without a well-formed
    key or under another key, or a request of [t] itself before [expiry]. *)
Definition undisturbing (t : ticket) (expiry : Z) (op : operation) : Prop :=
  match op with
  | Sweep now => now <= expiry
  | Serve _ _ now req =>
      match idempotency_key_header req with
      | Some hdr =>
          match validate_idempotency_key hdr with
          | Valid k => k <> t_key t \/ (ticket_of k req = t /\ now < expiry)
          | Invalid _ => True
          end
      | None => True
      end
  end.

(** A response that the intercepted [res.json] stores for tuple [t]: the
    status is below 500 and the statement does not throw, the endpoint
    fitting its column and the body holding no NUL character. *)
Definition storable (t : ticket) (st : Z) (b : json) : bool :=
  (st <? 500) && (String.length (t_endpoint t) <=? 255)%nat
  && negb (json_has_nul b).

(** The key of [t] is held by no other tuple than [t]. *)
Definition key_is_own (t : ticket) (table : list idempotency_row) : Prop :=
  forall r, In r table -> key r = t_key t ->
            user_id r = t_user_id t /\ endpoint r = t_endpoint t.

(** Both lookups of a race come before either response is stored: of the
    six steps, three of each request, neither request runs all of its own
    before the other starts. *)
Definition count_steps (who : bool) (order : list bool) : nat :=
  List.length (filter (Bool.eqb who) order).

Definition racing (order : list bool) : bool :=
  (count_steps false order =? 3)%nat && (count_steps true order =? 3)%nat
  && negb (Bool.eqb (nth 0 order false) (nth 1 order false)
           && Bool.eqb (nth 1 order false) (nth 2 order false)).


(** A token with the server's signature whose payload is [payload]. *)
Definition signed_token {rt : Runtime} (config : jwt_configuration) (payload : json)
  : string :=
  let h := base64_url_encode (JSON_stringify jwt_header) in
  let p := base64_url_encode (JSON_stringify payload) in
  (h ++ "." ++ p) ++ "." ++ create_signature (h ++ "." ++ p) (secret config).

(* ================================================================= *)
(** ** A runtime to run the examples *)

(** A small instance of [Runtime], used to evaluate the definitions on
    concrete requests: a compact JSON printer and reader, and a keyed
    checksum standing in for the hash functions.  No property relies on it. *)

Definition double_quote : ascii := "034"%char.
Definition backslash : ascii := "092"%char.

Definition quoted (s : string) : string :=
  String double_quote
    (string_of_list_ascii
       (flat_map (fun c => if Ascii.eqb c double_quote || Ascii.eqb c backslash
                           then [backslash; c] else [c])
                 (list_ascii_of_string s))
     ++ String double_quote EmptyString).

Definition decimal (n : Z) : string := NilZero.string_of_int (Z.to_int n).

Fixpoint join (sep : string) (parts : list string) : string :=
  match parts with
  | [] => EmptyString
  | [x] => x
  | x :: rest => x ++ sep ++ join sep rest
  end.

Fixpoint sample_stringify (v : json) : string :=
  match v with
  | JNull => "null"
  | JBool true => "true"
  | JBool false => "false"
  | JNumber n => decimal n
  | JString s => quoted s
  | JArray items => "[" ++ join "," (map sample_stringify items) ++ "]"
  | JObject properties =>
      "{" ++ join "," (map (fun kv => quoted (fst kv) ++ ":" ++ sample_stringify (snd kv))
                           properties) ++ "}"
  end.

Fixpoint strip_prefix (prefix input : list ascii) : option (list ascii) :=
  match prefix, input with
  | [], _ => Some input
  | p :: prefix', c :: input' =>
      if Ascii.eqb p c then strip_prefix prefix' input' else None
  | _ :: _, [] => None
  end.

(** The characters of a string literal, after its opening quote. *)
Fixpoint read_string (input : list ascii) : option (list ascii * list ascii) :=
  match input with
  | [] => None
  | c :: rest =>
      if Ascii.eqb c double_quote then Some ([], rest)
      else if Ascii.eqb c backslash then
        match rest with
        | e :: rest' =>
            option_map (fun sr => (e :: fst sr, snd sr)) (read_string rest')
        | [] => None
        end
      else option_map (fun sr => (c :: fst sr, snd sr)) (read_string rest)
  end.

Fixpoint read_digits (input : list ascii) : list ascii * list ascii :=
  match input with
  | c :: rest =>
      if is_digit c then let '(ds, r) := read_digits rest in (c :: ds, r)
      else ([], input)
  | [] => ([], [])
  end.

Definition read_number (input : list ascii) : option (json * list ascii) :=
  let '(negative, digits_on) :=
    match input with
    | c :: rest => if Ascii.eqb c "-" then (true, rest) else (false, input)
    | [] => (false, input)
    end in
  match read_digits digits_on with
  | ([], _) => None
  | (ds, rest) =>
      Some (JNumber (if negative then - parse_int ds else parse_int ds), rest)
  end.

Fixpoint read_value (fuel : nat) (input : list ascii) : option (json * list ascii) :=
  match fuel with
  | O => None
  | S fuel' =>
      match input with
      | [] => None
      | c :: rest =>
          if Ascii.eqb c double_quote then
            option_map (fun sr => (JString (string_of_list_ascii (fst sr)), snd sr))
                       (read_string rest)
          else if Ascii.eqb c "[" then
            match rest with
            | d :: rest' =>
                if Ascii.eqb d "]" then Some (JArray [], rest')
                else option_map (fun ir => (JArray (fst ir), snd ir))
                                (read_items fuel' rest)
            | [] => None
            end
          else if Ascii.eqb c "{" then
            match rest with
            | d :: rest' =>
                if Ascii.eqb d "}" then Some (JObject [], rest')
                else option_map (fun mr => (JObject (fst mr), snd mr))
                                (read_members fuel' rest)
            | [] => None
            end
          else
            match strip_prefix (list_ascii_of_string "null") input with
            | Some r => Some (JNull, r)
            | None =>
            match strip_prefix (list_ascii_of_string "true") input with
            | Some r => Some (JBool true, r)
            | None =>
            match strip_prefix (list_ascii_of_string "false") input with
            | Some r => Some (JBool false, r)
            | None => read_number input
            end end end
      end
  end
with read_items (fuel : nat) (input : list ascii) : option (list json * list ascii) :=
  match fuel with
  | O => None
  | S fuel' =>
      match read_value fuel' input with
      | Some (v, c :: rest) =>
          if Ascii.eqb c "]" then Some ([v], rest)
          else if Ascii.eqb c "," then
            option_map (fun ir => (v :: fst ir, snd ir)) (read_items fuel' rest)
          else None
      | _ => None
      end
  end
with read_members (fuel : nat) (input : list ascii)
  : option (list (string * json) * list ascii) :=
  match fuel with
  | O => None
  | S fuel' =>
      match input with
      | q :: after_quote =>
          if Ascii.eqb q double_quote then
            match read_string after_quote with
            | Some (k, colon :: after_colon) =>
                if Ascii.eqb colon ":" then
                  match read_value fuel' after_colon with
                  | Some (v, c :: rest) =>
                      let member := (string_of_list_ascii k, v) in
                      if Ascii.eqb c "}" then Some ([member], rest)
                      else if Ascii.eqb c "," then
                        option_map (fun mr => (member :: fst mr, snd mr))
                                   (read_members fuel' rest)
                      else None
                  | _ => None
                  end
                else None
            | _ => None
            end
          else None
      | [] => None
      end
  end.

Definition sample_parse (text : string) : completion json :=
  match read_value (S (String.length text)) (list_ascii_of_string text) with
  | Some (v, []) => Normal v
  | _ => Throw "Unexpected token in JSON"
  end.

(** A keyed checksum of four bytes. *)
Definition checksum (text : string) : Z :=
  fold_left (fun acc c => (acc * 31 + Z.of_nat (nat_of_ascii c)) mod 4294967296)
            (list_ascii_of_string text) 7.

Definition bytes_of_checksum (n : Z) : list ascii :=
  map (fun i => ascii_of_nat (Z.to_nat ((n / 256 ^ i) mod 256))) [3; 2; 1; 0].

Definition sample_runtime : Runtime :=
  {| hmac_sha256 := fun key data =>
       string_of_list_ascii (bytes_of_checksum (checksum (key ++ "/" ++ data)));
     sha256_hex := fun token => decimal (checksum token);
     scrypt := fun password salt =>
       bytes_of_checksum (checksum (password ++ "/" ++ string_of_list_ascii salt));
     JSON_stringify := sample_stringify;
     JSON_parse := sample_parse;
     coerced_less_than := fun _ _ => Normal false;
     to_iso_string := decimal |}.

(** *** Sample data *)

Definition ada : user_row :=
  {| u_id := "7f3c"; u_username := "ada"; u_email := "ada@example.org";
     password_hash :=
       string_of_list_ascii
         (base64_encode (@scrypt sample_runtime "analytical engine 1843"
                                 (list_ascii_of_string "salt")));
     password_salt :=
       string_of_list_ascii (base64_encode (list_ascii_of_string "salt"));
     u_is_admin := false; u_is_verified := true;
     deleted_at := None; deleted_by_admin := false |}.

Definition ada_identity : user :=
  {| id := "7f3c"; username := "ada"; is_admin := false; is_verified := true |}.

Definition session (row_id token : string) (expires : Z) : refresh_token_row :=
  {| rt_id := row_id; rt_user_id := "7f3c";
     token_hash := @hash_token sample_runtime token;
     rt_expires_at := expires; is_session_only := true;
     rt_created_at := 1000; last_used_at := None;
     user_agent := Some "curl/8.0"; ip_address := Some "192.0.2.7" |}.

(** A database with one user, two sessions and [failures] consecutive
    failed logins, the last one at [last]. *)
Definition sample_database (failures : Z) (last : Z) : database :=
  {| users := [ada];
     refresh_tokens := [session "r1" "first-token" 90000000;
                        session "r2" "second-token" 90000000];
     rate_limit_login_user := fun k =>
       if String.eqb k "7f3c" then
         Some {| consecutive_failures := failures; last_failure_at := Some last;
                 blocked_until := None; block_count := 0 |}
       else None;
     password_checks := [] |}.

Definition login_attempt (name password : string) : login_request :=
  {| body_username := Some name; body_password := Some password;
     stay_logged_in := false; header_user_agent := None; req_ip := None |}.

(** A sample handler: it answers 200 with the endpoint it served and the
    number of executions before this one. *)
Definition sample_handler : handler :=
  fun effects req =>
    (200, [("endpoint", JString (endpoint_of req));
           ("executions_before", JNumber (Z.of_nat (List.length effects)))]).

(** A handler that answers as [POST /api/admin/users] does: 201 with
    [{ message: 'User created', user }]. *)
Definition create_user_handler : handler :=
  fun effects req =>
    (201, [("message", JString "User created");
           ("user", JObject [("id", JString "9a1e");
                             ("username", JString "grace");
                             ("email", JString "grace@example.org");
                             ("is_admin", JBool false);
                             ("is_verified", JBool true)])]).

Definition create_user_request : request :=
  {| idempotency_key_header := Some "create-0001";
     req_user_id := Some "7f3c";
     method := "POST";
     originalUrl := "/api/admin/users" |}.

Definition sample_request (url : string) : request :=
  {| idempotency_key_header := Some "retry-0001";
     req_user_id := Some "7f3c";
     method := "PATCH";
     originalUrl := url |}.

Definition empty_world : world := {| idempotency_keys := []; side_effects := [] |}.

(** The race of two requests for one tuple, step by step in turn: lookup,
    lookup, handler, handler, [res.json], [res.json]. *)
Definition alternating : list (bool * Z) :=
  [(false, 1000); (true, 1001); (false, 1002); (true, 1003);
   (false, 1004); (true, 1005)].

Definition sample_body (executions_before : Z) : json :=
  JObject [("endpoint", JString "PATCH:/api/admin/users/1");
           ("executions_before", JNumber executions_before)].

(* ================================================================= *)
(** ** The vocabulary of the properties of the rest of the code *)

(** No [sep] among the characters of [s]. *)
Definition free_of (sep : ascii) (s : string) : bool :=
  forallb (fun c => negb (Ascii.eqb c sep)) (list_ascii_of_string s).

(** What may follow the path in [req.originalUrl]: nothing, or [?] and a
    query string. *)
Definition query_suffix (s : string) : Prop :=
  s = EmptyString \/ exists q, s = String "?" q.

(** A handler whose dependency is down: it answers 503 with the number of
    executions before this one. *)
Definition failing_handler : handler :=
  fun effects req =>
    (503, [("error", JString "Service unavailable");
           ("executions_before", JNumber (Z.of_nat (List.length effects)))]).

(** A text that [/^(\d+)([mhd])$/] matches: [digits], one or more, then
    the unit. *)
Definition duration_text (digits : list ascii) (unit : ascii) (s : string) : Prop :=
  list_ascii_of_string s = (digits ++ [unit])%list /\ digits <> [] /\
  forallb is_digit digits = true /\
  (unit = "m"%char \/ unit = "h"%char \/ unit = "d"%char).

(** The milliseconds in one unit of duration. *)
Definition unit_milliseconds (unit : ascii) : Z :=
  if Ascii.eqb unit "m" then 60 * 1000
  else if Ascii.eqb unit "h" then 60 * 60 * 1000
  else 24 * 60 * 60 * 1000.

(** The options every authentication cookie carries: not readable by
    scripts, same-site only, for the whole site, and restricted to HTTPS
    in production; the access-token cookie lives 15 minutes. *)
Definition protected_cookie (environment : string) (c : cookie) : Prop :=
  httpOnly c = true /\ sameSite c = "strict" /\ path c = "/" /\
  secure c = String.eqb environment "PROD" /\
  (cookie_name c = "access_token" -> maxAge c = Some 900000).

(** Failed logins of one user, one after the other: the results of
    [record_login_failure], in order, and the row that is left. *)
Fixpoint record_login_failures (times : list Z) (existing : option login_user_row)
  : list failure_result * option login_user_row :=
  match times with
  | [] => ([], existing)
  | now :: later =>
      let '(result, row) := record_login_failure now existing in
      let '(results, final) := record_login_failures later (Some row) in
      (result :: results, final)
  end.

(** Each failure comes no more than 30 minutes after the one before it. *)
Fixpoint in_quick_succession (previous : option Z) (times : list Z) : Prop :=
  match times with
  | [] => True
  | now :: later =>
      match previous with
      | Some t => now - t <= thirty_minutes
      | None => True
      end /\ in_quick_succession (Some now) later
  end.

(** What the server does to the row of a user in [rate_limit_login_user]
    on its own: it records a failed login, resets the failures after a
    successful one, and sweeps the blocks that are over. *)
Inductive login_user_operation : Type :=
| RecordFailure (now : Z)
| ResetFailures
| CleanupBlock (now : Z).

Definition apply_login_user_operation (r : login_user_row)
    (op : login_user_operation) : login_user_row :=
  match op with
  | RecordFailure now => snd (record_login_failure now (Some r))
  | ResetFailures =>
      match reset_login_failures (Some r) with
      | Some r' => r'
      | None => r
      end
  | CleanupBlock now => cleanup_login_user now r
  end.

(** Login requests from one address that the server handles one after
    the other: each runs [rate_limit_login_ip] to its end (the refill,
    the decision, and the decrement or the block) before the next one
    starts, and finds no cached answer to the permanent-block check.
    The outcomes, in order, and the row that is left.  Requests that
    overlap are not described by this: the statements of two of them can
    then alternate. *)
Fixpoint login_ip_requests (times : list Z) (existing : option login_ip_row)
  : list limiter_outcome * option login_ip_row :=
  match times with
  | [] => ([], existing)
  | now :: later =>
      let '(outcome, row) := rate_limit_login_ip now None existing in
      let '(outcomes, final) := login_ip_requests later row in
      (outcome :: outcomes, final)
  end.

(** A [Map] holds each key once. *)
Definition unique_keys {V : Type} (s : MemoryCache.store V) : Prop :=
  NoDup (map fst s).

(** What the query of [is_permanently_blocked] answers for the row of an
    address. *)
Definition permanently_blocked (existing : option login_ip_row) : bool :=
  match existing with
  | Some r => permanent_row (ip_blocked_until r) (ip_block_count r)
  | None => false
  end.

(** The cache and the table agree on an address: an answer kept under the
    address's key, expired or not, is the answer of the database; and a row
    with a running block has made at most the three temporary steps of
    the escalation. *)
Definition cache_agrees (ip : string) (cache : MemoryCache.store bool)
    (existing : option login_ip_row) : Prop :=
  (forall e,
     In (permanent_cache_key "rate_limit_login_ip" ip, e) cache ->
     MemoryCache.value e = permanently_blocked existing) /\
  (forall r t, existing = Some r -> ip_blocked_until r = Some t ->
               ip_block_count r <= 3).

(** Registration requests from one address, one after the other, each
    finding no cached answer to the permanent-block check. *)
Fixpoint registration_requests (times : list Z) (existing : option registration_row)
  : list registration_outcome * option registration_row :=
  match times with
  | [] => ([], existing)
  | now :: later =>
      let '(outcome, row) := rate_limit_registration now None existing in
      let '(outcomes, final) := registration_requests later row in
      (outcome :: outcomes, final)
  end.

(** The body of the 429 that a registration over the limit receives. *)
Definition too_many_registrations (retry_after : Z) : json :=
  JObject [("error", JString "Too many registration attempts");
           ("message", JString "Please try again later");
           ("retry_after", JNumber retry_after)].

(** An access token of the sample user, issued when the table had her as
    an admin. *)
Definition former_admin_token : string :=
  Eval vm_compute in
    match @create_access_token sample_runtime default_jwt_config 1700000000123
            {| id := "7f3c"; username := "ada"; is_admin := true;
               is_verified := true |} no_options with
    | Normal token => token
    | Throw _ => EmptyString
    end.

(** The sample database with a second user, whose row comes first. *)
Definition grace : user_row :=
  {| u_id := "9a1e"; u_username := "grace"; u_email := "grace@example.org";
     password_hash := "aGFzaA=="; password_salt := "c2FsdA==";
     u_is_admin := true; u_is_verified := true;
     deleted_at := None; deleted_by_admin := false |}.

Definition two_users : database :=
  {| users := [grace; ada];
     refresh_tokens := refresh_tokens (sample_database 0 0);
     rate_limit_login_user := rate_limit_login_user (sample_database 0 0);
     password_checks := [] |}.

(** The sample database after a fifth failed login at 5000000, which
    blocks the sample user. *)
Definition locked_database : database :=
  with_rate_limit "7f3c"
    (Some (snd (record_login_failure 5000000
                  (rate_limit_login_user (sample_database 4 4900000) "7f3c"))))
    (sample_database 4 4900000).

(* ================================================================= *)
(** * Properties *)

(** ** Escalation ladder *)

Lemma array_get_in_range (escalation : list Z) (i : Z) :
  0 <= i < Z.of_nat (List.length escalation) ->
  array_get escalation i = Some (nth (Z.to_nat i) escalation 0).
Proof.
  intros [Hlo Hhi]. unfold array_get.
  destruct (i <? 0) eqn:E; [apply Z.ltb_lt in E; lia|].
  apply nth_error_nth'. lia.
Qed.

(** A negative count reads the array outside its indices. *)
Lemma get_block_duration_negative (n : Z) (ladder : list Z) :
  n < 0 -> get_block_duration n ladder = Undefined.
Proof.
  intros H. unfold get_block_duration, array_get.
  destruct (n >=? Z.of_nat (List.length ladder)) eqn:E.
  - apply Z.geb_le in E. lia.
  - apply Z.ltb_lt in H. now rewrite H.
Qed.

(** C3. For every block count [n] and every ladder, [get_block_duration]
    returns [ladder[n]] when [n] is below the length of the ladder (the
    number of seconds at that index, and [undefined] at a negative one) and
    permanent ([null]) when it is at or beyond it; the registration ladder is
    1h/1d/7d and the login-per-user ladder is 5m/15m/30m, in seconds. *)
Theorem get_block_duration_ladder (n : Z) (ladder : list Z) :
  (0 <= n < Z.of_nat (List.length ladder) ->
     get_block_duration n ladder = Seconds (nth (Z.to_nat n) ladder 0)) /\
  (n < 0 -> get_block_duration n ladder = Undefined) /\
  (Z.of_nat (List.length ladder) <= n ->
     get_block_duration n ladder = Permanent) /\
  rate_limit_config.registration.block_escalation = [3600; 86400; 604800] /\
  rate_limit_config.login.user.block_escalation = [300; 900; 1800].
Proof.
  split; [|split; [apply get_block_duration_negative|repeat split]].
  - intros H. unfold get_block_duration.
    destruct (n >=? Z.of_nat (List.length ladder)) eqn:E.
    + apply Z.geb_le in E. lia.
    + now rewrite (array_get_in_range ladder n H).
  - intros H. unfold get_block_duration.
    destruct (n >=? Z.of_nat (List.length ladder)) eqn:E; [reflexivity|].
    rewrite Z.geb_leb in E. apply Z.leb_gt in E. lia.
Qed.

Lemma get_block_duration_ladder_witness :
  get_block_duration 1 rate_limit_config.registration.block_escalation
    = Seconds 86400 /\
  get_block_duration 3 rate_limit_config.login.user.block_escalation
    = Permanent.
Proof.
  split.
  - apply (proj1 (get_block_duration_ladder 1
             rate_limit_config.registration.block_escalation)).
    simpl. lia.
  - apply (proj1 (proj2 (proj2 (get_block_duration_ladder 3
             rate_limit_config.login.user.block_escalation)))).
    simpl. lia.
Defined.

(** The escalation the two ladders give, rung by rung. *)
Example registration_escalation :
  map (fun n => get_block_duration n rate_limit_config.registration.block_escalation)
      [0; 1; 2; 3; 4]
  = [Seconds 3600; Seconds 86400; Seconds 604800; Permanent; Permanent].
Proof. reflexivity. Qed.

Example login_user_escalation :
  map (fun n => get_block_duration n rate_limit_config.login.user.block_escalation)
      [0; 1; 2; 3; 4]
  = [Seconds 300; Seconds 900; Seconds 1800; Permanent; Permanent].
Proof. reflexivity. Qed.

(** ** Token bucket *)

Lemma refill_capped (now : Z) (existing : option login_ip_row) :
  (tokens (refill_login_ip now capacity existing) <= capacity)%Q.
Proof.
  destruct existing as [r|]; simpl.
  - apply Q.le_min_l.
  - apply Qle_refl.
Qed.

Lemma consume_within (r : login_ip_row) :
  (tokens r <= capacity)%Q -> (tokens (consume_token r) <= capacity)%Q.
Proof. simpl. intros H. lra. Qed.

Lemma cleanup_within (now : Z) (r : login_ip_row) :
  (tokens r <= capacity)%Q -> (tokens (cleanup_login_ip now r) <= capacity)%Q.
Proof.
  intros H. unfold cleanup_login_ip.
  destruct (ip_blocked_until r) as [t|]; [|exact H].
  destruct (t <? now); [|exact H].
  simpl. change (5 <= 5)%Q. apply Qle_refl.
Qed.

(** The refill: the elapsed minutes times 5, added and capped at 5. *)
Lemma refill_formula (now : Z) (r : login_ip_row) :
  tokens (refill_login_ip now capacity (Some r))
  == Qmin 5 (tokens r + (inject_Z (now - last_refill r) / 60000) * 5).
Proof.
  cbn [refill_login_ip tokens]. unfold epoch_seconds.
  change capacity with 5%Q.
  assert (H : tokens r + inject_Z (now - last_refill r) / 1000 / 60 * 5
              == tokens r + inject_Z (now - last_refill r) / 60000 * 5)
    by field.
  rewrite H. reflexivity.
Qed.

(** C4. In the token-bucket limiter the refilled count never exceeds the
    capacity 5, whatever the elapsed time and the previous count: the refill
    adds the elapsed minutes times 5 and is capped at 5; the first insert
    stores 5, consuming subtracts 1, and every operation on the row (the
    middleware as a whole, and the periodic cleanup) preserves
    [tokens <= 5]. *)
Theorem token_bucket_cap (now : Z) (cached : option bool)
    (existing : option login_ip_row) :
  capacity == 5 /\
  (tokens (refill_login_ip now capacity existing) <= 5)%Q /\
  (forall r, tokens (refill_login_ip now capacity (Some r))
             == Qmin 5 (tokens r + (inject_Z (now - last_refill r) / 60000) * 5)) /\
  tokens (refill_login_ip now capacity None) = capacity /\
  (forall r, tokens (consume_token r) == tokens r - 1) /\
  (within_capacity existing ->
   within_capacity (snd (rate_limit_login_ip now cached existing))) /\
  (forall r, within_capacity (Some r) ->
             within_capacity (Some (cleanup_login_ip now r))).
Proof.
  assert (Hcap : capacity == 5) by reflexivity.
  split; [exact Hcap|].
  split; [rewrite <- Hcap; apply refill_capped|].
  split; [intros r; apply refill_formula|].
  split; [reflexivity|].
  split; [intros r; simpl; reflexivity|].
  split.
  - intros Hinv. unfold rate_limit_login_ip.
    destruct (is_permanently_blocked _ _ _ _); [exact Hinv|].
    fold capacity.
    pose proof (refill_capped now existing) as Hre.
    set (record := refill_login_ip now capacity existing) in *.
    destruct (is_currently_blocked now (ip_blocked_until record)); [exact Hre|].
    destruct (negb (Qle_bool 1 (tokens record))).
    + destruct (get_block_duration _ _); simpl; exact Hre.
    + simpl. apply consume_within. exact Hre.
  - intros r Hr. simpl in *. now apply cleanup_within.
Qed.

Lemma token_bucket_cap_witness :
  within_capacity
    (snd (rate_limit_login_ip 61000 None
            (Some {| tokens := 2; last_refill := 1000;
                     ip_blocked_until := None; ip_block_count := 0 |}))).
Proof.
  apply (proj1 (proj2 (proj2 (proj2 (proj2 (proj2
           (token_bucket_cap 61000 None
              (Some {| tokens := 2; last_refill := 1000;
                       ip_blocked_until := None; ip_block_count := 0 |})))))))).
  simpl. unfold capacity, Qle. simpl. lia.
Defined.

(** ** Counter with decay *)

(** Below the threshold [record_login_failure] leaves the row as the
    upsert wrote it and reports no block. *)
Lemma record_login_failure_below_threshold (now : Z)
    (existing : option login_user_row) :
  consecutive_failures (upsert_login_failure now existing)
    < rate_limit_config.login.user.max_consecutive_failures ->
  record_login_failure now existing
    = (not_blocked, upsert_login_failure now existing).
Proof.
  intros H. unfold record_login_failure.
  destruct (_ >=? _) eqn:E; [|reflexivity].
  apply Z.geb_le in E. lia.
Qed.

(** Whatever the outcome, the stored [last_failure_at] is the current time. *)
Lemma record_login_failure_timestamp (now : Z) (existing : option login_user_row) :
  last_failure_at (snd (record_login_failure now existing)) = Some now.
Proof.
  unfold record_login_failure.
  assert (H : last_failure_at (upsert_login_failure now existing) = Some now)
    by now destruct existing.
  destruct (_ >=? _); [|exact H].
  destruct (get_block_duration _ _); exact H.
Qed.

(** C5. Recording a failure more than 30 minutes after the previous one
    sets [consecutive_failures] to 1; recording one within 30 minutes adds 1
    to it; [last_failure_at] becomes the current time in both cases.  This
    is the row the upsert of [record_login_failure] writes and returns, and
    the row the function leaves when that count is below the threshold of
    5. *)
Theorem failure_counter_decay (now t : Z) (r : login_user_row) :
  last_failure_at r = Some t ->
  (thirty_minutes < now - t ->
     consecutive_failures (upsert_login_failure now (Some r)) = 1 /\
     consecutive_failures (snd (record_login_failure now (Some r))) = 1) /\
  (now - t <= thirty_minutes ->
     consecutive_failures (upsert_login_failure now (Some r))
       = consecutive_failures r + 1 /\
     (consecutive_failures r + 1
        < rate_limit_config.login.user.max_consecutive_failures ->
      consecutive_failures (snd (record_login_failure now (Some r)))
        = consecutive_failures r + 1)) /\
  last_failure_at (upsert_login_failure now (Some r)) = Some now /\
  last_failure_at (snd (record_login_failure now (Some r))) = Some now.
Proof.
  intros Hlast.
  assert (Hgap : thirty_minutes < now - t ->
                 consecutive_failures (upsert_login_failure now (Some r)) = 1).
  { intros H. simpl. rewrite Hlast. simpl.
    destruct (t <? now - thirty_minutes) eqn:E; [reflexivity|].
    apply Z.ltb_ge in E. lia. }
  assert (Hnear : now - t <= thirty_minutes ->
                  consecutive_failures (upsert_login_failure now (Some r))
                  = consecutive_failures r + 1).
  { intros H. simpl. rewrite Hlast. simpl.
    destruct (t <? now - thirty_minutes) eqn:E; [|reflexivity].
    apply Z.ltb_lt in E. lia. }
  split; [|split; [|split]].
  - intros H. split; [now apply Hgap|].
    rewrite record_login_failure_below_threshold; cbn [snd];
      rewrite (Hgap H); [reflexivity|].
    unfold rate_limit_config.login.user.max_consecutive_failures. lia.
  - intros H. split; [now apply Hnear|]. intros Hbelow.
    rewrite record_login_failure_below_threshold; cbn [snd];
      rewrite (Hnear H); [reflexivity|exact Hbelow].
  - reflexivity.
  - apply record_login_failure_timestamp.
Qed.

Lemma failure_counter_decay_witness :
  consecutive_failures
    (upsert_login_failure 2000000
       (Some {| consecutive_failures := 3; last_failure_at := Some 100000;
                blocked_until := None; block_count := 0 |})) = 1.
Proof.
  apply (proj1 (failure_counter_decay 2000000 100000
                  {| consecutive_failures := 3; last_failure_at := Some 100000;
                     blocked_until := None; block_count := 0 |} eq_refl)).
  unfold thirty_minutes. lia.
Defined.

(** The fifth failure in a row reaches the threshold: the count the upsert
    returns is 5, and the block that follows stores 0. *)
Example fifth_failure_blocks :
  record_login_failure 5000000
    (Some {| consecutive_failures := 4; last_failure_at := Some 4900000;
             blocked_until := None; block_count := 0 |})
  = ({| blocked := true; duration := Some 300; permanent := false |},
     {| consecutive_failures := 0; last_failure_at := Some 5000000;
        blocked_until := Some 5300000; block_count := 1 |}).
Proof. reflexivity. Qed.

(** ** Idempotency *)

Section JsonbColumn.

Lemma assoc_jsonb_insert_same (k : string) (v : json)
    (members : list (string * json)) :
  assoc k (jsonb_insert k v members) = Some v.
Proof.
  induction members as [|[k' v'] rest IH]; cbn [jsonb_insert assoc].
  - now rewrite String.eqb_refl.
  - destruct (String.eqb k' k) eqn:E; cbn [assoc].
    + now rewrite String.eqb_refl.
    + destruct (jsonb_key_before k k'); cbn [assoc].
      * now rewrite String.eqb_refl.
      * now rewrite E.
Qed.

Lemma assoc_jsonb_insert_other (k name : string) (v : json)
    (members : list (string * json)) :
  name <> k -> assoc name (jsonb_insert k v members) = assoc name members.
Proof.
  intros Hne.
  assert (Hk : String.eqb k name = false).
  { apply String.eqb_neq. congruence. }
  induction members as [|[k' v'] rest IH]; cbn [jsonb_insert assoc].
  - now rewrite Hk.
  - destruct (String.eqb k' k) eqn:E; cbn [assoc].
    + apply String.eqb_eq in E. subst k'. now rewrite Hk.
    + destruct (jsonb_key_before k k'); cbn [assoc].
      * now rewrite Hk.
      * now rewrite IH.
Qed.

Lemma assoc_absent (name : string) (properties : list (string * json)) :
  ~ In name (map fst properties) -> assoc name properties = None.
Proof.
  induction properties as [|[k v] rest IH]; cbn [assoc map fst]; [reflexivity|].
  intros Hnot. destruct (String.eqb k name) eqn:E.
  - apply String.eqb_eq in E. elim Hnot. now left.
  - apply IH. intros Hin. apply Hnot. now right.
Qed.

(** The column holds every member of an object under its name. *)
Lemma assoc_jsonb_members (name : string) (properties : list (string * json)) :
  NoDup (map fst properties) ->
  assoc name (jsonb_members properties) = assoc name properties.
Proof.
  unfold jsonb_members.
  assert (H : forall members,
            NoDup (map fst properties) ->
            assoc name
              (fold_left (fun members kv => jsonb_insert (fst kv) (snd kv) members)
                         properties members)
            = match assoc name properties with
              | Some v => Some v
              | None => assoc name members
              end).
  { induction properties as [|[k v] rest IH]; intros members Hnodup;
      [reflexivity|].
    cbn [fold_left map fst snd assoc] in *.
    inversion Hnodup as [|? ? Hnotin Hrest]; subst.
    rewrite (IH _ Hrest).
    destruct (String.eqb k name) eqn:E.
    - apply String.eqb_eq in E. subst k.
      rewrite (assoc_absent name rest Hnotin). apply assoc_jsonb_insert_same.
    - destruct (assoc name rest); [reflexivity|].
      apply assoc_jsonb_insert_other. intros ->.
      now rewrite String.eqb_refl in E. }
  intros Hnodup. rewrite (H [] Hnodup). now destruct (assoc name properties).
Qed.

Lemma assoc_filter_key (p : string -> bool) (name : string)
    (members : list (string * json)) :
  assoc name (filter (fun kv => p (fst kv)) members)
  = if p name then assoc name members else None.
Proof.
  induction members as [|[k v] rest IH]; cbn [filter assoc fst].
  - now destruct (p name).
  - destruct (String.eqb k name) eqn:E.
    + apply String.eqb_eq in E. subst k.
      destruct (p name) eqn:P; cbn [assoc].
      * now rewrite String.eqb_refl.
      * exact IH.
    + destruct (p k); cbn [assoc]; [rewrite E|]; exact IH.
Qed.

Lemma assoc_app (name : string) (l1 l2 : list (string * json)) :
  assoc name (l1 ++ l2)
  = match assoc name l1 with Some v => Some v | None => assoc name l2 end.
Proof.
  induction l1 as [|[k v] rest IH]; cbn [app assoc]; [reflexivity|].
  now destruct (String.eqb k name).
Qed.

(** Listing the array indices first changes no lookup. *)
Lemma assoc_own_property_order (name : string) (members : list (string * json)) :
  assoc name (own_property_order members) = assoc name members.
Proof.
  unfold own_property_order. rewrite assoc_app.
  rewrite (assoc_filter_key is_array_index).
  rewrite (assoc_filter_key (fun k => negb (is_array_index k))).
  destruct (is_array_index name); cbn [negb]; now destruct (assoc name members).
Qed.

Lemma assoc_map_values (f : json -> json) (name : string)
    (properties : list (string * json)) :
  assoc name (map (fun kv => (fst kv, f (snd kv))) properties)
  = option_map f (assoc name properties).
Proof.
  induction properties as [|[k v] rest IH]; cbn [map assoc fst snd];
    [reflexivity|].
  now destruct (String.eqb k name).
Qed.

(** What the column gives back for an object: an object with the same
    members, name by name, each value as the column keeps it. *)
Lemma jsonb_object_members (properties : list (string * json)) :
  exists members,
    jsonb (JObject properties) = JObject members /\
    (NoDup (map fst properties) ->
     forall name,
       assoc name members = option_map jsonb (assoc name properties)).
Proof.
  eexists. split; [reflexivity|]. intros Hnodup name.
  rewrite assoc_own_property_order, assoc_jsonb_members.
  - apply assoc_map_values.
  - rewrite map_map. cbn [fst]. exact Hnodup.
Qed.

(** The column's order, and the array indices first in the object read
    back. *)
Example jsonb_key_order :
  jsonb (JObject [("name", JString "todo"); ("b", JNumber 1); ("10", JNumber 2);
                  ("a", JNumber 3); ("2", JNumber 4); ("b", JNumber 5)])
  = JObject [("2", JNumber 4); ("10", JNumber 2); ("a", JNumber 3);
             ("b", JNumber 5); ("name", JString "todo")].
Proof. reflexivity. Qed.

End JsonbColumn.

Section IdempotencyStore.

Lemma map_key_overwrite (f : idempotency_row -> bool) (now st : Z) (b : json)
    (table : list idempotency_row) :
  map key (map (fun r => if f r then overwrite now st b r else r) table)
  = map key table.
Proof.
  induction table as [|r table IH]; simpl; [reflexivity|].
  rewrite IH. now destruct (f r).
Qed.

Lemma has_key_absent (k : string) (table : list idempotency_row) :
  existsb (has_key k) table = false -> ~ In k (map key table).
Proof.
  intros H Hin. apply in_map_iff in Hin as (r & Hk & Hr).
  assert (existsb (has_key k) table = true) as E.
  { apply existsb_exists. exists r. split; [exact Hr|].
    unfold has_key. now apply String.eqb_eq. }
  congruence.
Qed.

(** The upsert keeps the primary key. *)
Lemma insert_or_update_primary_key (now : Z) (t : ticket) (st : Z)
    (b : list (string * json)) (table table' : list idempotency_row) :
  primary_key table ->
  insert_or_update now t st b table = Normal table' ->
  primary_key table'.
Proof.
  unfold primary_key, insert_or_update. intros Hpk.
  destruct (255 <? String.length (t_endpoint t))%nat; [discriminate|].
  destruct (json_has_nul (JObject b)); [discriminate|]. cbv zeta.
  destruct (existsb (has_key (t_key t)) table) eqn:E; intros [= <-].
  - now rewrite map_key_overwrite.
  - rewrite map_app. simpl.
    apply NoDup_app; [exact Hpk|repeat constructor; intros []|].
    intros k Hin [<-|[]]. now apply (has_key_absent _ _ E).
Qed.

Lemma res_json_primary_key (now : Z) (capture : option ticket) (st : Z)
    (b : list (string * json)) (table : list idempotency_row) :
  primary_key table -> primary_key (res_json now capture st b table).
Proof.
  intros Hpk. unfold res_json.
  destruct capture as [t|]; [|exact Hpk].
  destruct (st <? 500); [|exact Hpk].
  destruct (insert_or_update now t st b table) eqn:E; [|exact Hpk].
  now apply (insert_or_update_primary_key now t st b table).
Qed.

Lemma cleanup_primary_key (now : Z) (table : list idempotency_row) :
  primary_key table -> primary_key (cleanup_idempotency_keys now table).
Proof.
  unfold primary_key, cleanup_idempotency_keys.
  induction table as [|r table IH]; simpl; intros H; [exact H|].
  inversion H as [|? ? Hnotin Hrest]; subst.
  destruct (negb (expires_at r <? now)); simpl.
  - constructor; [|now apply IH].
    intros Hin. apply Hnotin. apply in_map_iff in Hin as (r' & Hk & Hr').
    apply filter_In in Hr' as [Hr' _]. apply in_map_iff. now exists r'.
  - now apply IH.
Qed.

Lemma step_primary_key (h : handler) (required : bool) (now : Z)
    (req : request) (w : world) (p : phase) :
  primary_key (idempotency_keys w) ->
  primary_key (idempotency_keys (fst (step h required now req w p))).
Proof.
  intros Hpk. destruct p; simpl; try exact Hpk.
  - destruct (h (side_effects w) req). exact Hpk.
  - now apply res_json_primary_key.
Qed.

(** Under the primary key at most one row carries a given key. *)
Lemma at_most_one_per_key (k : string) (table : list idempotency_row) :
  primary_key table -> (List.length (filter (has_key k) table) <= 1)%nat.
Proof.
  unfold primary_key.
  induction table as [|r table IH]; simpl; intros H; [lia|].
  inversion H as [|? ? Hnotin Hrest]; subst.
  destruct (has_key k r) eqn:E; [|now apply IH].
  simpl. apply String.eqb_eq in E.
  assert (filter (has_key k) table = []) as ->; [|simpl; lia].
  destruct (filter (has_key k) table) as [|r' l] eqn:F; [reflexivity|].
  exfalso. apply Hnotin.
  assert (In r' (filter (has_key k) table)) as Hin by (rewrite F; now left).
  apply filter_In in Hin as [Hin Hk]. apply String.eqb_eq in Hk.
  apply in_map_iff. exists r'. split; [congruence|exact Hin].
Qed.

Lemma filter_length_le {A} (f g : A -> bool) (l : list A) :
  (forall x, f x = true -> g x = true) ->
  (List.length (filter f l) <= List.length (filter g l))%nat.
Proof.
  intros Hfg. induction l as [|x l IH]; simpl; [lia|].
  destruct (f x) eqn:E.
  - rewrite (Hfg x E). simpl. lia.
  - destruct (g x); simpl; lia.
Qed.

(** Hence at most one stored response per (key, endpoint, caller) tuple,
    and the lookup finds at most one row. *)
Lemma at_most_one_stored_response (t : ticket) (table : list idempotency_row) :
  primary_key table -> (List.length (stored_for t table) <= 1)%nat.
Proof.
  intros Hpk.
  apply Nat.le_trans with (List.length (filter (has_key (t_key t)) table)).
  - apply filter_length_le. intros r H.
    apply andb_prop in H as [H _]. apply andb_prop in H as [H _]. exact H.
  - now apply at_most_one_per_key.
Qed.

Lemma select_existing_at_most_one (now : Z) (t : ticket)
    (table : list idempotency_row) :
  primary_key table -> (List.length (select_existing now t table) <= 1)%nat.
Proof.
  intros Hpk.
  apply Nat.le_trans with (List.length (filter (has_key (t_key t)) table)).
  - apply filter_length_le. intros r H. unfold matches in H.
    apply andb_prop in H as [H _]. apply andb_prop in H as [H _].
    apply andb_prop in H as [H _]. exact H.
  - now apply at_most_one_per_key.
Qed.

End IdempotencyStore.

Section IdempotentReplay.

Lemma option_string_eqb_eq (a b : option string) :
  option_string_eqb a b = true <-> a = b.
Proof.
  destruct a, b; simpl; split; try congruence; try discriminate.
  - intros H. apply String.eqb_eq in H. congruence.
  - intros [= ->]. apply String.eqb_refl.
Qed.

(** With a well-formed key the middleware is the lookup. *)
Lemma idempotency_lookup (required : bool) (now : Z) (req : request)
    (hdr k : string) (table : list idempotency_row) :
  idempotency_key_header req = Some hdr ->
  validate_idempotency_key hdr = Valid k ->
  idempotency required now req table
  = match select_existing now (ticket_of k req) table with
    | cached :: _ =>
        Done {| status := response_status cached;
                body := response_body cached; replayed := true |}
    | [] => Running (Some (ticket_of k req))
    end.
Proof.
  intros Hhdr Hval. unfold idempotency. rewrite Hhdr.
  destruct (String.eqb hdr EmptyString) eqn:E.
  - apply String.eqb_eq in E. subst hdr. discriminate Hval.
  - now rewrite Hval.
Qed.

Lemma filter_filter {A} (f g : A -> bool) (l : list A) :
  (forall x, f x = true -> g x = true) -> filter f (filter g l) = filter f l.
Proof.
  intros Hfg. induction l as [|x l IH]; simpl; [reflexivity|].
  destruct (g x) eqn:G; simpl.
  - now rewrite IH.
  - destruct (f x) eqn:F; [|exact IH]. rewrite (Hfg x F) in G. discriminate.
Qed.

Lemma filter_comm {A} (f g : A -> bool) (l : list A) :
  filter f (filter g l) = filter g (filter f l).
Proof.
  induction l as [|x l IH]; simpl; [reflexivity|].
  destruct (f x) eqn:F, (g x) eqn:G; simpl; rewrite ?F, ?G, IH; reflexivity.
Qed.

Lemma matches_has_key (now : Z) (t : ticket) (r : idempotency_row) :
  matches now t r = true -> has_key (t_key t) r = true.
Proof.
  unfold matches, has_key. intros H.
  apply andb_prop in H as [H _]. apply andb_prop in H as [H _].
  now apply andb_prop in H as [H _].
Qed.

Lemma matches_stored_row (now : Z) (t : ticket) (created written st : Z) (b : json) :
  now < written + twenty_four_hours ->
  matches now t (stored_row t created written st b) = true.
Proof.
  intros H. unfold matches. cbn [stored_row key user_id endpoint expires_at].
  rewrite !String.eqb_refl.
  replace (option_string_eqb (t_user_id t) (t_user_id t)) with true
    by (symmetry; now apply option_string_eqb_eq).
  apply Z.ltb_lt in H. now rewrite H.
Qed.

(** Storing a response leaves exactly one row under the key: the response
    of the tuple, expiring 24 hours later. *)
Lemma res_json_establishes (now : Z) (t : ticket) (st : Z)
    (b : list (string * json)) (table : list idempotency_row) :
  primary_key table -> key_is_own t table ->
  (String.length (t_endpoint t) <= 255)%nat ->
  json_has_nul (JObject b) = false -> st < 500 ->
  exists created,
    filter (has_key (t_key t)) (res_json now (Some t) st b table)
    = [stored_row t created now st (jsonb (JObject b))].
Proof.
  intros Hpk Hown Hlen Hnul Hst. unfold res_json, insert_or_update.
  apply Z.ltb_lt in Hst. rewrite Hst, Hnul.
  replace (255 <? String.length (t_endpoint t))%nat with false
    by (symmetry; now apply Nat.ltb_ge).
  cbv zeta. set (column := jsonb (JObject b)). clearbody column.
  destruct (existsb (has_key (t_key t)) table) eqn:E.
  - apply existsb_exists in E as (r0 & Hin & Hk).
    exists (created_at r0).
    assert (Hone : filter (has_key (t_key t)) table = [r0]).
    { pose proof (at_most_one_per_key (t_key t) table Hpk) as Hle.
      assert (Hr0 : In r0 (filter (has_key (t_key t)) table))
        by (apply filter_In; now split).
      destruct (filter (has_key (t_key t)) table) as [|x [|y l]];
        [destruct Hr0| |simpl in Hle; lia].
      destruct Hr0 as [->|[]]. reflexivity. }
    assert (Hmap : forall l,
               filter (has_key (t_key t))
                 (map (fun r => if has_key (t_key t) r
                                then overwrite now st column r else r) l)
               = map (overwrite now st column) (filter (has_key (t_key t)) l)).
    { induction l as [|r l IH]; simpl; [reflexivity|].
      destruct (has_key (t_key t) r) eqn:Er; simpl.
      - unfold has_key at 1. simpl. fold (has_key (t_key t) r).
        rewrite Er. simpl. now rewrite IH.
      - rewrite Er. exact IH. }
    rewrite Hmap, Hone. simpl. f_equal.
    unfold has_key in Hk. apply String.eqb_eq in Hk.
    destruct (Hown r0 Hin Hk) as [Hu He].
    unfold overwrite, stored_row. now rewrite Hk, Hu, He.
  - exists now. rewrite filter_app.
    assert (filter (has_key (t_key t)) table = []) as ->.
    { clear -E. induction table as [|r table IH]; simpl in *; [reflexivity|].
      apply orb_false_elim in E as [Er E]. rewrite Er. now apply IH. }
    simpl. unfold has_key. simpl. now rewrite String.eqb_refl.
Qed.

(** Storing under another key leaves the rows of this key alone. *)
Lemma res_json_other_key (now : Z) (capture : option ticket) (st : Z)
    (b : list (string * json)) (k : string) (table : list idempotency_row) :
  (forall t', capture = Some t' -> t_key t' <> k) ->
  filter (has_key k) (res_json now capture st b table) = filter (has_key k) table.
Proof.
  intros Hother. unfold res_json.
  destruct capture as [t'|]; [|reflexivity].
  specialize (Hother t' eq_refl).
  destruct (st <? 500); [|reflexivity].
  unfold insert_or_update.
  destruct (255 <? String.length (t_endpoint t'))%nat; [reflexivity|].
  destruct (json_has_nul (JObject b)); [reflexivity|]. cbv zeta.
  set (column := jsonb (JObject b)). clearbody column.
  assert (Hne : forall r, has_key (t_key t') r = true -> has_key k r = false).
  { intros r Hr. unfold has_key in *. apply String.eqb_eq in Hr.
    apply String.eqb_neq. congruence. }
  destruct (existsb (has_key (t_key t')) table).
  - induction table as [|r table IH]; simpl; [reflexivity|].
    destruct (has_key (t_key t') r) eqn:Er.
    + unfold has_key at 1. simpl. fold (has_key k r).
      rewrite (Hne r Er). exact IH.
    + destruct (has_key k r); now rewrite IH.
  - rewrite filter_app. simpl.
    replace (has_key k _) with false; [apply app_nil_r|].
    symmetry. apply Hne. unfold has_key. simpl. apply String.eqb_refl.
Qed.

(** A lookup of the tuple finds the stored row while it has not expired. *)
Lemma select_existing_stored (now : Z) (t : ticket) (created written st : Z)
    (b : json) (table : list idempotency_row) :
  filter (has_key (t_key t)) table = [stored_row t created written st b] ->
  now < written + twenty_four_hours ->
  select_existing now t table = [stored_row t created written st b].
Proof.
  intros Hrow Hnow. unfold select_existing.
  rewrite <- (filter_filter (matches now t) (has_key (t_key t)))
    by apply matches_has_key.
  rewrite Hrow. simpl. now rewrite matches_stored_row.
Qed.

Lemma serve_done (h' : handler) (required' : bool) (now : Z) (req : request)
    (w : world) (r : response) :
  idempotency required' now req (idempotency_keys w) = Done r ->
  serve h' required' now req w = (w, Done r).
Proof. intros H. unfold serve. cbn [step]. rewrite H. reflexivity. Qed.

Lemma serve_running (h' : handler) (required' : bool) (now : Z) (req : request)
    (w : world) (capture : option ticket) :
  idempotency required' now req (idempotency_keys w) = Running capture ->
  serve h' required' now req w
  = ({| idempotency_keys :=
          res_json now capture (fst (h' (side_effects w) req))
                   (snd (h' (side_effects w) req)) (idempotency_keys w);
        side_effects := req :: side_effects w |},
     Done {| status := fst (h' (side_effects w) req);
             body := JObject (snd (h' (side_effects w) req));
             replayed := false |}).
Proof.
  intros H. unfold serve. cbn [step]. rewrite H. cbn [step].
  destruct (h' (side_effects w) req). reflexivity.
Qed.

(** A request of the tuple, while the row has not expired, is answered
    from the row; nothing changes. *)
Lemma serve_replays (h' : handler) (required' : bool) (now : Z) (req : request)
    (hdr k : string) (w : world) (created written st : Z) (b : json) :
  idempotency_key_header req = Some hdr ->
  validate_idempotency_key hdr = Valid k ->
  filter (has_key k) (idempotency_keys w)
    = [stored_row (ticket_of k req) created written st b] ->
  now < written + twenty_four_hours ->
  serve h' required' now req w
  = (w, Done {| status := st; body := b; replayed := true |}).
Proof.
  intros Hhdr Hval Hrow Hnow. apply serve_done.
  rewrite (idempotency_lookup required' now req hdr k _ Hhdr Hval).
  now rewrite (select_existing_stored now (ticket_of k req) created written st b).
Qed.

(** An undisturbing operation keeps the row. *)
Lemma perform_keeps_row (t : ticket) (created written st : Z) (b : json)
    (w : world) (op : operation) :
  undisturbing t (written + twenty_four_hours) op ->
  filter (has_key (t_key t)) (idempotency_keys w)
    = [stored_row t created written st b] ->
  filter (has_key (t_key t)) (idempotency_keys (perform w op))
    = [stored_row t created written st b].
Proof.
  intros Hop Hrow. destruct op as [h' required' now req|now]; cbn [perform].
  - cbn [undisturbing] in Hop.
    destruct (idempotency required' now req (idempotency_keys w)) as [|c|c s0 b0|r] eqn:E.
    + unfold serve. cbn [step]. rewrite E. cbn [step]. rewrite E. cbn [step].
      now rewrite E.
    + rewrite (serve_running h' required' now req w c E). cbn [fst idempotency_keys].
      rewrite res_json_other_key; [exact Hrow|].
      intros t' ->. unfold idempotency in E.
      destruct (idempotency_key_header req) as [hdr|];
        [|destruct required'; discriminate E].
      destruct (String.eqb hdr EmptyString);
        [destruct required'; discriminate E|].
      destruct (validate_idempotency_key hdr) as [k'|]; [|discriminate E].
      destruct (select_existing now (ticket_of k' req) (idempotency_keys w)) eqn:S;
        [|discriminate E].
      injection E as <-. cbn [ticket_of t_key].
      destruct Hop as [Hne|[Ht Hnow]]; [exact Hne|].
      exfalso. subst t. cbn [ticket_of t_key] in Hrow.
      rewrite (select_existing_stored now (ticket_of k' req) created written st b)
        in S by assumption.
      discriminate S.
    + exfalso. unfold idempotency in E.
      destruct (idempotency_key_header req) as [hdr|];
        [|destruct required'; discriminate E].
      destruct (String.eqb hdr EmptyString);
        [destruct required'; discriminate E|].
      destruct (validate_idempotency_key hdr); [|discriminate E].
      destruct (select_existing _ _ _); discriminate E.
    + now rewrite (serve_done h' required' now req w r E).
  - cbn [idempotency_keys]. unfold cleanup_idempotency_keys.
    rewrite filter_comm, Hrow. simpl in *.
    replace (written + twenty_four_hours <? now) with false; [reflexivity|].
    symmetry. apply Z.ltb_ge. exact Hop.
Qed.

Lemma perform_primary_key (w : world) (op : operation) :
  primary_key (idempotency_keys w) ->
  primary_key (idempotency_keys (perform w op)).
Proof.
  intros Hpk. destruct op as [h' required' now req|now]; cbn [perform].
  - unfold serve.
    destruct (step h' required' now req w Arrived) as [w1 p1] eqn:E1.
    destruct (step h' required' now req w1 p1) as [w2 p2] eqn:E2.
    apply step_primary_key.
    replace w2 with (fst (step h' required' now req w1 p1)) by now rewrite E2.
    apply step_primary_key.
    replace w1 with (fst (step h' required' now req w Arrived)) by now rewrite E1.
    now apply step_primary_key.
  - now apply cleanup_primary_key.
Qed.

Lemma fold_perform_keeps (t : ticket) (created written st : Z) (b : json)
    (ops : list operation) (w : world) :
  Forall (undisturbing t (written + twenty_four_hours)) ops ->
  primary_key (idempotency_keys w) ->
  filter (has_key (t_key t)) (idempotency_keys w)
    = [stored_row t created written st b] ->
  primary_key (idempotency_keys (fold_left perform ops w)) /\
  filter (has_key (t_key t)) (idempotency_keys (fold_left perform ops w))
    = [stored_row t created written st b].
Proof.
  intros Hops. revert w. induction Hops as [|op ops Hop _ IH]; intros w Hpk Hrow.
  - now split.
  - cbn [fold_left]. apply IH.
    + now apply perform_primary_key.
    + now apply perform_keeps_row.
Qed.

(** C1, as the code has it.  The table holds at most one stored response
    per (key, endpoint, caller) tuple at any time.  Take a request whose
    lookup misses and whose response can be stored: the status is below
    500, method and path together have at most 255 characters, the body
    holds no NUL character; and let the key be held by no row of another
    endpoint or caller.  The request runs the handler once and stores the
    answer.  After any number of operations that do not use the key for
    another tuple (requests under other keys, requests of the same tuple,
    sweeps of expired rows), the same request made again less than 24 hours
    after the first is answered from the row, marked as replayed: the
    handler does not run again and nothing is written.  The answer has
    the status of the first and, for body, what the [JSONB] column gives
    back for the body of the first: an object with the same members, name
    by name, in the order of the column and not of the first response. *)
Theorem idempotent_replay (h : handler) (required : bool) (now1 now2 : Z)
    (req : request) (hdr k : string) (w : world) (st : Z)
    (b : list (string * json)) (between : list operation) :
  idempotency_key_header req = Some hdr ->
  validate_idempotency_key hdr = Valid k ->
  (String.length (endpoint_of req) <= 255)%nat ->
  json_has_nul (JObject b) = false ->
  primary_key (idempotency_keys w) ->
  key_is_own (ticket_of k req) (idempotency_keys w) ->
  select_existing now1 (ticket_of k req) (idempotency_keys w) = [] ->
  h (side_effects w) req = (st, b) ->
  st < 500 ->
  Forall (undisturbing (ticket_of k req) (now1 + twenty_four_hours)) between ->
  now2 < now1 + twenty_four_hours ->
  let w1 := fst (serve h required now1 req w) in
  let w2 := fold_left perform between w1 in
  (List.length (stored_for (ticket_of k req) (idempotency_keys w)) <= 1)%nat /\
  (List.length (stored_for (ticket_of k req) (idempotency_keys w1)) <= 1)%nat /\
  (List.length (stored_for (ticket_of k req) (idempotency_keys w2)) <= 1)%nat /\
  serve h required now1 req w
    = (w1, Done {| status := st; body := JObject b; replayed := false |}) /\
  side_effects w1 = req :: side_effects w /\
  exists members,
    serve h required now2 req w2
      = (w2, Done {| status := st; body := JObject members; replayed := true |}) /\
    JObject members = jsonb (JObject b) /\
    (NoDup (map fst b) ->
     forall name, assoc name members = option_map jsonb (assoc name b)).
Proof.
  intros Hhdr Hval Hlen Hnul Hpk Hown Hmiss Hh Hst Hbetween Hnow.
  set (t := ticket_of k req) in *.
  assert (Hfirst : serve h required now1 req w
            = ({| idempotency_keys :=
                    res_json now1 (Some t) st b (idempotency_keys w);
                  side_effects := req :: side_effects w |},
               Done {| status := st; body := JObject b; replayed := false |})).
  { rewrite (serve_running h required now1 req w (Some t)), Hh; [reflexivity|].
    rewrite (idempotency_lookup required now1 req hdr k _ Hhdr Hval). fold t.
    now rewrite Hmiss. }
  intros w1 w2. subst w2 w1. rewrite Hfirst. cbn [fst].
  destruct (res_json_establishes now1 t st b (idempotency_keys w)
              Hpk Hown Hlen Hnul Hst) as [created Hrow].
  pose proof (res_json_primary_key now1 (Some t) st b _ Hpk) as Hpk1.
  destruct (fold_perform_keeps t created now1 st (jsonb (JObject b)) between
              {| idempotency_keys :=
                   res_json now1 (Some t) st b (idempotency_keys w);
                 side_effects := req :: side_effects w |}
              Hbetween Hpk1 Hrow) as [Hpk2 Hrow2].
  split; [now apply at_most_one_stored_response|].
  split; [now apply at_most_one_stored_response|].
  split; [now apply at_most_one_stored_response|].
  split; [reflexivity|]. split; [reflexivity|].
  destruct (jsonb_object_members b) as (members & Hmembers & Hsame).
  exists members. rewrite <- Hmembers. split; [|split; [reflexivity|exact Hsame]].
  exact (serve_replays h required now2 req hdr k _ created now1 st
           (jsonb (JObject b)) Hhdr Hval Hrow2 Hnow).
Qed.

End IdempotentReplay.

Lemma idempotent_replay_witness :
  let a := create_user_request in
  let w1 := fst (serve create_user_handler true 1000 a empty_world) in
  let w2 := fold_left perform [Sweep 5000] w1 in
  serve create_user_handler true 1000 a empty_world
    = (w1, Done {| status := 201;
                   body := JObject
                     [("message", JString "User created");
                      ("user", JObject [("id", JString "9a1e");
                                        ("username", JString "grace");
                                        ("email", JString "grace@example.org");
                                        ("is_admin", JBool false);
                                        ("is_verified", JBool true)])];
                   replayed := false |}) /\
  serve create_user_handler true 80000000 a w2
    = (w2, Done {| status := 201;
                   body := JObject
                     [("user", JObject [("id", JString "9a1e");
                                        ("email", JString "grace@example.org");
                                        ("is_admin", JBool false);
                                        ("username", JString "grace");
                                        ("is_verified", JBool true)]);
                      ("message", JString "User created")];
                   replayed := true |}).
Proof.
  intros a w1 w2.
  destruct (idempotent_replay create_user_handler true 1000 80000000 a
              "create-0001" "create-0001" empty_world 201
              (snd (create_user_handler [] a)) [Sweep 5000])
    as (_ & _ & _ & Hfirst & _ & members & Hsecond & Hmembers & _).
  - reflexivity.
  - reflexivity.
  - vm_compute. lia.
  - reflexivity.
  - constructor.
  - intros r [].
  - reflexivity.
  - reflexivity.
  - lia.
  - repeat constructor. simpl. unfold twenty_four_hours. lia.
  - unfold twenty_four_hours. lia.
  - split; [exact Hfirst|]. fold w1 w2 in Hsecond. rewrite Hsecond.
    rewrite Hmembers. reflexivity.
Defined.

(** C1, where it fails by design.  The body is kept in a [JSONB] column,
    which holds the value and not the text: the retry of a request
    answered by [POST /api/admin/users] receives the members of the first
    body in the order of the column ([user] before [message], and the
    user's [email] before its [username]), so that the two responses are
    not the same byte for byte.  And a response with a status of 500 or
    more is left out by the guard [res.statusCode < 500]: the retry runs
    the handler a second time. *)
Theorem replay_is_not_byte_for_byte :
  let a := create_user_request in
  let '(w1, p1) := serve create_user_handler true 1000 a empty_world in
  let '(w2, p2) := serve create_user_handler true 2000 a w1 in
  let '(w3, p3) := serve failing_handler true 1000 a empty_world in
  let '(w4, p4) := serve failing_handler true 2000 a w3 in
  (exists r1 r2,
     p1 = Done r1 /\ p2 = Done r2 /\
     replayed r1 = false /\ replayed r2 = true /\
     side_effects w2 = [a] /\
     body r2 = JObject
                 [("user", JObject [("id", JString "9a1e");
                                    ("email", JString "grace@example.org");
                                    ("is_admin", JBool false);
                                    ("username", JString "grace");
                                    ("is_verified", JBool true)]);
                  ("message", JString "User created")] /\
     body r1 <> body r2 /\
     @JSON_stringify sample_runtime (body r1)
       <> @JSON_stringify sample_runtime (body r2)) /\
  p4 = Done {| status := 503;
               body := JObject [("error", JString "Service unavailable");
                                ("executions_before", JNumber 1)];
               replayed := false |} /\
  side_effects w4 = [a; a].
Proof.
  vm_compute. split; [|split; reflexivity].
  do 2 eexists. repeat split; try reflexivity; intros H; discriminate H.
Qed.

(** The key alone is the primary key.  One key used for two endpoints by
    the same caller:
    the second endpoint's answer overwrites the row of the first
    ([ON CONFLICT (key) DO UPDATE] keeps the row's endpoint), so the retry of
    the first request is answered with the second request's response, and the
    retry of the second request finds no row of its own and runs the handler
    again. *)
Theorem replay_key_collision :
  let a := sample_request "/api/admin/users/1" in
  let b := sample_request "/api/admin/users/2" in
  let '(w1, p1) := serve sample_handler true 1000 a empty_world in
  let '(w2, p2) := serve sample_handler true 2000 b w1 in
  let '(w3, p3) := serve sample_handler true 3000 a w2 in
  let '(w4, p4) := serve sample_handler true 4000 b w3 in
  p1 = Done {| status := 200;
               body := JObject [("endpoint", JString "PATCH:/api/admin/users/1");
                                ("executions_before", JNumber 0)];
               replayed := false |} /\
  p2 = Done {| status := 200;
               body := JObject [("endpoint", JString "PATCH:/api/admin/users/2");
                                ("executions_before", JNumber 1)];
               replayed := false |} /\
  p3 = Done {| status := 200;
               body := JObject [("endpoint", JString "PATCH:/api/admin/users/2");
                                ("executions_before", JNumber 1)];
               replayed := true |} /\
  p4 = Done {| status := 200;
               body := JObject [("endpoint", JString "PATCH:/api/admin/users/2");
                                ("executions_before", JNumber 2)];
               replayed := false |} /\
  side_effects w4 = [b; b; a] /\
  List.length (idempotency_keys w4) = 1%nat.
Proof. vm_compute. repeat split. Qed.

Section IdempotencyRace.

Variable h : handler.
Variable required : bool.
Variables req1 req2 : request.
Variables hdr1 hdr2 k : string.
Variable w : world.

Hypothesis header1 : idempotency_key_header req1 = Some hdr1.
Hypothesis header2 : idempotency_key_header req2 = Some hdr2.
Hypothesis valid1 : validate_idempotency_key hdr1 = Valid k.
Hypothesis valid2 : validate_idempotency_key hdr2 = Valid k.
Hypothesis same_tuple : ticket_of k req2 = ticket_of k req1.
Hypothesis unique_keys : primary_key (idempotency_keys w).

Let t := ticket_of k req1.

(** The insert is never rejected for a conflict: whatever the table
    holds, a response that can be stored is stored. *)
Lemma insert_or_update_succeeds (now st : Z) (b : list (string * json))
    (table : list idempotency_row) :
  storable t st (JObject b) = true ->
  exists table', insert_or_update now t st b table = Normal table'.
Proof.
  unfold storable, insert_or_update. intros H.
  apply andb_prop in H as [H Hnul]. apply andb_prop in H as [_ Hlen].
  apply Nat.leb_le in Hlen. apply negb_true_iff in Hnul.
  replace (255 <? String.length (t_endpoint t))%nat with false
    by (symmetry; apply Nat.ltb_ge; exact Hlen).
  rewrite Hnul. cbv zeta.
  destruct (existsb (has_key (t_key t)) table); eexists; reflexivity.
Qed.

Lemma filter_overwrite (now st : Z) (column : json) (key' : string)
    (table : list idempotency_row) :
  filter (has_key key')
    (map (fun r => if has_key key' r then overwrite now st column r else r) table)
  = map (overwrite now st column) (filter (has_key key') table).
Proof.
  induction table as [|r table IH]; cbn [map filter]; [reflexivity|].
  destruct (has_key key' r) eqn:Er.
  - assert (has_key key' (overwrite now st column r) = true) as -> by exact Er.
    cbn [map]. now rewrite IH.
  - rewrite Er. exact IH.
Qed.

Lemma filter_absent (key' : string) (table : list idempotency_row) :
  existsb (has_key key') table = false -> filter (has_key key') table = [].
Proof.
  induction table as [|r table IH]; cbn [existsb filter]; [reflexivity|].
  intros E. apply orb_false_elim in E as [Er E]. rewrite Er. now apply IH.
Qed.

(** One call of the intercepted [res.json]: a response that can be
    stored leaves exactly one row under the key, with its status and
    body; any other leaves the table as it was. *)
Lemma res_json_stores (now st : Z) (b : list (string * json))
    (table : list idempotency_row) :
  primary_key table ->
  if storable t st (JObject b) then
    exists row,
      filter (has_key k) (res_json now (Some t) st b table) = [row] /\
      response_status row = st /\ response_body row = jsonb (JObject b)
  else res_json now (Some t) st b table = table.
Proof.
  intros Hpk. unfold storable, res_json, insert_or_update.
  destruct (st <? 500); cbn [andb]; [|reflexivity].
  destruct (Nat.leb_spec (String.length (t_endpoint t)) 255) as [Hlen|Hlen];
    cbn [andb].
  2:{ replace (255 <? String.length (t_endpoint t))%nat with true
        by (symmetry; now apply Nat.ltb_lt).
      reflexivity. }
  replace (255 <? String.length (t_endpoint t))%nat with false
    by (symmetry; now apply Nat.ltb_ge).
  destruct (json_has_nul (JObject b)); cbn [negb]; [reflexivity|].
  cbv zeta. set (column := jsonb (JObject b)). clearbody column.
  change (t_key t) with k.
  destruct (existsb (has_key k) table) eqn:E.
  - rewrite filter_overwrite.
    apply existsb_exists in E as (r0 & Hin & Hk).
    pose proof (at_most_one_per_key k table Hpk) as Hle.
    assert (Hr0 : In r0 (filter (has_key k) table))
      by (apply filter_In; now split).
    destruct (filter (has_key k) table) as [|x [|y l]];
      [destruct Hr0| |simpl in Hle; lia].
    eexists. split; [reflexivity|]. now split.
  - rewrite filter_app, (filter_absent k table E). cbn [filter app].
    unfold has_key at 1. cbn [key t ticket_of t_key].
    rewrite String.eqb_refl.
    eexists. split; [reflexivity|]. now split.
Qed.

(** Two calls in a row: the row carries the later response that could be
    stored. *)
Lemma res_json_twice (now now' st st' : Z) (b b' : list (string * json)) :
  let rows :=
    filter (has_key k)
      (res_json now' (Some t) st' b'
         (res_json now (Some t) st b (idempotency_keys w))) in
  if storable t st' (JObject b') then
    exists row, rows = [row] /\
                response_status row = st' /\ response_body row = jsonb (JObject b')
  else if storable t st (JObject b) then
    exists row, rows = [row] /\
                response_status row = st /\ response_body row = jsonb (JObject b)
  else rows = filter (has_key k) (idempotency_keys w).
Proof.
  cbv zeta.
  pose proof (res_json_primary_key now (Some t) st b _ unique_keys) as Hpk1.
  pose proof (res_json_stores now' st' b' _ Hpk1) as Hsecond.
  destruct (storable t st' (JObject b')); [exact Hsecond|].
  rewrite Hsecond.
  pose proof (res_json_stores now st b _ unique_keys) as Hfirst.
  destruct (storable t st (JObject b)); [exact Hfirst|].
  now rewrite Hfirst.
Qed.

Lemma step_running (now : Z) (req : request) (w' : world)
    (capture : option ticket) :
  step h required now req w' (Running capture)
  = ({| idempotency_keys := idempotency_keys w';
        side_effects := req :: side_effects w' |},
     Responding capture (fst (h (side_effects w') req))
                        (snd (h (side_effects w') req))).
Proof. simpl. now destruct (h (side_effects w') req). Qed.

Lemma step_arrived1 (now : Z) (w' : world) :
  select_existing now t (idempotency_keys w') = [] ->
  step h required now req1 w' Arrived = (w', Running (Some t)).
Proof.
  intros H. cbn [step].
  rewrite (idempotency_lookup required now req1 hdr1 k _ header1 valid1).
  fold t. now rewrite H.
Qed.

Lemma step_arrived2 (now : Z) (w' : world) :
  select_existing now t (idempotency_keys w') = [] ->
  step h required now req2 w' Arrived = (w', Running (Some t)).
Proof.
  intros H. cbn [step].
  rewrite (idempotency_lookup required now req2 hdr2 k _ header2 valid2).
  rewrite same_tuple. fold t. now rewrite H.
Qed.

Lemma step_responding (now : Z) (req : request) (w' : world)
    (capture : option ticket) (st : Z) (b : list (string * json)) :
  step h required now req w' (Responding capture st b)
  = ({| idempotency_keys := res_json now capture st b (idempotency_keys w');
        side_effects := side_effects w' |},
     Done {| status := st; body := JObject b; replayed := false |}).
Proof. reflexivity. Qed.

Lemma count_steps_length (order : list bool) :
  (count_steps false order + count_steps true order)%nat = List.length order.
Proof.
  unfold count_steps. induction order as [|[] order IH]; simpl; lia.
Qed.

Lemma racing_six (order : list bool) :
  racing order = true -> List.length order = 6%nat.
Proof.
  unfold racing. intros H.
  apply andb_prop in H as [H _]. apply andb_prop in H as [Hf Ht].
  apply Nat.eqb_eq in Hf, Ht. rewrite <- count_steps_length. lia.
Qed.

Lemma run_cons (who : bool) (now : Z) (rest : list (bool * Z)) (s : race) :
  run h required req1 req2 ((who, now) :: rest) s
  = run h required req1 req2 rest (race_step h required req1 req2 who now s).
Proof. reflexivity. Qed.

Ltac race_step_tac miss :=
  rewrite run_cons; unfold race_step; cbn [shared first second];
  first [ rewrite step_arrived1 by (apply miss; simpl; tauto)
        | rewrite step_arrived2 by (apply miss; simpl; tauto)
        | rewrite step_running
        | rewrite step_responding ];
  cbv beta iota; cbn [idempotency_keys side_effects].

(** C2, as the code has it.  When two requests with the same tuple race,
    both lookups coming before either response is stored and both missing,
    both requests run the handler and neither is answered as a replay.
    No insert is rejected for the conflict: whatever the table holds, a
    response that can be stored (status below 500, method and path
    together at most 255 characters, no NUL character in the body) is
    stored, the later one as an update that replaces the stored status
    and body.  The table ends with exactly one row under the key,
    carrying the status and the body, as the column keeps it, of the
    response written last; of the one written before it when the last
    cannot be stored; and with the rows it had under the key when
    neither can. *)
Theorem race_last_writer_wins (schedule : list (bool * Z)) :
  racing (map fst schedule) = true ->
  (forall now, In now (map snd schedule) ->
               select_existing now t (idempotency_keys w) = []) ->
  let s := run h required req1 req2 schedule
             {| shared := w; first := Arrived; second := Arrived |} in
  exists r1 r2,
    first s = Done r1 /\ second s = Done r2 /\
    replayed r1 = false /\ replayed r2 = false /\
    List.length (side_effects (shared s))
      = (2 + List.length (side_effects w))%nat /\
    (forall now st b table,
        storable t st (JObject b) = true ->
        exists table', insert_or_update now t st b table = Normal table') /\
    let last_writer := if last (map fst schedule) false then r2 else r1 in
    let other := if last (map fst schedule) false then r1 else r2 in
    let rows := filter (has_key k) (idempotency_keys (shared s)) in
    if storable t (status last_writer) (body last_writer) then
      exists row, rows = [row] /\
                  response_status row = status last_writer /\
                  response_body row = jsonb (body last_writer)
    else if storable t (status other) (body other) then
      exists row, rows = [row] /\
                  response_status row = status other /\
                  response_body row = jsonb (body other)
    else rows = filter (has_key k) (idempotency_keys w).
Proof.
  intros Hrace Hmiss. pose proof (racing_six _ Hrace) as Hlen.
  rewrite length_map in Hlen.
  destruct schedule as [|[o1 n1] [|[o2 n2] [|[o3 n3] [|[o4 n4] [|[o5 n5]
    [|[o6 n6] [|? ?]]]]]]]; try discriminate Hlen.
  clear Hlen. cbn [map fst] in Hrace.
  destruct o1, o2, o3, o4, o5, o6; try discriminate Hrace; clear Hrace.
  all: cbv zeta; do 6 (race_step_tac Hmiss); cbn [run].
  all: do 2 eexists; cbn [first second shared side_effects idempotency_keys].
  all: split; [reflexivity|]; split; [reflexivity|].
  all: split; [reflexivity|]; split; [reflexivity|].
  all: split; [reflexivity|]; split; [exact insert_or_update_succeeds|].
  all: cbn [map fst last status body].
  all: match goal with
       | |- context [res_json ?n' _ ?s' ?b' (res_json ?n _ ?s ?b _)] =>
           exact (res_json_twice n n' s s' b b')
       end.
Qed.

End IdempotencyRace.

(** ** Base64 *)

Section Base64.

Lemma sextets_of_bits_spec (n : nat) (bits : list bool) :
  (List.length bits <= n)%nat ->
  Forall (fun s => List.length s = 6%nat) (sextets_of_bits bits) /\
  exists zeros, List.concat (sextets_of_bits bits) = (bits ++ zeros)%list
                /\ (List.length zeros < 6)%nat.
Proof.
  revert bits. induction n as [|n IH]; intros bits Hlen.
  - destruct bits; [|simpl in Hlen; lia].
    split; [constructor|]. exists []. split; [reflexivity|simpl; lia].
  - destruct bits as [|b5 [|b4 [|b3 [|b2 [|b1 [|b0 rest]]]]]].
    + split; [constructor|]. exists []. split; [reflexivity|simpl; lia].
    + split; [repeat constructor|].
      exists [false; false; false; false; false]. split; [reflexivity|simpl; lia].
    + split; [repeat constructor|].
      exists [false; false; false; false]. split; [reflexivity|simpl; lia].
    + split; [repeat constructor|].
      exists [false; false; false]. split; [reflexivity|simpl; lia].
    + split; [repeat constructor|].
      exists [false; false]. split; [reflexivity|simpl; lia].
    + split; [repeat constructor|].
      exists [false]. split; [reflexivity|simpl; lia].
    + destruct (IH rest) as (Hall & zeros & Hcat & Hz); [simpl in Hlen; lia|].
      split; [constructor; [reflexivity|exact Hall]|].
      exists zeros. split; [|exact Hz].
      change (sextets_of_bits (b5 :: b4 :: b3 :: b2 :: b1 :: b0 :: rest))
        with ([b5; b4; b3; b2; b1; b0] :: sextets_of_bits rest).
      simpl. now rewrite Hcat.
Qed.

Lemma bytes_of_bits_of_bytes (bytes : list ascii) (zeros : list bool) :
  (List.length zeros < 8)%nat ->
  bytes_of_bits (flat_map bits_of_byte bytes ++ zeros) = bytes.
Proof.
  intros Hz. induction bytes as [|[b0 b1 b2 b3 b4 b5 b6 b7] bytes IH].
  - simpl.
    destruct zeros as [|? [|? [|? [|? [|? [|? [|? [|? ?]]]]]]]];
      try reflexivity. simpl in Hz. lia.
  - simpl. now rewrite IH.
Qed.

(** A character the encoder writes for a group of six bits is read back
    as that group, and is none of [=], [-], [_], [.]. *)
Lemma sextet_of_char_of_sextet (s : list bool) :
  List.length s = 6%nat ->
  sextet_of_char (char_of_sextet s) = Some s /\
  Ascii.eqb (char_of_sextet s) "=" = false /\
  Ascii.eqb (char_of_sextet s) "-" = false /\
  Ascii.eqb (char_of_sextet s) "_" = false /\
  Ascii.eqb (char_of_sextet s) "." = false.
Proof.
  intros H.
  destruct s as [|b5 [|b4 [|b3 [|b2 [|b1 [|b0 [|? ?]]]]]]]; try discriminate H.
  destruct b5, b4, b3, b2, b1, b0; vm_compute; repeat split.
Qed.

Lemma sextets_of_chars_padding (k : nat) :
  sextets_of_chars (repeat "="%char k) = [].
Proof. destruct k; reflexivity. Qed.

Lemma sextets_of_chars_of_sextets (sextets : list (list bool)) (k : nat) :
  Forall (fun s => List.length s = 6%nat) sextets ->
  sextets_of_chars (map char_of_sextet sextets ++ repeat "="%char k) = sextets.
Proof.
  induction 1 as [|s sextets Hs _ IH]; simpl.
  - apply sextets_of_chars_padding.
  - destruct (sextet_of_char_of_sextet s Hs) as (Hback & Heq & _).
    now rewrite Heq, Hback, IH.
Qed.

(** Decoding an encoding, whatever the padding that follows it. *)
Lemma base64_decode_body (bytes : list ascii) (k : nat) :
  base64_decode
    (map char_of_sextet (sextets_of_bits (flat_map bits_of_byte bytes))
     ++ repeat "="%char k)
  = bytes.
Proof.
  unfold base64_decode.
  destruct (sextets_of_bits_spec _ (flat_map bits_of_byte bytes) (le_n _))
    as (Hall & zeros & Hcat & Hz).
  rewrite sextets_of_chars_of_sextets by exact Hall.
  rewrite Hcat. apply bytes_of_bits_of_bytes. lia.
Qed.

Theorem base64_round_trip (bytes : list ascii) :
  base64_decode (base64_encode bytes) = bytes.
Proof. apply base64_decode_body. Qed.

End Base64.

Section Base64Url.

(** The character [base64_url_encode] writes for a group of six bits. *)
Let url_char (s : list bool) : ascii :=
  let c := char_of_sextet s in
  let c := if Ascii.eqb c "+" then "-"%char else c in
  if Ascii.eqb c "/" then "_"%char else c.

Lemma url_char_spec (s : list bool) :
  List.length s = 6%nat ->
  Ascii.eqb (url_char s) "=" = false /\
  Ascii.eqb (url_char s) "." = false /\
  (let c := url_char s in
   let c := if Ascii.eqb c "-" then "+"%char else c in
   if Ascii.eqb c "_" then "/"%char else c) = char_of_sextet s.
Proof.
  intros H.
  destruct s as [|b5 [|b4 [|b3 [|b2 [|b1 [|b0 [|? ?]]]]]]]; try discriminate H.
  destruct b5, b4, b3, b2, b1, b0; vm_compute; repeat split.
Qed.

Lemma replace_all_one (c d : ascii) (l : list ascii) :
  replace_all c [d] l = map (fun x => if Ascii.eqb x c then d else x) l.
Proof.
  unfold replace_all. induction l as [|x l IH]; simpl; [reflexivity|].
  rewrite IH. now destruct (Ascii.eqb x c).
Qed.

Lemma replace_all_none (c : ascii) (l : list ascii) :
  replace_all c [] l = filter (fun x => negb (Ascii.eqb x c)) l.
Proof.
  unfold replace_all. induction l as [|x l IH]; simpl; [reflexivity|].
  rewrite IH. now destruct (Ascii.eqb x c).
Qed.

Lemma replace_body (sextets : list (list bool)) (k : nat) :
  Forall (fun s => List.length s = 6%nat) sextets ->
  replace_all "=" []
    (replace_all "/" ["_"%char]
       (replace_all "+" ["-"%char]
          (map char_of_sextet sextets ++ repeat "="%char k)))
  = map url_char sextets.
Proof.
  intros Hall. rewrite !replace_all_one, replace_all_none, !map_app, filter_app.
  assert (Hpad : filter (fun x => negb (Ascii.eqb x "="))
                   (map (fun x => if Ascii.eqb x "/" then "_"%char else x)
                      (map (fun x => if Ascii.eqb x "+" then "-"%char else x)
                         (repeat "="%char k))) = []).
  { induction k as [|k IH]; [reflexivity|exact IH]. }
  rewrite Hpad, app_nil_r, map_map, map_map.
  induction Hall as [|s sextets Hs _ IH]; [reflexivity|].
  cbn [map filter]. destruct (url_char_spec s Hs) as (Heq & _ & _).
  unfold url_char in Heq. cbv zeta in Heq. rewrite Heq. cbn [negb].
  now rewrite IH.
Qed.

Lemma base64_url_encode_chars (input : string) :
  list_ascii_of_string (base64_url_encode input)
  = map url_char
      (sextets_of_bits (flat_map bits_of_byte (list_ascii_of_string input))).
Proof.
  unfold base64_url_encode, base64_encode, base64_padding.
  rewrite list_ascii_of_string_of_list_ascii.
  apply replace_body.
  apply (sextets_of_bits_spec _ _ (le_n _)).
Qed.

Lemma restore_body (sextets : list (list bool)) :
  Forall (fun s => List.length s = 6%nat) sextets ->
  replace_all "_" ["/"%char]
    (replace_all "-" ["+"%char] (map url_char sextets))
  = map char_of_sextet sextets.
Proof.
  intros Hall. rewrite !replace_all_one, !map_map.
  induction Hall as [|s sextets Hs _ IH]; [reflexivity|].
  cbn [map]. destruct (url_char_spec s Hs) as (_ & _ & Hback).
  cbv zeta in Hback. f_equal; [exact Hback|exact IH].
Qed.

Lemma restore_padding_spec (rounds : nat) (base64 : list ascii) :
  exists k, restore_padding rounds base64 = (base64 ++ repeat "="%char k)%list.
Proof.
  revert base64. induction rounds as [|rounds IH]; intros base64;
    cbn [restore_padding].
  - exists 0%nat. symmetry. apply app_nil_r.
  - destruct (List.length base64 mod 4 =? 0)%nat.
    + exists 0%nat. symmetry. apply app_nil_r.
    + destruct (IH (base64 ++ ["="%char])%list) as [k Hk].
      exists (S k). rewrite Hk, <- app_assoc. reflexivity.
Qed.

(** [base64_url_decode] undoes [base64_url_encode]. *)
Theorem base64_url_round_trip (input : string) :
  base64_url_decode (base64_url_encode input) = input.
Proof.
  unfold base64_url_decode. rewrite base64_url_encode_chars.
  rewrite restore_body by apply (sextets_of_bits_spec _ _ (le_n _)).
  destruct (restore_padding_spec 3
    (map char_of_sextet
       (sextets_of_bits (flat_map bits_of_byte (list_ascii_of_string input)))))
    as [k ->].
  rewrite base64_decode_body. apply string_of_list_ascii_of_string.
Qed.

(** An encoded segment holds no [.]. *)
Lemma base64_url_encode_dot_free (input : string) :
  dot_free (base64_url_encode input) = true.
Proof.
  unfold dot_free. rewrite base64_url_encode_chars.
  apply forallb_forall. intros c Hc.
  apply in_map_iff in Hc as (s & <- & Hs).
  pose proof (proj1 (sextets_of_bits_spec _
    (flat_map bits_of_byte (list_ascii_of_string input)) (le_n _))) as Hall.
  rewrite Forall_forall in Hall.
  destruct (url_char_spec s (Hall s Hs)) as (_ & Hdot & _).
  now rewrite Hdot.
Qed.

End Base64Url.

(** ** Splitting a token *)

Section Split.

Lemma split_not_empty (sep : ascii) (s : string) :
  exists first others, split sep s = first :: others.
Proof.
  induction s as [|c s (first & others & IH)]; simpl.
  - now exists EmptyString, [].
  - rewrite IH. destruct (Ascii.eqb c sep); eauto.
Qed.

Lemma split_dot_free (s : string) :
  dot_free s = true -> split "." s = [s].
Proof.
  unfold dot_free. induction s as [|c s IH]; simpl; [reflexivity|].
  intros H. apply andb_prop in H as [Hc Hs].
  rewrite (IH Hs). apply negb_true_iff in Hc. now rewrite Hc.
Qed.

Lemma split_segment (a b : string) :
  dot_free a = true ->
  split "." (a ++ String "." b) = a :: split "." b.
Proof.
  unfold dot_free. induction a as [|c a IH]; simpl.
  - intros _. destruct (split_not_empty "." b) as (first & others & ->).
    reflexivity.
  - intros H. apply andb_prop in H as [Hc Ha].
    rewrite (IH Ha). apply negb_true_iff in Hc. now rewrite Hc.
Qed.

Lemma append_assoc (a b c : string) : ((a ++ b) ++ c = a ++ (b ++ c))%string.
Proof. induction a as [|x a IH]; simpl; [reflexivity|now rewrite IH]. Qed.

(** Three segments free of [.] split back into themselves. *)
Lemma split_token (h p sig : string) :
  dot_free h = true -> dot_free p = true -> dot_free sig = true ->
  split "." ((h ++ "." ++ p) ++ "." ++ sig) = [h; p; sig].
Proof.
  intros Hh Hp Hs. rewrite append_assoc.
  change ("." ++ p)%string with (String "." p).
  change ("." ++ sig)%string with (String "." sig).
  cbn [append]. rewrite (split_segment h _ Hh), (split_segment p _ Hp).
  now rewrite (split_dot_free sig Hs).
Qed.

End Split.

(** ** Tokens *)

Section JwtProperties.

Context {rt : Runtime}.
Variable jwt_config : jwt_configuration.

Lemma verify_signature_own (data : string) :
  verify_signature data (create_signature data (secret jwt_config))
                   (secret jwt_config) = Normal true.
Proof.
  unfold verify_signature, timingSafeEqual.
  now rewrite Nat.eqb_refl, String.eqb_refl.
Qed.

Lemma verify_signature_mismatch (data signature : string) :
  signature <> create_signature data (secret jwt_config) ->
  verify_signature data signature (secret jwt_config) = Normal false.
Proof.
  intros Hne. unfold verify_signature, timingSafeEqual.
  destruct (String.length signature =? _)%nat; [|reflexivity].
  simpl. apply String.eqb_neq in Hne. now rewrite Hne.
Qed.

(** The length test comes first, so [timingSafeEqual] never throws. *)
Lemma verify_signature_total (data signature : string) :
  exists b, verify_signature data signature (secret jwt_config) = Normal b.
Proof.
  unfold verify_signature, timingSafeEqual.
  destruct (String.length signature =? _)%nat; simpl; eauto.
Qed.

Lemma assoc_set_property (name : string) (v : json)
    (properties : list (string * json)) :
  assoc name (set_property name v properties) = Some v.
Proof.
  induction properties as [|[k old] rest IH]; simpl.
  - now rewrite String.eqb_refl.
  - destruct (String.eqb k name) eqn:E; simpl; now rewrite E.
Qed.

(** The claims come first in the signed payload, then [iat] and [exp]. *)
Lemma full_payload_access (now ttl : Z) (u : user) (options : access_options) :
  full_payload now ttl (access_claims u options)
  = (access_claims u options
     ++ [("iat", JNumber (now / 1000)); ("exp", JNumber ((now + ttl) / 1000))])%list.
Proof.
  unfold access_claims. now destruct (is_impersonation options).
Qed.

(** Verification of a token whose three segments are well formed and
    whose signature is the server's. *)
Lemma verify_signed (now : Z) (h p : string) :
  dot_free h = true -> dot_free p = true ->
  verify_jwt_body jwt_config now
    (js_string ((h ++ "." ++ p)
                ++ "." ++ create_signature (h ++ "." ++ p) (secret jwt_config)))
  = (payload <- JSON_parse (base64_url_decode p) ;;
     exp <- get_property payload "exp" ;;
     if truthy exp then
       match exp with
       | Some e =>
           expired <- less_than e (now / 1000) ;;
           if expired then Normal (invalid "Token expired")
           else Normal (valid payload)
       | None => Normal (valid payload)
       end
     else Normal (valid payload)).
Proof.
  intros Hh Hp. unfold verify_jwt_body.
  destruct (String.eqb _ EmptyString) eqn:E.
  { apply String.eqb_eq in E. destruct h; discriminate E. }
  rewrite (split_token h p
             (create_signature (h ++ "." ++ p) (secret jwt_config)) Hh Hp
             (base64_url_encode_dot_free _)).
  rewrite verify_signature_own. reflexivity.
Qed.

Lemma parse_int_from_nonneg (digits : list ascii) (acc : Z) :
  0 <= acc -> forallb is_digit digits = true ->
  0 <= fold_left (fun a c => 10 * a + (Z.of_nat (nat_of_ascii c) - 48)) digits acc.
Proof.
  revert acc. induction digits as [|c digits IH];
    cbn [fold_left forallb]; intros acc Hacc Hd.
  - exact Hacc.
  - apply andb_prop in Hd as [Hc Hd]. apply IH; [|exact Hd].
    unfold is_digit in Hc. apply andb_prop in Hc as [Hlo _].
    apply Nat.leb_le in Hlo. lia.
Qed.

(** A duration that parses is not negative. *)
Lemma parse_duration_nonneg (duration : string) (ttl : Z) :
  parse_duration duration = Normal ttl -> 0 <= ttl.
Proof.
  unfold parse_duration.
  destruct (rev (list_ascii_of_string duration)) as [|unit [|d ds]];
    try discriminate.
  destruct (forallb is_digit (d :: ds)) eqn:Hd; [|discriminate].
  assert (Hv : 0 <= parse_int (rev (d :: ds))).
  { apply parse_int_from_nonneg; [lia|].
    apply forallb_forall. intros x Hx. apply in_rev in Hx.
    now apply (proj1 (forallb_forall _ _) Hd). }
  set (value := parse_int (rev (d :: ds))) in *.
  destruct (Ascii.eqb unit "m"); [intros [= <-]; lia|].
  destruct (Ascii.eqb unit "h"); [intros [= <-]; lia|].
  destruct (Ascii.eqb unit "d"); [intros [= <-]; lia|discriminate].
Qed.

(** C6. Verifying an access token at the time of issue, or at any time
    no later than its expiry, returns [valid] with the payload that was
    signed: [sub], [username], [is_admin] and [is_verified] of the
    identity and [type: 'access'], then [is_impersonation] and [admin_id]
    when the token is issued for an impersonation, each unchanged and in
    this order, followed by [iat] and [exp]. *)
Theorem access_token_round_trip (now now' ttl : Z) (u : user)
    (options : access_options) :
  let claims :=
    ([("sub", JString (id u));
      ("username", JString (username u));
      ("is_admin", JBool (is_admin u));
      ("is_verified", JBool (is_verified u));
      ("type", JString "access")]
     ++ (if is_impersonation options
         then [("is_impersonation", JBool true);
               ("admin_id", JString (admin_id options))]
         else [])
     ++ [("iat", JNumber (now / 1000));
         ("exp", JNumber ((now + ttl) / 1000))])%list in
  parse_duration (access_expiry jwt_config) = Normal ttl ->
  JSON_parse (JSON_stringify (JObject claims)) = Normal (JObject claims) ->
  now' / 1000 <= (now + ttl) / 1000 ->
  exists token,
    create_access_token jwt_config now u options = Normal token /\
    verify_jwt jwt_config now (js_string token) = Normal (valid (JObject claims)) /\
    verify_jwt jwt_config now' (js_string token) = Normal (valid (JObject claims)) /\
    now / 1000 <= (now + ttl) / 1000.
Proof.
  intros claims Httl Hjson Hnow.
  assert (Hissue : now / 1000 <= (now + ttl) / 1000).
  { apply Z.div_le_mono; [lia|]. pose proof (parse_duration_nonneg _ _ Httl). lia. }
  assert (Hclaims : full_payload now ttl (access_claims u options) = claims).
  { subst claims. unfold full_payload, access_claims.
    now destruct (is_impersonation options). }
  assert (Hexp : assoc "exp" claims = Some (JNumber ((now + ttl) / 1000))).
  { rewrite <- Hclaims. unfold full_payload. apply assoc_set_property. }
  unfold create_access_token, create_jwt.
  assert ((if String.eqb (access_expiry jwt_config) EmptyString
           then access_expiry jwt_config else access_expiry jwt_config)
          = access_expiry jwt_config) as -> by now destruct (String.eqb _ _).
  rewrite Httl. cbn [bind]. rewrite Hclaims.
  eexists. split; [reflexivity|].
  assert (Hverify : forall clock,
            clock / 1000 <= (now + ttl) / 1000 ->
            verify_jwt jwt_config clock
              (js_string
                 ((base64_url_encode (JSON_stringify jwt_header) ++ "."
                   ++ base64_url_encode (JSON_stringify (JObject claims)))
                  ++ "."
                  ++ create_signature
                       (base64_url_encode (JSON_stringify jwt_header) ++ "."
                        ++ base64_url_encode (JSON_stringify (JObject claims)))
                       (secret jwt_config)))
            = Normal (valid (JObject claims))).
  { intros clock Hclock. unfold verify_jwt.
    rewrite verify_signed by apply base64_url_encode_dot_free.
    rewrite base64_url_round_trip, Hjson. cbn [bind get_property].
    rewrite Hexp. cbn [bind truthy less_than].
    destruct ((now + ttl) / 1000 =? 0); cbn [negb try_catch]; [reflexivity|].
    destruct ((now + ttl) / 1000 <? clock / 1000) eqn:E; [|reflexivity].
    apply Z.ltb_lt in E. lia. }
  split; [now apply Hverify|]. split; [now apply Hverify|exact Hissue].
Qed.

Lemma verify_jwt_never_throws (now : Z) (token : js_value) :
  exists v, verify_jwt jwt_config now token = Normal v.
Proof.
  unfold verify_jwt.
  destruct (verify_jwt_body jwt_config now token); simpl; eauto.
Qed.

(** C7, as the code has it.  [verify_jwt] never throws: on every input
    it returns a tagged result.  It answers [valid: false] with a reason
    for a token that is not a non-empty string, for one that does not have
    three segments, for a signature other than the server's, for a payload
    that does not parse, and for a numeric [exp] in the past that is not
    zero. *)
Theorem verify_jwt_total (now : Z) (token : js_value) :
  (exists v, verify_jwt jwt_config now token = Normal v) /\
  (forall data signature,
     exists b, verify_signature data signature (secret jwt_config) = Normal b) /\
  ((forall s, token = js_string s -> s = EmptyString) ->
     verify_jwt jwt_config now token = Normal (invalid "Token is required")) /\
  (forall s, token = js_string s -> s <> EmptyString ->
     List.length (split "." s) <> 3%nat ->
     verify_jwt jwt_config now token = Normal (invalid "Invalid token format")) /\
  (forall s h p signature,
     token = js_string s -> split "." s = [h; p; signature] ->
     (signature <> create_signature (h ++ "." ++ p) (secret jwt_config) ->
        verify_jwt jwt_config now token = Normal (invalid "Invalid signature")) /\
     (signature = create_signature (h ++ "." ++ p) (secret jwt_config) ->
        (forall message,
           JSON_parse (base64_url_decode p) = Throw message ->
           verify_jwt jwt_config now token = Normal (invalid "Invalid token")) /\
        (forall payload e,
           JSON_parse (base64_url_decode p) = Normal payload ->
           get_property payload "exp" = Normal (Some (JNumber e)) ->
           e <> 0 -> e < now / 1000 ->
           verify_jwt jwt_config now token = Normal (invalid "Token expired")))).
Proof.
  split; [apply verify_jwt_never_throws|].
  split; [apply verify_signature_total|].
  split.
  { intros H. destruct token; try reflexivity.
    rewrite (H s eq_refl). reflexivity. }
  split.
  { intros s -> Hs Hlen. unfold verify_jwt, verify_jwt_body.
    apply String.eqb_neq in Hs. rewrite Hs.
    destruct (split "." s) as [|a [|b [|c [|d l]]]]; try reflexivity.
    now elim Hlen. }
  intros s h p signature -> Hsplit.
  assert (Hs : String.eqb s EmptyString = false).
  { destruct s; [discriminate Hsplit|reflexivity]. }
  unfold verify_jwt, verify_jwt_body. rewrite Hs, Hsplit.
  split.
  - intros Hne. now rewrite (verify_signature_mismatch _ _ Hne).
  - intros ->. rewrite verify_signature_own. cbn [bind negb].
    split.
    + intros message ->. reflexivity.
    + intros payload e -> Hexp Hnz Hpast. cbn [bind]. rewrite Hexp.
      cbn [bind truthy less_than].
      apply Z.eqb_neq in Hnz. rewrite Hnz. apply Z.ltb_lt in Hpast.
      now rewrite Hpast.
Qed.

(** C10. A token that carries the server's signature and whose payload
    is an object without an [exp] property is valid at every clock
    value: the expiry test is skipped. *)
Theorem token_without_exp_never_expires (now : Z) (h p : string)
    (properties : list (string * json)) :
  dot_free h = true -> dot_free p = true ->
  JSON_parse (base64_url_decode p) = Normal (JObject properties) ->
  assoc "exp" properties = None ->
  verify_jwt jwt_config now
    (js_string ((h ++ "." ++ p)
                ++ "." ++ create_signature (h ++ "." ++ p) (secret jwt_config)))
  = Normal (valid (JObject properties)).
Proof.
  intros Hh Hp Hjson Hexp. unfold verify_jwt.
  rewrite (verify_signed now h p Hh Hp), Hjson.
  cbn [bind get_property]. rewrite Hexp. reflexivity.
Qed.

End JwtProperties.

Lemma access_token_round_trip_witness :
  exists token,
    @create_access_token sample_runtime default_jwt_config 1700000000123
      ada_identity {| is_impersonation := true; admin_id := "a1" |} = Normal token /\
    @verify_jwt sample_runtime default_jwt_config 1700000900000 (js_string token)
    = Normal (valid (JObject
        [("sub", JString "7f3c"); ("username", JString "ada");
         ("is_admin", JBool false); ("is_verified", JBool true);
         ("type", JString "access"); ("is_impersonation", JBool true);
         ("admin_id", JString "a1");
         ("iat", JNumber 1700000000); ("exp", JNumber 1700000900)])).
Proof.
  destruct (@access_token_round_trip sample_runtime default_jwt_config
              1700000000123 1700000900000 900000 ada_identity
              {| is_impersonation := true; admin_id := "a1" |})
    as (token & Hcreate & _ & Hverify & _).
  - reflexivity.
  - vm_compute. reflexivity.
  - vm_compute. discriminate.
  - exists token. split; [exact Hcreate|exact Hverify].
Defined.

(** C7, where it fails: a token with the server's signature and [exp: 0]
    is accepted in 2023, although its expiry is in 1970. *)
Lemma verify_jwt_accepts_zero_exp :
  @verify_jwt sample_runtime default_jwt_config 1700000000000
    (js_string (@signed_token sample_runtime default_jwt_config
                  (JObject [("sub", JString "7f3c"); ("exp", JNumber 0)])))
  = Normal (valid (JObject [("sub", JString "7f3c"); ("exp", JNumber 0)])).
Proof. vm_compute. reflexivity. Qed.

Lemma verify_jwt_total_witness :
  @verify_jwt sample_runtime default_jwt_config 1700000000000 js_null
    = Normal (invalid "Token is required") /\
  @verify_jwt sample_runtime default_jwt_config 1700000000000 (js_string "a.b")
    = Normal (invalid "Invalid token format") /\
  @verify_jwt sample_runtime default_jwt_config 1700000000000 (js_string "a.b.c")
    = Normal (invalid "Invalid signature") /\
  @verify_jwt sample_runtime default_jwt_config 1700000000000
    (js_string (@signed_token sample_runtime default_jwt_config
                  (JObject [("sub", JString "7f3c"); ("exp", JNumber 1600000000)])))
    = Normal (invalid "Token expired").
Proof.
  split.
  { apply (proj1 (proj2 (proj2 (@verify_jwt_total sample_runtime
               default_jwt_config 1700000000000 js_null)))).
    intros s H. discriminate H. }
  split.
  { apply (proj1 (proj2 (proj2 (proj2 (@verify_jwt_total sample_runtime
               default_jwt_config 1700000000000 (js_string "a.b")))))
             "a.b" eq_refl).
    - discriminate.
    - vm_compute. discriminate. }
  split.
  { apply (proj2 (proj2 (proj2 (proj2 (@verify_jwt_total sample_runtime
               default_jwt_config 1700000000000 (js_string "a.b.c")))))
             "a.b.c" "a" "b" "c" eq_refl eq_refl).
    vm_compute. discriminate. }
  pose proof (proj2 (proj2 (proj2 (proj2 (@verify_jwt_total sample_runtime
                default_jwt_config 1700000000000
                (js_string (@signed_token sample_runtime default_jwt_config
                   (JObject [("sub", JString "7f3c");
                             ("exp", JNumber 1600000000)])))))))) as H.
  specialize (H _ _ _ _ eq_refl ltac:(vm_compute; reflexivity)).
  destruct H as [_ H]. destruct (H ltac:(vm_compute; reflexivity)) as [_ Hexp].
  apply (Hexp (JObject [("sub", JString "7f3c"); ("exp", JNumber 1600000000)])
              1600000000).
  - vm_compute. reflexivity.
  - reflexivity.
  - discriminate.
  - vm_compute. reflexivity.
Defined.

Lemma token_without_exp_never_expires_witness :
  @verify_jwt sample_runtime default_jwt_config 4102444800000
    (js_string (@signed_token sample_runtime default_jwt_config
                  (JObject [("sub", JString "7f3c"); ("type", JString "access")])))
  = Normal (valid (JObject [("sub", JString "7f3c"); ("type", JString "access")])).
Proof.
  apply (@token_without_exp_never_expires sample_runtime default_jwt_config
           4102444800000
           (base64_url_encode (@JSON_stringify sample_runtime jwt_header))
           (base64_url_encode
              (@JSON_stringify sample_runtime
                 (JObject [("sub", JString "7f3c"); ("type", JString "access")])))).
  - vm_compute. reflexivity.
  - vm_compute. reflexivity.
  - vm_compute. reflexivity.
  - reflexivity.
Defined.

(** ** [/refresh] *)

Section RefreshRoute.

Context {rt : Runtime}.
Variable jwt_config : jwt_configuration.
Variable environment : string.


(** What the join selects. *)
Lemma select_refresh_token_sound (now : Z) (hash : string) (db : database)
    (r : refresh_token_row) (u : user_row) :
  In (r, u) (select_refresh_token now hash db) ->
  In r (refresh_tokens db) /\ In u (users db) /\ token_hash r = hash /\
  now < rt_expires_at r /\ rt_user_id r = u_id u.
Proof.
  unfold select_refresh_token. intros Hin.
  apply in_flat_map in Hin as (r0 & Hr0 & Hin).
  destruct (String.eqb (token_hash r0) hash) eqn:Eh; [|destruct Hin].
  destruct (now <? rt_expires_at r0) eqn:Et; [|destruct Hin].
  cbn [andb] in Hin. apply in_map_iff in Hin as (u0 & [= <- <-] & Hu0).
  apply filter_In in Hu0 as [Hu0 Eid].
  apply String.eqb_eq in Eh, Eid. apply Z.ltb_lt in Et. now repeat split.
Qed.

Lemma create_access_token_succeeds (now ttl : Z) (u : user)
    (options : access_options) :
  parse_duration (access_expiry jwt_config) = Normal ttl ->
  exists token, create_access_token jwt_config now u options = Normal token.
Proof.
  intros Httl. unfold create_access_token, create_jwt.
  assert ((if String.eqb (access_expiry jwt_config) EmptyString
           then access_expiry jwt_config else access_expiry jwt_config)
          = access_expiry jwt_config) as -> by now destruct (String.eqb _ _).
  rewrite Httl. simpl. eauto.
Qed.


End RefreshRoute.


(** ** [/login] *)

Section LoginRoute.

Context {rt : Runtime}.
Variable jwt_config : jwt_configuration.
Variable environment : string.

(** C9, as the code has it.  A login with a name that matches no user
    and a login with a wrong password for a user who is not blocked and
    whose failure count, with this failure added, is still below the
    threshold receive the same response: 401 with
    [{error: 'Invalid credentials'}] and no cookie.  The first one still
    calls [verify_password], on the dummy credential. *)
Theorem login_failures_indistinguishable (now later : Z) (fresh_id : string)
    (unknown known password : string) (stay : bool)
    (agent ip : option string) (db : database) (u : user_row)
    (others : list user_row) :
  unknown <> EmptyString -> known <> EmptyString -> password <> EmptyString ->
  find_user unknown db = [] ->
  find_user known db = u :: others ->
  verify_password password (password_hash u) (password_salt u) = false ->
  check_user_login_block now (rate_limit_login_user db (u_id u)) = NotBlocked ->
  consecutive_failures
    (upsert_login_failure now (rate_limit_login_user db (u_id u)))
    < rate_limit_config.login.user.max_consecutive_failures ->
  let attempt name :=
    {| body_username := Some name; body_password := Some password;
       stay_logged_in := stay; header_user_agent := agent; req_ip := ip |} in
  let no_user := post_login jwt_config environment now later fresh_id (attempt unknown) db in
  let wrong := post_login jwt_config environment now later fresh_id (attempt known) db in
  fst no_user = fst wrong /\
  fst no_user
  = {| http_status := 401;
       http_body := JObject [("error", JString "Invalid credentials")];
       set_cookies := []; cleared_cookies := [] |} /\
  password_checks (snd no_user)
  = (password, "dummy_hash_to_prevent_timing_attack", "dummy_salt")
      :: password_checks db.
Proof.
  intros Hu Hk Hp Hnone Hsome Hwrong Hopen Hbelow attempt no_user wrong.
  subst no_user wrong attempt. unfold post_login. cbn [body_username body_password].
  apply String.eqb_neq in Hu, Hk, Hp. rewrite Hu, Hk, Hp. cbn [orb].
  rewrite Hnone, Hsome, Hopen, Hwrong.
  cbn [log_password_check rate_limit_login_user].
  rewrite (record_login_failure_below_threshold now _ Hbelow).
  cbn [blocked not_blocked fst snd]. repeat split.
Qed.

End LoginRoute.

Lemma login_failures_indistinguishable_witness :
  fst (@post_login sample_runtime default_jwt_config "dev" 5000000 5000000 "r3"
         (login_attempt "nobody" "guess") (sample_database 3 4900000))
  = fst (@post_login sample_runtime default_jwt_config "dev" 5000000 5000000 "r3"
           (login_attempt "ADA" "guess") (sample_database 3 4900000)).
Proof.
  apply (@login_failures_indistinguishable sample_runtime default_jwt_config
           "dev" 5000000 5000000 "r3" "nobody" "ADA" "guess" false None None
           (sample_database 3 4900000) ada []).
  - discriminate.
  - discriminate.
  - discriminate.
  - vm_compute. reflexivity.
  - vm_compute. reflexivity.
  - vm_compute. reflexivity.
  - vm_compute. reflexivity.
  - vm_compute. reflexivity.
Defined.

(** C9, where it fails: four failures in the last half hour are fewer than
    the threshold of five, yet the next wrong password is the fifth and is
    answered 429 with [retry_after: 300], while an unknown name is answered
    401. *)
Lemma login_fifth_failure_is_distinguishable :
  let db := sample_database 4 4900000 in
  check_user_login_block 5000000 (rate_limit_login_user db "7f3c") = NotBlocked /\
  fst (@post_login sample_runtime default_jwt_config "dev" 5000000 5000000 "r3"
         (login_attempt "nobody" "guess") db)
  = json_response 401 (JObject [("error", JString "Invalid credentials")]) /\
  fst (@post_login sample_runtime default_jwt_config "dev" 5000000 5000000 "r3"
         (login_attempt "ada" "guess") db)
  = json_response 429
      (JObject [("error", JString "Account temporarily locked");
                ("message", JString "Too many failed login attempts");
                ("retry_after", JNumber 300)]).
Proof. vm_compute. repeat split. Qed.

(** ** The idempotency race, on a concrete run *)

(** C2, where it fails: two requests with the same tuple, their steps
    taken in turn.  Both run the handler; the second insert is not rejected
    but succeeds as an update, and the row ends with the second response in
    place of the first. *)
Lemma race_runs_handler_twice_and_overwrites :
  let a := sample_request "/api/admin/users/1" in
  let t := ticket_of "retry-0001" a in
  let s := run sample_handler true a a alternating
             {| shared := empty_world; first := Arrived; second := Arrived |} in
  side_effects (shared s) = [a; a] /\
  first s = Done {| status := 200; body := sample_body 0; replayed := false |} /\
  second s = Done {| status := 200; body := sample_body 1; replayed := false |} /\
  insert_or_update 1005 t 200
    [("endpoint", JString "PATCH:/api/admin/users/1");
     ("executions_before", JNumber 1)]
    [stored_row t 1004 1004 200 (sample_body 0)]
  = Normal [stored_row t 1004 1005 200 (sample_body 1)] /\
  idempotency_keys (shared s) = [stored_row t 1004 1005 200 (sample_body 1)].
Proof. vm_compute. repeat split. Qed.

Lemma race_last_writer_wins_witness :
  let a := sample_request "/api/admin/users/1" in
  let s := run sample_handler true a a alternating
             {| shared := empty_world; first := Arrived; second := Arrived |} in
  exists r1 r2,
    first s = Done r1 /\ second s = Done r2 /\
    List.length (side_effects (shared s)) = 2%nat /\
    exists row,
      filter (has_key "retry-0001") (idempotency_keys (shared s)) = [row] /\
      response_status row = status r2 /\ response_body row = jsonb (body r2) /\
      response_body row = sample_body 1.
Proof.
  intros a s.
  destruct (race_last_writer_wins sample_handler true a a
              "retry-0001" "retry-0001" "retry-0001" empty_world
              eq_refl eq_refl eq_refl eq_refl eq_refl
              ltac:(constructor)
              alternating eq_refl
              ltac:(intros; reflexivity))
    as (r1 & r2 & H1 & H2 & _ & _ & Hlen & _ & Hrows).
  fold s in H1, H2, Hlen, Hrows.
  exists r1, r2. split; [exact H1|]. split; [exact H2|].
  split; [exact Hlen|].
  assert (E2 : r2 = {| status := 200; body := sample_body 1; replayed := false |}).
  { assert (E : Done r2 = second s) by now rewrite H2.
    vm_compute in E. now injection E. }
  cbv zeta in Hrows. cbn [alternating map fst last] in Hrows.
  rewrite E2 in Hrows |- *.
  change (storable (ticket_of "retry-0001" a) 200 (sample_body 1)) with true
    in Hrows.
  destruct Hrows as (row & Hrow & Hstatus & Hbody).
  exists row. split; [exact Hrow|]. split; [exact Hstatus|].
  split; [exact Hbody|]. rewrite Hbody. reflexivity.
Defined.

(* ================================================================= *)
(** * Properties of the rest of the code *)

(* ================================================================= *)
(** ** Idempotency keys: validation and edge cases *)

Section KeyValidation.

Lemma url_safe_not_white_space (c : ascii) :
  is_url_safe c = true -> is_white_space c = false.
Proof.
  destruct c as [b0 b1 b2 b3 b4 b5 b6 b7].
  destruct b0, b1, b2, b3, b4, b5, b6, b7; vm_compute; congruence.
Qed.

Lemma trim_start_fixed (l : list ascii) :
  forallb is_url_safe l = true -> trim_start l = l.
Proof.
  destruct l as [|c l]; [reflexivity|]. cbn [forallb trim_start].
  intros H. apply andb_prop in H as [Hc _].
  now rewrite (url_safe_not_white_space c Hc).
Qed.

Lemma forallb_rev {A} (f : A -> bool) (l : list A) :
  forallb f (rev l) = forallb f l.
Proof.
  induction l as [|x l IH]; [reflexivity|].
  cbn [rev forallb]. rewrite forallb_app, IH. cbn [forallb].
  rewrite andb_true_r. apply andb_comm.
Qed.

(** Text made of URL-safe characters has no white space to trim. *)
Lemma trim_url_safe (s : string) :
  forallb is_url_safe (list_ascii_of_string s) = true -> trim s = s.
Proof.
  intros H. unfold trim.
  rewrite (trim_start_fixed _ H).
  rewrite trim_start_fixed by now rewrite forallb_rev.
  rewrite rev_involutive. apply string_of_list_ascii_of_string.
Qed.

Lemma length_list_ascii_of_string (s : string) :
  List.length (list_ascii_of_string s) = String.length s.
Proof. induction s as [|c s IH]; simpl; [reflexivity|now rewrite IH]. Qed.

(** X1. A key that [validate_idempotency_key] accepts is the header
    without its surrounding white space; it has 8 to 255 characters, all of
    [[a-zA-Z0-9_-]], so it fits the [VARCHAR(255)] primary key; and it is
    canonical: validating it again returns it unchanged. *)
Theorem validated_key_is_canonical (header k : string) :
  validate_idempotency_key header = Valid k ->
  k = trim header /\
  (8 <= String.length k <= 255)%nat /\
  forallb is_url_safe (list_ascii_of_string k) = true /\
  validate_idempotency_key k = Valid k.
Proof.
  unfold validate_idempotency_key at 1.
  destruct (String.eqb header EmptyString); [discriminate|].
  destruct ((String.length (trim header) <? 8)%nat
            || (255 <? String.length (trim header))%nat) eqn:Hlen; [discriminate|].
  destruct (safe_regex_test (trim header)) eqn:Hsafe; [|discriminate].
  intros [= <-]. set (k := trim header) in *.
  apply orb_false_elim in Hlen as [Hlo Hhi].
  apply Nat.ltb_ge in Hlo, Hhi.
  assert (Hall : forallb is_url_safe (list_ascii_of_string k) = true).
  { unfold safe_regex_test in Hsafe.
    destruct (list_ascii_of_string k); [discriminate|exact Hsafe]. }
  repeat split; try assumption.
  unfold validate_idempotency_key.
  destruct (String.eqb k EmptyString) eqn:E.
  { apply String.eqb_eq in E. rewrite E in Hlo. simpl in Hlo. lia. }
  rewrite (trim_url_safe k Hall).
  apply Nat.ltb_ge in Hlo, Hhi. now rewrite Hlo, Hhi, Hsafe.
Qed.

End KeyValidation.

Lemma validated_key_is_canonical_witness :
  validate_idempotency_key "  retry-0001 " = Valid "retry-0001" /\
  validate_idempotency_key "retry-0001" = Valid "retry-0001".
Proof.
  split; [reflexivity|].
  exact (proj2 (proj2 (proj2
    (validated_key_is_canonical "  retry-0001 " "retry-0001" eq_refl)))).
Defined.

Section IdempotencyEdges.

Variable h : handler.
Variable required : bool.

(** A lookup that misses keeps missing later: rows only expire. *)
Lemma select_existing_later (now now' : Z) (t : ticket)
    (table : list idempotency_row) :
  now <= now' ->
  select_existing now t table = [] -> select_existing now' t table = [].
Proof.
  intros Hle. unfold select_existing.
  induction table as [|r table IH]; simpl; [reflexivity|].
  destruct (matches now t r) eqn:E; [discriminate|]. intros H.
  assert (matches now' t r = false) as ->; [|now apply IH].
  unfold matches in *.
  destruct (String.eqb (key r) (t_key t) && option_string_eqb (user_id r) (t_user_id t)
            && String.eqb (endpoint r) (t_endpoint t)); [|reflexivity].
  simpl in *. apply Z.ltb_ge in E. apply Z.ltb_ge. lia.
Qed.

(** X2. A response with a status of 500 or more is not stored: the
    table is left as it was, and the same request made again, at any later
    time, executes the handler a second time and is not marked as
    replayed. *)
Theorem server_error_is_not_replayed (now1 now2 : Z) (req : request)
    (hdr k : string) (w : world) (st : Z) (b : list (string * json)) :
  idempotency_key_header req = Some hdr ->
  validate_idempotency_key hdr = Valid k ->
  select_existing now1 (ticket_of k req) (idempotency_keys w) = [] ->
  h (side_effects w) req = (st, b) ->
  500 <= st ->
  now1 <= now2 ->
  let w1 := fst (serve h required now1 req w) in
  let again := h (req :: side_effects w) req in
  serve h required now1 req w
    = (w1, Done {| status := st; body := JObject b; replayed := false |}) /\
  idempotency_keys w1 = idempotency_keys w /\
  snd (serve h required now2 req w1)
    = Done {| status := fst again; body := JObject (snd again);
              replayed := false |} /\
  side_effects (fst (serve h required now2 req w1)) = req :: req :: side_effects w.
Proof.
  intros Hhdr Hval Hmiss Hh Hst Hle.
  assert (Hfirst : serve h required now1 req w
            = ({| idempotency_keys := idempotency_keys w;
                  side_effects := req :: side_effects w |},
               Done {| status := st; body := JObject b; replayed := false |})).
  { rewrite (serve_running h required now1 req w (Some (ticket_of k req))), Hh.
    - cbn [fst snd res_json].
      replace (st <? 500) with false by (symmetry; apply Z.ltb_ge; lia).
      reflexivity.
    - rewrite (idempotency_lookup required now1 req hdr k _ Hhdr Hval).
      now rewrite Hmiss. }
  intros w1 again. subst w1. rewrite Hfirst. cbn [fst idempotency_keys].
  split; [reflexivity|]. split; [reflexivity|].
  rewrite (serve_running h required now2 req _ (Some (ticket_of k req))).
  - cbn [fst snd side_effects]. split; reflexivity.
  - cbn [idempotency_keys].
    rewrite (idempotency_lookup required now2 req hdr k _ Hhdr Hval).
    now rewrite (select_existing_later now1 now2 _ _ Hle Hmiss).
Qed.

(** X3. A stored response is replayed for less than 24 hours.  The same
    request made 24 hours or more after the response was stored finds no
    row ([expires_at > NOW()] fails), executes the handler again, and the
    answer of that execution, when it can be stored (status below 500, no
    NUL character in the body), replaces the row for another 24 hours. *)
Theorem stored_response_expires (now1 now2 : Z) (req : request)
    (hdr k : string) (w : world) (st : Z) (b : list (string * json)) :
  idempotency_key_header req = Some hdr ->
  validate_idempotency_key hdr = Valid k ->
  (String.length (endpoint_of req) <= 255)%nat ->
  primary_key (idempotency_keys w) ->
  key_is_own (ticket_of k req) (idempotency_keys w) ->
  select_existing now1 (ticket_of k req) (idempotency_keys w) = [] ->
  h (side_effects w) req = (st, b) ->
  st < 500 ->
  now1 + twenty_four_hours <= now2 ->
  let w1 := fst (serve h required now1 req w) in
  let again := h (req :: side_effects w) req in
  let w2 := fst (serve h required now2 req w1) in
  snd (serve h required now2 req w1)
    = Done {| status := fst again; body := JObject (snd again);
              replayed := false |} /\
  side_effects w2 = req :: req :: side_effects w /\
  (fst again < 500 -> json_has_nul (JObject (snd again)) = false ->
   exists created,
     filter (has_key k) (idempotency_keys w2)
     = [stored_row (ticket_of k req) created now2 (fst again)
          (jsonb (JObject (snd again)))]).
Proof.
  intros Hhdr Hval Hlen Hpk Hown Hmiss Hh Hst Hlate.
  set (t := ticket_of k req) in *.
  assert (Hfirst : serve h required now1 req w
            = ({| idempotency_keys :=
                    res_json now1 (Some t) st b (idempotency_keys w);
                  side_effects := req :: side_effects w |},
               Done {| status := st; body := JObject b; replayed := false |})).
  { rewrite (serve_running h required now1 req w (Some t)), Hh; [reflexivity|].
    rewrite (idempotency_lookup required now1 req hdr k _ Hhdr Hval). fold t.
    now rewrite Hmiss. }
  intros w1 again w2. subst w2 w1. rewrite Hfirst. cbn [fst].
  pose proof (res_json_primary_key now1 (Some t) st b _ Hpk) as Hpk1.
  set (table1 := res_json now1 (Some t) st b (idempotency_keys w)) in *.
  assert (Htable1 : select_existing now2 t table1 = [] /\ key_is_own t table1).
  { destruct (json_has_nul (JObject b)) eqn:Hnul.
    - assert (E : table1 = idempotency_keys w).
      { subst table1. unfold res_json, insert_or_update. rewrite Hnul.
        destruct (st <? 500); [|reflexivity].
        now destruct (255 <? String.length (t_endpoint t))%nat. }
      rewrite E. split; [|exact Hown].
      apply (select_existing_later now1 now2); [|exact Hmiss].
      unfold twenty_four_hours in Hlate. lia.
    - destruct (res_json_establishes now1 t st b (idempotency_keys w)
                  Hpk Hown Hlen Hnul Hst) as [created Hrow].
      fold table1 in Hrow. split.
      + unfold select_existing.
        rewrite <- (filter_filter (matches now2 t) (has_key (t_key t)))
          by apply matches_has_key.
        rewrite Hrow. cbn [filter].
        unfold matches. cbn [stored_row key user_id endpoint expires_at].
        replace (now2 <? now1 + twenty_four_hours) with false
          by (symmetry; apply Z.ltb_ge; lia).
        now rewrite !andb_false_r.
      + intros r Hin Hk.
        assert (Hr : In r (filter (has_key (t_key t)) table1)).
        { apply filter_In. split; [exact Hin|].
          unfold has_key. now apply String.eqb_eq. }
        rewrite Hrow in Hr. destruct Hr as [<-|[]]. now split. }
  destruct Htable1 as [Hmiss2 Hown1].
  rewrite (serve_running h required now2 req _ (Some t)).
  2:{ cbn [idempotency_keys].
      rewrite (idempotency_lookup required now2 req hdr k _ Hhdr Hval). fold t.
      now rewrite Hmiss2. }
  cbn [fst snd side_effects idempotency_keys].
  split; [reflexivity|]. split; [reflexivity|].
  intros Hagain Hnul2.
  destruct (res_json_establishes now2 t (fst again) (snd again) table1
              Hpk1 Hown1 Hlen Hnul2 Hagain) as [created2 Hrow2].
  exists created2. exact Hrow2.
Qed.

(** X4. The sweep of expired rows is invisible to the middleware: a
    request that arrives after a sweep is treated exactly as it would have
    been without it, since the sweep deletes only rows with
    [expires_at < NOW()], which no lookup returns. *)
Theorem cleanup_is_invisible (swept now : Z) (req : request)
    (table : list idempotency_row) :
  swept <= now ->
  idempotency required now req (cleanup_idempotency_keys swept table)
  = idempotency required now req table.
Proof.
  intros Hle.
  assert (Hsel : forall t,
            select_existing now t (cleanup_idempotency_keys swept table)
            = select_existing now t table).
  { intros t. unfold select_existing, cleanup_idempotency_keys.
    apply filter_filter. intros r Hm. unfold matches in Hm.
    apply andb_prop in Hm as [_ Hexp]. apply Z.ltb_lt in Hexp.
    apply negb_true_iff. apply Z.ltb_ge. lia. }
  unfold idempotency.
  destruct (idempotency_key_header req) as [hdr|]; [|reflexivity].
  destruct (String.eqb hdr EmptyString); [reflexivity|].
  destruct (validate_idempotency_key hdr); [|reflexivity].
  now rewrite Hsel.
Qed.

(** X5. A request without a usable key never reads or writes the table.
    With no [Idempotency-Key] header, or an empty one, a route that
    requires a key answers 400 without running the handler, and a route
    that does not require one runs the handler as if the middleware were
    absent.  A header that is present but not a valid key is answered 400
    whether or not the route requires a key. *)
Theorem unusable_key_leaves_table (now : Z) (req : request) (w : world) :
  ((idempotency_key_header req = None
    \/ idempotency_key_header req = Some EmptyString) ->
   serve h required now req w
   = if required then
       (w, Done (bad_request "Idempotency key required"
                             "Please provide an Idempotency-Key header"))
     else
       ({| idempotency_keys := idempotency_keys w;
           side_effects := req :: side_effects w |},
        Done {| status := fst (h (side_effects w) req);
                body := JObject (snd (h (side_effects w) req));
                replayed := false |})) /\
  (forall hdr e,
     idempotency_key_header req = Some hdr ->
     validate_idempotency_key hdr = Invalid e ->
     hdr <> EmptyString ->
     serve h required now req w
     = (w, Done (bad_request "Invalid idempotency key" e))).
Proof.
  split.
  - intros Hnone.
    assert (Hphase : idempotency required now req (idempotency_keys w)
              = if required then
                  Done (bad_request "Idempotency key required"
                                    "Please provide an Idempotency-Key header")
                else Running None).
    { unfold idempotency. destruct Hnone as [-> | ->]; reflexivity. }
    destruct required.
    + now apply serve_done.
    + now rewrite (serve_running h false now req w None Hphase).
  - intros hdr e Hhdr He Hne. apply serve_done.
    unfold idempotency. rewrite Hhdr.
    apply String.eqb_neq in Hne. now rewrite Hne, He.
Qed.

End IdempotencyEdges.

(** ** Splitting at a separator *)

Section SplitAt.

Variable sep : ascii.

Lemma split_free (s : string) : free_of sep s = true -> split sep s = [s].
Proof.
  unfold free_of. induction s as [|c s IH]; simpl; [reflexivity|].
  intros H. apply andb_prop in H as [Hc Hs].
  rewrite (IH Hs). apply negb_true_iff in Hc. now rewrite Hc.
Qed.

Lemma split_first (a b : string) :
  free_of sep a = true -> split sep (a ++ String sep b) = a :: split sep b.
Proof.
  unfold free_of. induction a as [|c a IH]; simpl.
  - intros _. destruct (split_not_empty sep b) as (first & others & ->).
    now rewrite Ascii.eqb_refl.
  - intros H. apply andb_prop in H as [Hc Ha].
    rewrite (IH Ha). apply negb_true_iff in Hc. now rewrite Hc.
Qed.

(** The first piece holds no separator. *)
Lemma split_head_free (s : string) :
  free_of sep (hd EmptyString (split sep s)) = true.
Proof.
  unfold free_of. induction s as [|c s IH]; [reflexivity|].
  cbn [split]. destruct (split_not_empty sep s) as (first & others & E).
  rewrite E in *. cbn [hd] in IH.
  destruct (Ascii.eqb c sep) eqn:Ec; [reflexivity|].
  cbn [hd list_ascii_of_string forallb]. now rewrite Ec, IH.
Qed.

End SplitAt.

Section QueryString.

Variable h : handler.
Variable required : bool.

Lemma append_empty (s : string) : (s ++ EmptyString)%string = s.
Proof. induction s as [|c s IH]; simpl; [reflexivity|now rewrite IH]. Qed.

(** The endpoint of a request is its method and its path: the query
    string is cut off. *)
Lemma endpoint_of_path (caller hdr : option string) (m path suffix : string) :
  free_of "?" path = true -> query_suffix suffix ->
  endpoint_of {| idempotency_key_header := hdr; req_user_id := caller;
                 method := m; originalUrl := path ++ suffix |}
  = m ++ ":" ++ path.
Proof.
  intros Hfree [->|[q ->]]; unfold endpoint_of; cbn [method originalUrl].
  - now rewrite append_empty, (split_free "?" path Hfree).
  - now rewrite (split_first "?" path q Hfree).
Qed.

(** X6. The query string is no part of the tuple.  Two requests of one
    caller with the same key, method and path are one tuple whatever
    follows the path.  Once the response of the first is stored (its
    status is below 500, method and path together have at most 255
    characters, its body holds no NUL character, and the key is held by
    no row of another endpoint or caller), the second, made less than 24
    hours later with another query string, receives the stored response
    of the first, the status and the body as the [JSONB] column gives it
    back, and its handler does not run. *)
Theorem retry_with_other_query_is_replayed (now1 now2 : Z)
    (caller : option string) (hdr k m path suffix1 suffix2 : string)
    (w : world) (st : Z) (b : list (string * json)) :
  let req1 := {| idempotency_key_header := Some hdr; req_user_id := caller;
                 method := m; originalUrl := path ++ suffix1 |} in
  let req2 := {| idempotency_key_header := Some hdr; req_user_id := caller;
                 method := m; originalUrl := path ++ suffix2 |} in
  free_of "?" path = true -> query_suffix suffix1 -> query_suffix suffix2 ->
  validate_idempotency_key hdr = Valid k ->
  (String.length (m ++ ":" ++ path) <= 255)%nat ->
  json_has_nul (JObject b) = false ->
  primary_key (idempotency_keys w) ->
  key_is_own (ticket_of k req1) (idempotency_keys w) ->
  select_existing now1 (ticket_of k req1) (idempotency_keys w) = [] ->
  h (side_effects w) req1 = (st, b) ->
  st < 500 ->
  now2 < now1 + twenty_four_hours ->
  let w1 := fst (serve h required now1 req1 w) in
  ticket_of k req2 = ticket_of k req1 /\
  t_endpoint (ticket_of k req1) = m ++ ":" ++ path /\
  side_effects w1 = req1 :: side_effects w /\
  serve h required now2 req2 w1
    = (w1, Done {| status := st; body := jsonb (JObject b); replayed := true |}).
Proof.
  intros req1 req2 Hfree Hs1 Hs2 Hval Hlen Hnul Hpk Hown Hmiss Hh Hst Hnow.
  assert (He1 : endpoint_of req1 = m ++ ":" ++ path)
    by now apply endpoint_of_path.
  assert (He2 : endpoint_of req2 = m ++ ":" ++ path)
    by now apply endpoint_of_path.
  assert (Ht : ticket_of k req2 = ticket_of k req1).
  { unfold ticket_of. now rewrite He1, He2. }
  set (t := ticket_of k req1) in *.
  assert (Hfirst : serve h required now1 req1 w
            = ({| idempotency_keys :=
                    res_json now1 (Some t) st b (idempotency_keys w);
                  side_effects := req1 :: side_effects w |},
               Done {| status := st; body := JObject b; replayed := false |})).
  { rewrite (serve_running h required now1 req1 w (Some t)), Hh; [reflexivity|].
    rewrite (idempotency_lookup required now1 req1 hdr k _ eq_refl Hval). fold t.
    now rewrite Hmiss. }
  intros w1. subst w1. rewrite Hfirst. cbn [fst side_effects].
  split; [exact Ht|]. split; [exact He1|]. split; [reflexivity|].
  destruct (res_json_establishes now1 t st b (idempotency_keys w) Hpk Hown)
    as [created Hrow];
    [unfold t; cbn [ticket_of t_endpoint]; now rewrite He1|exact Hnul|exact Hst|].
  apply (serve_replays h required now2 req2 hdr k _ created now1 st
           (jsonb (JObject b)) eq_refl Hval);
    [|exact Hnow].
  cbn [idempotency_keys]. rewrite Ht. exact Hrow.
Qed.

End QueryString.

Lemma server_error_is_not_replayed_witness :
  let a := sample_request "/api/admin/users/1" in
  let w1 := fst (serve failing_handler true 1000 a empty_world) in
  idempotency_keys w1 = [] /\
  snd (serve failing_handler true 2000 a w1)
    = Done {| status := 503;
              body := JObject [("error", JString "Service unavailable");
                               ("executions_before", JNumber 1)];
              replayed := false |}.
Proof.
  intros a w1.
  destruct (server_error_is_not_replayed failing_handler true 1000 2000 a
              "retry-0001" "retry-0001" empty_world 503
              [("error", JString "Service unavailable");
               ("executions_before", JNumber 0)])
    as (_ & Hkeys & Hagain & _).
  - reflexivity.
  - reflexivity.
  - reflexivity.
  - reflexivity.
  - lia.
  - lia.
  - split; [exact Hkeys|exact Hagain].
Defined.

Lemma stored_response_expires_witness :
  let a := sample_request "/api/admin/users/1" in
  let w1 := fst (serve sample_handler true 1000 a empty_world) in
  snd (serve sample_handler true 86401000 a w1)
    = Done {| status := 200; body := sample_body 1; replayed := false |}.
Proof.
  intros a w1.
  destruct (stored_response_expires sample_handler true 1000 86401000 a
              "retry-0001" "retry-0001" empty_world 200
              (snd (sample_handler [] a)))
    as (Hagain & _ & _).
  - reflexivity.
  - reflexivity.
  - vm_compute. lia.
  - constructor.
  - intros r [].
  - reflexivity.
  - reflexivity.
  - lia.
  - unfold twenty_four_hours. lia.
  - exact Hagain.
Defined.

Lemma cleanup_is_invisible_witness :
  let a := sample_request "/api/admin/users/1" in
  let table := idempotency_keys (fst (serve sample_handler true 1000 a empty_world)) in
  idempotency true 90000000 a (cleanup_idempotency_keys 90000000 table)
  = idempotency true 90000000 a table.
Proof.
  intros a table. apply (cleanup_is_invisible true 90000000 90000000 a table). lia.
Defined.

Lemma unusable_key_leaves_table_witness :
  serve sample_handler true 1000
    {| idempotency_key_header := None; req_user_id := Some "7f3c";
       method := "PATCH"; originalUrl := "/api/profile" |} empty_world
  = (empty_world,
     Done (bad_request "Idempotency key required"
                       "Please provide an Idempotency-Key header")) /\
  serve sample_handler false 1000
    {| idempotency_key_header := Some "no spaces"; req_user_id := Some "7f3c";
       method := "PATCH"; originalUrl := "/api/profile" |} empty_world
  = (empty_world,
     Done (bad_request "Invalid idempotency key"
                       "Idempotency key contains invalid characters")).
Proof.
  split.
  - apply (proj1 (unusable_key_leaves_table sample_handler true 1000
                    {| idempotency_key_header := None; req_user_id := Some "7f3c";
                       method := "PATCH"; originalUrl := "/api/profile" |}
                    empty_world)).
    now left.
  - apply (proj2 (unusable_key_leaves_table sample_handler false 1000
                    {| idempotency_key_header := Some "no spaces";
                       req_user_id := Some "7f3c";
                       method := "PATCH"; originalUrl := "/api/profile" |}
                    empty_world) "no spaces"
                 "Idempotency key contains invalid characters").
    + reflexivity.
    + reflexivity.
    + discriminate.
Defined.

Lemma retry_with_other_query_is_replayed_witness :
  let first :=
    {| idempotency_key_header := Some "retry-0001"; req_user_id := Some "7f3c";
       method := "PATCH"; originalUrl := "/api/profile?tab=bio" |} in
  let second :=
    {| idempotency_key_header := Some "retry-0001"; req_user_id := Some "7f3c";
       method := "PATCH"; originalUrl := "/api/profile" |} in
  let w1 := fst (serve sample_handler true 1000 first empty_world) in
  serve sample_handler true 2000 second w1
  = (w1, Done {| status := 200;
                 body := JObject [("endpoint", JString "PATCH:/api/profile");
                                  ("executions_before", JNumber 0)];
                 replayed := true |}).
Proof.
  intros first second w1.
  destruct (retry_with_other_query_is_replayed sample_handler true 1000 2000
              (Some "7f3c") "retry-0001" "retry-0001" "PATCH" "/api/profile"
              "?tab=bio" EmptyString empty_world 200
              [("endpoint", JString "PATCH:/api/profile");
               ("executions_before", JNumber 0)])
    as (_ & _ & _ & Hreplay).
  - reflexivity.
  - right. now exists "tab=bio".
  - now left.
  - reflexivity.
  - vm_compute. lia.
  - reflexivity.
  - constructor.
  - intros r [].
  - reflexivity.
  - reflexivity.
  - lia.
  - unfold twenty_four_hours. lia.
  - exact Hreplay.
Defined.

(** ** Durations *)

Section Durations.

Lemma parse_duration_accepts (digits : list ascii) (unit : ascii) (s : string) :
  duration_text digits unit s ->
  parse_duration s = Normal (parse_int digits * unit_milliseconds unit).
Proof.
  intros (Hs & Hne & Hd & Hu). unfold parse_duration.
  rewrite Hs, rev_app_distr. cbn [rev app].
  destruct (rev digits) as [|d ds] eqn:Hrev.
  { apply (f_equal (@rev ascii)) in Hrev. rewrite rev_involutive in Hrev.
    now elim Hne. }
  rewrite <- Hrev, forallb_rev, Hd, rev_involutive.
  unfold unit_milliseconds.
  destruct Hu as [-> | [-> | ->]]; cbn [Ascii.eqb Bool.eqb andb]; f_equal; lia.
Qed.

Lemma parse_duration_rejects (s : string) (ms : Z) :
  parse_duration s = Normal ms ->
  exists digits unit, duration_text digits unit s.
Proof.
  unfold parse_duration.
  destruct (rev (list_ascii_of_string s)) as [|unit [|d ds]] eqn:Hrev;
    try discriminate.
  destruct (forallb is_digit (d :: ds)) eqn:Hd; [|discriminate].
  intros Hunit. exists (rev (d :: ds)), unit. repeat split.
  - apply (f_equal (@rev ascii)) in Hrev. rewrite rev_involutive in Hrev.
    rewrite Hrev. reflexivity.
  - intros E. apply (f_equal (@List.length ascii)) in E.
    rewrite length_rev in E. discriminate E.
  - now rewrite forallb_rev.
  - destruct (Ascii.eqb unit "m") eqn:Em; [left; now apply Ascii.eqb_eq|].
    destruct (Ascii.eqb unit "h") eqn:Eh; [right; left; now apply Ascii.eqb_eq|].
    destruct (Ascii.eqb unit "d") eqn:Ed; [right; right; now apply Ascii.eqb_eq|].
    discriminate Hunit.
Qed.

(** X7. [parse_duration] accepts exactly the texts made of one or more
    decimal digits followed by [m], [h] or [d]; for a number of up to
    eight digits, where the arithmetic of JavaScript numbers is exact, the
    result is the number times the milliseconds of the unit.  On every
    other text (empty, no digits, a sign, a fraction, white space, another
    unit, two units) it throws [Invalid duration format: <text>]; the
    [Unknown duration unit] branch is never reached. *)
Theorem parse_duration_spec (s : string) :
  (forall digits unit,
     duration_text digits unit s ->
     exists ms,
       parse_duration s = Normal ms /\
       ((List.length digits <= 8)%nat ->
        ms = parse_int digits * unit_milliseconds unit)) /\
  ((forall digits unit, ~ duration_text digits unit s) ->
   parse_duration s = Throw ("Invalid duration format: " ++ s)) /\
  (forall message,
     parse_duration s = Throw message ->
     message = "Invalid duration format: " ++ s /\
     forall digits unit, ~ duration_text digits unit s).
Proof.
  split.
  { intros digits unit H. exists (parse_int digits * unit_milliseconds unit).
    split; [now apply parse_duration_accepts|reflexivity]. }
  assert (Hthrow : forall message, parse_duration s = Throw message ->
                     message = "Invalid duration format: " ++ s).
  { unfold parse_duration. intros message.
    destruct (rev (list_ascii_of_string s)) as [|unit [|d ds]];
      try (intros [= <-]; reflexivity).
    destruct (forallb is_digit (d :: ds)); [|intros [= <-]; reflexivity].
    destruct (Ascii.eqb unit "m"); [discriminate|].
    destruct (Ascii.eqb unit "h"); [discriminate|].
    destruct (Ascii.eqb unit "d"); [discriminate|].
    intros [= <-]. reflexivity. }
  split.
  - intros Hnone. destruct (parse_duration s) as [ms|message] eqn:E.
    + destruct (parse_duration_rejects s ms E) as (digits & unit & H).
      now elim (Hnone digits unit).
    + now rewrite (Hthrow message eq_refl).
  - intros message E. split; [now apply Hthrow|].
    intros digits unit H. rewrite (parse_duration_accepts _ _ _ H) in E.
    discriminate E.
Qed.

End Durations.

Lemma parse_duration_spec_witness :
  (exists ms, parse_duration "15m" = Normal ms /\ ms = 900000) /\
  (forall digits unit, ~ duration_text digits unit "1.5h").
Proof.
  split.
  - destruct (proj1 (parse_duration_spec "15m")
                    (list_ascii_of_string "15") "m"%char)
      as (ms & Hparse & Hms).
    + repeat split; [discriminate|now left].
    + exists ms. split; [exact Hparse|]. rewrite Hms; [reflexivity|simpl; lia].
  - apply (proj2 (proj2 (parse_duration_spec "1.5h"))
                 "Invalid duration format: 1.5h").
    reflexivity.
Defined.

(** ** Tokens: standard claims and lifetime *)

Section TokenLifetime.

Context {rt : Runtime}.
Variable jwt_config : jwt_configuration.

Lemma assoc_set_property_other (name other : string) (v : json)
    (properties : list (string * json)) :
  other <> name ->
  assoc other (set_property name v properties) = assoc other properties.
Proof.
  intros Hne. induction properties as [|[k old] rest IH]; simpl.
  - apply String.eqb_neq in Hne. rewrite String.eqb_sym. now rewrite Hne.
  - destruct (String.eqb k name) eqn:E; simpl.
    + apply String.eqb_eq in E. subst k.
      apply String.eqb_neq in Hne. rewrite String.eqb_sym. now rewrite Hne.
    + now rewrite IH.
Qed.

(** X8. The payload [create_jwt] signs carries the [iat] and [exp] that
    [create_jwt] computes, whatever the caller's payload holds under these
    names, and every other claim of the caller unchanged. *)
Theorem standard_claims_override (now duration : Z)
    (payload : list (string * json)) :
  assoc "iat" (full_payload now duration payload) = Some (JNumber (now / 1000)) /\
  assoc "exp" (full_payload now duration payload)
    = Some (JNumber ((now + duration) / 1000)) /\
  (forall name, name <> "iat" -> name <> "exp" ->
     assoc name (full_payload now duration payload) = assoc name payload).
Proof.
  unfold full_payload. split; [|split].
  - rewrite assoc_set_property_other by discriminate. apply assoc_set_property.
  - apply assoc_set_property.
  - intros name Hiat Hexp. now rewrite !assoc_set_property_other.
Qed.

(** The [exp] of the payload [create_jwt] signs. *)
Lemma full_payload_exp (now duration : Z) (payload : list (string * json)) :
  assoc "exp" (full_payload now duration payload)
  = Some (JNumber ((now + duration) / 1000)).
Proof. unfold full_payload. apply assoc_set_property. Qed.

(** Verifying a token with the server's signature over a payload that
    the JSON codec reads back. *)
Lemma verify_signed_token (now : Z) (claims : list (string * json)) (exp : Z) :
  JSON_parse (JSON_stringify (JObject claims)) = Normal (JObject claims) ->
  assoc "exp" claims = Some (JNumber exp) ->
  verify_jwt jwt_config now (js_string (signed_token jwt_config (JObject claims)))
  = Normal (if (exp =? 0) || negb (exp <? now / 1000)
            then valid (JObject claims) else invalid "Token expired").
Proof.
  intros Hjson Hexp. unfold verify_jwt, signed_token.
  rewrite verify_signed by apply base64_url_encode_dot_free.
  rewrite base64_url_round_trip, Hjson. cbn [bind get_property].
  rewrite Hexp. cbn [bind truthy less_than].
  destruct (exp =? 0); cbn [negb orb try_catch]; [reflexivity|].
  now destruct (exp <? now / 1000).
Qed.

(** X9. A token of [create_jwt] lives until its [exp], to the second.
    With [exp] the second in which the issue time plus the duration
    falls, the token verifies as [valid], with the signed payload, at
    every clock value whose second is at most [exp], the issue time
    included, and is rejected with [Token expired] at every later one
    (for an [exp] other than 0). *)
Theorem token_lifetime (now duration : Z) (payload : list (string * json))
    (expiry : string) :
  let claims := full_payload now duration payload in
  let exp := (now + duration) / 1000 in
  parse_duration expiry = Normal duration ->
  JSON_parse (JSON_stringify (JObject claims)) = Normal (JObject claims) ->
  exists token,
    create_jwt jwt_config now payload (Some expiry) = Normal token /\
    now / 1000 <= exp /\
    forall now',
      (now' / 1000 <= exp ->
       verify_jwt jwt_config now' (js_string token)
       = Normal (valid (JObject claims))) /\
      (exp < now' / 1000 -> exp <> 0 ->
       verify_jwt jwt_config now' (js_string token)
       = Normal (invalid "Token expired")).
Proof.
  intros claims exp Hduration Hjson.
  assert (Hcreate : create_jwt jwt_config now payload (Some expiry)
            = Normal (signed_token jwt_config (JObject claims))).
  { unfold create_jwt.
    destruct (String.eqb expiry EmptyString) eqn:E.
    { apply String.eqb_eq in E. rewrite E in Hduration. discriminate Hduration. }
    now rewrite Hduration. }
  exists (signed_token jwt_config (JObject claims)). split; [exact Hcreate|].
  split.
  { apply Z.div_le_mono; [lia|].
    pose proof (parse_duration_nonneg _ _ Hduration). lia. }
  intros now'.
  pose proof (full_payload_exp now duration payload) as Hexp.
  rewrite (verify_signed_token now' _ _ Hjson Hexp). fold exp.
  split.
  - intros Hle.
    replace (exp <? now' / 1000) with false by (symmetry; apply Z.ltb_ge; lia).
    now rewrite orb_true_r.
  - intros Hlt Hnz. apply Z.eqb_neq in Hnz. apply Z.ltb_lt in Hlt.
    now rewrite Hnz, Hlt.
Qed.

(** X10. A refresh token verifies, until it expires, with the claims
    [sub], [type: 'refresh'] and [session_only] (the negation of
    [stay_logged_in]), then [iat] and [exp].  Without [stay_logged_in] it
    lives 24 hours whatever the configuration; with it, the configured
    [refresh_expiry]. *)
Theorem refresh_token_round_trip (now now' duration : Z) (u : user) (stay : bool) :
  let claims :=
    [("sub", JString (id u)); ("type", JString "refresh");
     ("session_only", JBool (negb stay));
     ("iat", JNumber (now / 1000)); ("exp", JNumber ((now + duration) / 1000))] in
  (if stay then parse_duration (refresh_expiry jwt_config) = Normal duration
   else duration = 24 * 60 * 60 * 1000) ->
  JSON_parse (JSON_stringify (JObject claims)) = Normal (JObject claims) ->
  now' / 1000 <= (now + duration) / 1000 ->
  exists token,
    create_refresh_token jwt_config now u stay = Normal token /\
    verify_jwt jwt_config now' (js_string token) = Normal (valid (JObject claims)).
Proof.
  intros claims Hduration Hjson Hnow.
  assert (Hcreate : create_refresh_token jwt_config now u stay
            = Normal (signed_token jwt_config (JObject claims))).
  { unfold create_refresh_token, create_jwt. destruct stay.
    - destruct (String.eqb (refresh_expiry jwt_config) EmptyString) eqn:E.
      { apply String.eqb_eq in E. rewrite E in Hduration. discriminate Hduration. }
      rewrite Hduration. reflexivity.
    - subst duration. reflexivity. }
  exists (signed_token jwt_config (JObject claims)). split; [exact Hcreate|].
  rewrite (verify_signed_token now' claims ((now + duration) / 1000) Hjson eq_refl).
  replace ((now + duration) / 1000 <? now' / 1000) with false
    by (symmetry; apply Z.ltb_ge; lia).
  now rewrite orb_true_r.
Qed.

End TokenLifetime.

Lemma standard_claims_override_witness :
  assoc "exp"
    (full_payload 1700000000123 900000
       [("sub", JString "7f3c"); ("exp", JNumber 4102444800)])
  = Some (JNumber 1700000900).
Proof.
  exact (proj1 (proj2 (standard_claims_override 1700000000123 900000
                         [("sub", JString "7f3c"); ("exp", JNumber 4102444800)]))).
Defined.

Lemma token_lifetime_witness :
  exists token,
    @create_jwt sample_runtime default_jwt_config 1700000000123
      [("sub", JString "7f3c")] (Some "1h") = Normal token /\
    @verify_jwt sample_runtime default_jwt_config 1700003600999 (js_string token)
    = Normal (valid (JObject [("sub", JString "7f3c");
                              ("iat", JNumber 1700000000);
                              ("exp", JNumber 1700003600)])) /\
    @verify_jwt sample_runtime default_jwt_config 1700003601000 (js_string token)
    = Normal (invalid "Token expired").
Proof.
  destruct (@token_lifetime sample_runtime default_jwt_config
              1700000000123 3600000 [("sub", JString "7f3c")] "1h")
    as (token & Hcreate & _ & Hverify).
  - reflexivity.
  - vm_compute. reflexivity.
  - exists token. split; [exact Hcreate|]. split.
    + apply (proj1 (Hverify 1700003600999)). vm_compute. discriminate.
    + apply (proj2 (Hverify 1700003601000)); vm_compute; congruence.
Defined.

Lemma refresh_token_round_trip_witness :
  exists token,
    @create_refresh_token sample_runtime default_jwt_config 1700000000123
      ada_identity false = Normal token /\
    @verify_jwt sample_runtime default_jwt_config 1700086400000 (js_string token)
    = Normal (valid (JObject
        [("sub", JString "7f3c"); ("type", JString "refresh");
         ("session_only", JBool true);
         ("iat", JNumber 1700000000); ("exp", JNumber 1700086400)])).
Proof.
  apply (@refresh_token_round_trip sample_runtime default_jwt_config
           1700000000123 1700086400000 86400000 ada_identity false).
  - reflexivity.
  - vm_compute. reflexivity.
  - vm_compute. discriminate.
Defined.

(** ** Cookies *)

Section Cookies.

Context {rt : Runtime}.
Variable jwt_config : jwt_configuration.
Variable environment : string.

Lemma get_cookie_options_protected (session_only : bool) (options : cookie) :
  get_cookie_options jwt_config environment session_only = Normal options ->
  httpOnly options = true /\ sameSite options = "strict" /\ path options = "/" /\
  secure options = String.eqb environment "PROD" /\
  (session_only = true -> maxAge options = None) /\
  (session_only = false ->
   parse_duration (refresh_expiry jwt_config) = Normal
     match maxAge options with Some a => a | None => 0 end /\
   maxAge options <> None).
Proof.
  unfold get_cookie_options. destruct session_only.
  - intros [= <-]. cbn. repeat split; intros; discriminate.
  - destruct (parse_duration (refresh_expiry jwt_config)) as [d|]; [|discriminate].
    cbn [bind]. intros [= <-]. cbn. repeat split; intros; discriminate.
Qed.

Lemma access_cookie_protected (token : string) (options : cookie) :
  httpOnly options = true -> sameSite options = "strict" -> path options = "/" ->
  secure options = String.eqb environment "PROD" ->
  protected_cookie environment (access_cookie token options).
Proof. intros. unfold protected_cookie, access_cookie. cbn. now repeat split. Qed.

Lemma refresh_cookie_protected (token : string) (options : cookie) :
  httpOnly options = true -> sameSite options = "strict" -> path options = "/" ->
  secure options = String.eqb environment "PROD" ->
  protected_cookie environment (refresh_cookie token options).
Proof.
  intros. unfold protected_cookie, refresh_cookie. cbn.
  repeat split; try assumption. discriminate.
Qed.

Lemma login_success_cookies (now : Z) (fresh_id : string) (req : login_request)
    (u : user_row) (db : database) :
  let response := fst (login_success jwt_config environment now fresh_id req u db) in
  set_cookies response = [] \/
  exists access_token refresh_token options,
    get_cookie_options jwt_config environment (negb (stay_logged_in req))
      = Normal options /\
    http_status response = 200 /\
    set_cookies response
    = [access_cookie access_token options; refresh_cookie refresh_token options].
Proof.
  unfold login_success.
  set (identity := {| id := u_id u; username := u_username u;
                      is_admin := u_is_admin u; is_verified := u_is_verified u |}).
  assert (Hissue : forall b,
    let response := fst
      match create_access_token jwt_config now identity no_options with
      | Throw _ => (json_response 500 (JObject [("error", JString "Login failed")]), db)
      | Normal access_token =>
          match create_refresh_token jwt_config now identity (stay_logged_in req) with
          | Throw _ =>
              (json_response 500 (JObject [("error", JString "Login failed")]), db)
          | Normal refresh_token =>
              match store_refresh_token jwt_config now fresh_id (u_id u) refresh_token
                      (stay_logged_in req) req db with
              | Throw _ =>
                  (json_response 500 (JObject [("error", JString "Login failed")]), db)
              | Normal db' =>
                  match set_auth_cookies jwt_config environment access_token
                          refresh_token (stay_logged_in req) with
                  | Throw _ =>
                      (json_response 500
                         (JObject [("error", JString "Login failed")]), db')
                  | Normal cookies =>
                      ({| http_status := 200; http_body := b;
                          set_cookies := cookies; cleared_cookies := [] |}, db')
                  end
              end
          end
      end in
    set_cookies response = [] \/
    exists access_token refresh_token options,
      get_cookie_options jwt_config environment (negb (stay_logged_in req))
        = Normal options /\
      http_status response = 200 /\
      set_cookies response
      = [access_cookie access_token options; refresh_cookie refresh_token options]).
  { intros b.
    destruct (create_access_token _ _ _ _) as [access_token|]; [|now left].
    destruct (create_refresh_token _ _ _ _) as [refresh_token|]; [|now left].
    destruct (store_refresh_token _ _ _ _ _ _ _ _) as [db'|]; [|now left].
    unfold set_auth_cookies.
    destruct (get_cookie_options _ _ _) as [options|] eqn:E; [|now left].
    right. exists access_token, refresh_token, options. now repeat split. }
  destruct (deleted_at u) as [deleted|].
  - destruct (deleted_by_admin u); [now left|]. apply Hissue.
  - apply Hissue.
Qed.

(** X11. Every cookie that [/login] and [/refresh] set is protected: it is
    [httpOnly], [sameSite: 'strict'], for path [/], and [secure] exactly
    when [ENVIRONMENT] is [PROD]; the access-token cookie lives 15
    minutes.  [/login] sets no cookie unless it answers 200, and then it
    sets the access token and the refresh token, the latter as a session
    cookie (no [maxAge]) exactly when [stay_logged_in] is off. *)
Theorem auth_cookies_are_protected (now later : Z) (fresh_id : string)
    (req : login_request) (refresh_token : option string) (db : database) :
  let login := fst (post_login jwt_config environment now later fresh_id req db) in
  let refresh := fst (post_refresh jwt_config environment now refresh_token db) in
  Forall (protected_cookie environment) (set_cookies login) /\
  Forall (protected_cookie environment) (set_cookies refresh) /\
  (set_cookies login <> [] ->
   http_status login = 200 /\
   map cookie_name (set_cookies login) = ["access_token"; "refresh_token"] /\
   forall c, In c (set_cookies login) -> cookie_name c = "refresh_token" ->
             (maxAge c = None <-> stay_logged_in req = false)).
Proof.
  intros login refresh.
  assert (Hlogin :
    set_cookies login = [] \/
    exists u db0 access_token refresh_token options,
      login = fst (login_success jwt_config environment now fresh_id req u db0) /\
      get_cookie_options jwt_config environment (negb (stay_logged_in req))
        = Normal options /\
      http_status login = 200 /\
      set_cookies login
      = [access_cookie access_token options; refresh_cookie refresh_token options]).
  { subst login. unfold post_login.
    destruct (body_username req) as [name|]; [|now left].
    destruct (body_password req) as [password|]; [|now left].
    destruct (String.eqb name EmptyString || String.eqb password EmptyString);
      [now left|].
    destruct (find_user name db) as [|u others]; [now left|].
    destruct (check_user_login_block now (rate_limit_login_user db (u_id u)));
      [|now left|now left].
    destruct (verify_password password (password_hash u) (password_salt u)).
    - match goal with
      | |- context [login_success _ _ _ _ _ ?u0 ?db0] =>
          destruct (login_success_cookies now fresh_id req u0 db0)
            as [Hnone|(a & r & o & Ho & Hs & Hc)];
            [now left|right; exists u0, db0, a, r, o; now repeat split]
      end.
    - destruct (record_login_failure now _) as [failure row].
      destruct (blocked failure); now left. }
  split; [|split].
  - destruct Hlogin as [->|(u & db0 & a & r & o & _ & Ho & _ & ->)]; [constructor|].
    destruct (get_cookie_options_protected _ _ Ho) as (H1 & H2 & H3 & H4 & _).
    constructor; [now apply access_cookie_protected|].
    constructor; [now apply refresh_cookie_protected|constructor].
  - subst refresh. unfold post_refresh.
    destruct refresh_token as [token|]; [|constructor].
    destruct (String.eqb token EmptyString); [constructor|].
    destruct (select_refresh_token now (hash_token token) db) as [|[record u] others];
      [constructor|].
    destruct (create_access_token _ _ _ _) as [access_token|]; [|constructor].
    cbn [bind].
    destruct (get_cookie_options jwt_config environment (is_session_only record))
      as [options|] eqn:Ho; [|constructor].
    cbn [bind fst set_cookies].
    destruct (get_cookie_options_protected _ _ Ho) as (H1 & H2 & H3 & H4 & _).
    constructor; [now apply access_cookie_protected|constructor].
  - intros Hsome.
    destruct Hlogin as [E|(u & db0 & a & r & o & _ & Ho & Hs & Hc)];
      [now elim Hsome|].
    split; [exact Hs|]. rewrite Hc. split; [reflexivity|].
    destruct (get_cookie_options_protected _ _ Ho) as (_ & _ & _ & _ & Hses & Hper).
    intros c [<-|[<-|[]]]; cbn [access_cookie refresh_cookie cookie_name maxAge];
      [discriminate|]. intros _.
    destruct (stay_logged_in req); cbn [negb] in *.
    + split; [intros E; now elim (proj2 (Hper eq_refl))|discriminate].
    + split; [reflexivity|intros _; now apply Hses].
Qed.

End Cookies.

(** ** Lockout of a user *)

Section Lockout.

Let threshold := rate_limit_config.login.user.max_consecutive_failures.
Let ladder := rate_limit_config.login.user.block_escalation.

(** Failures in quick succession below the threshold: each one counts,
    none blocks, and the block columns stay as they were. *)
Lemma record_login_failures_below (times : list Z) (r : login_user_row) :
  in_quick_succession (last_failure_at r) times ->
  times <> [] ->
  consecutive_failures r + Z.of_nat (List.length times) < threshold ->
  record_login_failures times (Some r)
  = (repeat not_blocked (List.length times),
     Some {| consecutive_failures :=
               consecutive_failures r + Z.of_nat (List.length times);
             last_failure_at := Some (last times 0);
             blocked_until := blocked_until r;
             block_count := block_count r |}).
Proof.
  revert r. induction times as [|now later IH]; intros r Hquick Hlen Hbelow.
  - now elim Hlen.
  - cbn [in_quick_succession] in Hquick. destruct Hquick as [Hnear Hquick].
    assert (Hup : upsert_login_failure now (Some r)
              = {| consecutive_failures := consecutive_failures r + 1;
                   last_failure_at := Some now;
                   blocked_until := blocked_until r;
                   block_count := block_count r |}).
    { cbn [upsert_login_failure]. unfold decayed.
      destruct (last_failure_at r) as [t|]; [|reflexivity].
      replace (t <? now - thirty_minutes) with false; [reflexivity|].
      symmetry. apply Z.ltb_ge. lia. }
    cbn [record_login_failures].
    rewrite record_login_failure_below_threshold;
      [|rewrite Hup; cbn [consecutive_failures]; fold threshold;
        cbn [List.length] in Hbelow; lia].
    rewrite Hup. destruct later as [|next later'].
    + reflexivity.
    + rewrite IH.
      * cbn [consecutive_failures last_failure_at blocked_until block_count].
        change (last (now :: next :: later') 0) with (last (next :: later') 0).
        cbn [List.length repeat].
        replace (consecutive_failures r + 1 + Z.of_nat (S (List.length later')))
          with (consecutive_failures r + Z.of_nat (S (S (List.length later'))))
          by lia.
        reflexivity.
      * exact Hquick.
      * discriminate.
      * cbn [consecutive_failures]. cbn [List.length] in *. lia.
Qed.

(** X12. Five failed logins in quick succession lock the user out.
    From a row whose count of failures is 0 (or no row), with each failure
    no more than 30 minutes after the one before, the first four are recorded
    without a block; the fifth returns [blocked: true] with the duration
    of the ladder at the row's [block_count] (300, 900, 1800 seconds),
    blocks the user until that time has passed, sets the count of
    failures back to 0 and raises [block_count] by one.  When the ladder
    is used up ([block_count] 3 or more), the fifth failure blocks for
    good: [blocked_until] is [NULL] and the count of failures stays 5. *)
Theorem five_failures_lock_out (t1 t2 t3 t4 t5 : Z)
    (existing : option login_user_row) :
  let count := match existing with Some r => block_count r | None => 0 end in
  match existing with
  | Some r => consecutive_failures r = 0
  | None => True
  end ->
  in_quick_succession None [t1; t2; t3; t4; t5] ->
  0 <= count ->
  let outcome := record_login_failures [t1; t2; t3; t4; t5] existing in
  match get_block_duration count ladder with
  | Seconds d =>
      count < 3 /\ d = nth (Z.to_nat count) ladder 0 /\
      outcome
      = ([not_blocked; not_blocked; not_blocked; not_blocked;
          {| blocked := true; duration := Some d; permanent := false |}],
         Some {| consecutive_failures := 0; last_failure_at := Some t5;
                 blocked_until := Some (t5 + d * 1000);
                 block_count := count + 1 |})
  | Permanent =>
      3 <= count /\
      outcome
      = ([not_blocked; not_blocked; not_blocked; not_blocked;
          {| blocked := true; duration := None; permanent := true |}],
         Some {| consecutive_failures := 5; last_failure_at := Some t5;
                 blocked_until := None; block_count := count + 1 |})
  | Undefined => False
  end.
Proof.
  intros count Hfresh Hquick Hcount outcome.
  cbn [in_quick_succession] in Hquick.
  destruct Hquick as (_ & H2 & H3 & H4 & H5 & _).
  set (bu := match existing with Some r => blocked_until r | None => None end).
  assert (Hfirst : record_login_failure t1 existing
            = (not_blocked,
               {| consecutive_failures := 1; last_failure_at := Some t1;
                  blocked_until := bu; block_count := count |})).
  { rewrite record_login_failure_below_threshold.
    - destruct existing as [r|]; [|reflexivity].
      cbn [upsert_login_failure]. rewrite Hfresh.
      now destruct (decayed t1 (last_failure_at r)).
    - unfold rate_limit_config.login.user.max_consecutive_failures.
      destruct existing as [r|]; [|cbn; lia].
      cbn [upsert_login_failure consecutive_failures]. rewrite Hfresh.
      destruct (decayed t1 (last_failure_at r)); lia. }
  assert (Hnext : record_login_failures [t2; t3; t4]
            (Some {| consecutive_failures := 1; last_failure_at := Some t1;
                     blocked_until := bu; block_count := count |})
            = ([not_blocked; not_blocked; not_blocked],
               Some {| consecutive_failures := 4; last_failure_at := Some t4;
                       blocked_until := bu; block_count := count |})).
  { rewrite record_login_failures_below;
      [reflexivity| |discriminate|reflexivity].
    cbn [in_quick_succession last_failure_at]. tauto. }
  assert (Hrun : forall result row,
            record_login_failure t5
              (Some {| consecutive_failures := 4; last_failure_at := Some t4;
                       blocked_until := bu; block_count := count |})
            = (result, row) ->
            outcome
            = ([not_blocked; not_blocked; not_blocked; not_blocked; result],
               Some row)).
  { intros result row Hfifth. subst outcome.
    change [t1; t2; t3; t4; t5] with ([t1] ++ [t2; t3; t4] ++ [t5])%list.
    cbn [app record_login_failures]. rewrite Hfirst.
    cbn [record_login_failures] in Hnext.
    destruct (record_login_failure t2 _) as [r2 row2].
    destruct (record_login_failure t3 _) as [r3 row3].
    destruct (record_login_failure t4 _) as [r4 row4].
    injection Hnext as -> -> -> ->. now rewrite Hfifth. }
  assert (Hup : upsert_login_failure t5
            (Some {| consecutive_failures := 4; last_failure_at := Some t4;
                     blocked_until := bu; block_count := count |})
            = {| consecutive_failures := 5; last_failure_at := Some t5;
                 blocked_until := bu; block_count := count |}).
  { cbn [upsert_login_failure last_failure_at consecutive_failures
         blocked_until block_count]. unfold decayed.
    replace (t4 <? t5 - thirty_minutes) with false; [reflexivity|].
    symmetry. apply Z.ltb_ge. lia. }
  destruct (get_block_duration count ladder) as [d| |] eqn:Hd.
  - assert (Hrange : count < 3 /\ d = nth (Z.to_nat count) ladder 0).
    { unfold get_block_duration in Hd.
      destruct (count >=? Z.of_nat (List.length ladder)) eqn:E; [discriminate|].
      rewrite Z.geb_leb in E. apply Z.leb_gt in E. cbn in E.
      rewrite array_get_in_range in Hd by (cbn; lia).
      injection Hd as <-. split; [lia|reflexivity]. }
    destruct Hrange as [Hlt Hnth]. split; [exact Hlt|]. split; [exact Hnth|].
    apply Hrun. unfold record_login_failure. rewrite Hup.
    cbn [consecutive_failures block_count last_failure_at]. fold ladder.
    rewrite Hd. reflexivity.
  - split.
    { unfold get_block_duration in Hd.
      destruct (count >=? Z.of_nat (List.length ladder)) eqn:E.
      - apply Z.geb_le in E. cbn in E. lia.
      - destruct (array_get ladder count); discriminate. }
    apply Hrun. unfold record_login_failure. rewrite Hup.
    cbn [consecutive_failures block_count last_failure_at]. fold ladder.
    rewrite Hd. reflexivity.
  - unfold get_block_duration in Hd.
    destruct (count >=? Z.of_nat (List.length ladder)) eqn:E; [discriminate|].
    rewrite Z.geb_leb in E. apply Z.leb_gt in E. cbn in E.
    rewrite array_get_in_range in Hd by (cbn; lia). discriminate.
Qed.

Lemma remaining_seconds_ceiling (now t : Z) :
  (remaining_seconds now t - 1) * 1000 < t - now <= remaining_seconds now t * 1000 /\
  (now < t -> 1 <= remaining_seconds now t) /\
  (t <= now -> remaining_seconds now t <= 0).
Proof.
  unfold remaining_seconds.
  pose proof (Z.div_mod (- (t - now)) 1000 ltac:(lia)) as Hdm.
  pose proof (Z.mod_pos_bound (- (t - now)) 1000 ltac:(lia)) as Hmod.
  lia.
Qed.

End Lockout.

Section BlockedLogin.

Context {rt : Runtime}.
Variable jwt_config : jwt_configuration.
Variable environment : string.

(** X13. While a user is blocked, [/login] refuses every attempt for
    that user, whatever the password: the answer is 429 with
    [retry_after], the password is not verified and nothing is written.
    Such is the block that [record_login_failure] sets: for [duration]
    seconds from the failure that caused it.  [retry_after] is computed
    from a second reading of the clock, after the block was checked: it
    is the time that remains of the block at that reading, in seconds
    rounded up; at least 1 when the block is still running then, and 0
    or less when the block ended between the check and the answer.  From
    the instant the block ends the attempt is no longer refused for
    it. *)
Theorem blocked_login_is_refused (now later failed_at : Z)
    (fresh_id name password : string)
    (req : login_request) (db : database) (u : user_row) (others : list user_row)
    (existing : option login_user_row) (seconds : Z) :
  body_username req = Some name -> name <> EmptyString ->
  body_password req = Some password -> password <> EmptyString ->
  find_user name db = u :: others ->
  duration (fst (record_login_failure failed_at existing)) = Some seconds ->
  rate_limit_login_user db (u_id u)
    = Some (snd (record_login_failure failed_at existing)) ->
  let until := failed_at + seconds * 1000 in
  (now < until ->
   exists retry_after,
     post_login jwt_config environment now later fresh_id req db
     = (json_response 429
          (JObject [("error", JString "Account temporarily locked");
                    ("retry_after", JNumber retry_after)]),
        db) /\
     (retry_after - 1) * 1000 < until - later <= retry_after * 1000 /\
     (later < until -> 1 <= retry_after) /\
     (until <= later -> retry_after <= 0)) /\
  (until <= now ->
   check_user_login_block now (rate_limit_login_user db (u_id u)) = NotBlocked).
Proof.
  intros Hname Hn Hpassword Hp Hfind Hduration Hrow until.
  assert (Hblocked : blocked_until (snd (record_login_failure failed_at existing))
            = Some until).
  { unfold record_login_failure in *.
    destruct (_ >=? _); [|discriminate Hduration].
    destruct (get_block_duration _ _) as [d| |]; try discriminate Hduration.
    cbn in Hduration. injection Hduration as ->. reflexivity. }
  split.
  - intros Hnow. exists (remaining_seconds later until).
    split; [|apply remaining_seconds_ceiling].
    unfold post_login. rewrite Hname, Hpassword.
    apply String.eqb_neq in Hn, Hp. rewrite Hn, Hp. cbn [orb].
    rewrite Hfind, Hrow. unfold check_user_login_block. rewrite Hblocked.
    apply Z.ltb_lt in Hnow. now rewrite Hnow.
  - intros Hnow. rewrite Hrow. unfold check_user_login_block. rewrite Hblocked.
    replace (now <? until) with false; [reflexivity|].
    symmetry. apply Z.ltb_ge. exact Hnow.
Qed.

End BlockedLogin.

Section Escalation.

Lemma record_login_failure_block_count (now : Z) (r : login_user_row) :
  let r' := snd (record_login_failure now (Some r)) in
  block_count r <= block_count r' /\
  (blocked_until r = None -> 4 <= block_count r ->
   blocked_until r' = None /\ 4 <= block_count r').
Proof.
  cbv zeta. unfold record_login_failure.
  set (record := upsert_login_failure now (Some r)).
  assert (Hc : block_count record = block_count r) by reflexivity.
  assert (Hb : blocked_until record = blocked_until r) by reflexivity.
  destruct (consecutive_failures record >=? _).
  - destruct (get_block_duration (block_count record) _) as [d| |] eqn:Hd;
      cbn [snd block_count blocked_until]; rewrite ?Hc, ?Hb.
    + split; [lia|]. intros _ Hfour. exfalso.
      unfold get_block_duration in Hd. rewrite Hc in Hd.
      destruct (block_count r >=? _) eqn:E; [discriminate|].
      rewrite Z.geb_leb in E. apply Z.leb_gt in E. cbn in E. lia.
    + split; [lia|]. intros _ Hfour. split; [reflexivity|lia].
    + split; [lia|]. tauto.
  - cbn [snd]. rewrite Hc, Hb. split; [lia|tauto].
Qed.

Lemma apply_login_user_operation_block_count (r : login_user_row)
    (op : login_user_operation) :
  let r' := apply_login_user_operation r op in
  block_count r <= block_count r' /\
  (blocked_until r = None -> 4 <= block_count r ->
   blocked_until r' = None /\ 4 <= block_count r').
Proof.
  destruct op as [now| |now]; cbn [apply_login_user_operation].
  - apply record_login_failure_block_count.
  - cbn. split; [lia|tauto].
  - cbv zeta. unfold cleanup_login_user.
    destruct (blocked_until r) as [t|] eqn:E.
    + destruct (t <? now); cbn; rewrite ?E; split; try lia; discriminate.
    + rewrite E. split; [lia|tauto].
Qed.

(** X14. The escalation of a user's blocks is never taken back by the
    server itself.  Whatever failures are recorded, successful logins
    reset the count of failures and sweeps clear the blocks that are
    over, [block_count] never decreases, and a user who is permanently
    blocked stays permanently blocked at every later time.  Only the
    administrator's unblock lifts the block: it clears [blocked_until]
    and the failures and sets [block_count] back to 0, so that the user
    is not blocked and the next lockout lasts 300 seconds again. *)
Theorem escalation_is_kept (r : login_user_row) (ops : list login_user_operation) :
  let r' := fold_left apply_login_user_operation ops r in
  block_count r <= block_count r' /\
  (forall now now',
     check_user_login_block now (Some r) = BlockedPermanently ->
     check_user_login_block now' (Some r') = BlockedPermanently) /\
  (forall now, check_user_login_block now (Some (admin_unblock r')) = NotBlocked) /\
  get_block_duration (block_count (admin_unblock r'))
    rate_limit_config.login.user.block_escalation = Seconds 300.
Proof.
  cbv zeta.
  assert (Hfold : block_count r <= block_count (fold_left apply_login_user_operation ops r) /\
                  (blocked_until r = None -> 4 <= block_count r ->
                   blocked_until (fold_left apply_login_user_operation ops r) = None /\
                   4 <= block_count (fold_left apply_login_user_operation ops r))).
  { revert r. induction ops as [|op ops IH]; intros r; cbn [fold_left].
    - split; [lia|tauto].
    - destruct (apply_login_user_operation_block_count r op) as [Hle Hperm].
      destruct (IH (apply_login_user_operation r op)) as [Hle' Hperm'].
      split; [lia|]. intros Hnone Hfour.
      destruct (Hperm Hnone Hfour) as [H1 H2]. now apply Hperm'. }
  destruct Hfold as [Hle Hperm].
  split; [exact Hle|]. split; [|split; [reflexivity|reflexivity]].
  intros now now' Hblocked. unfold check_user_login_block in *.
  destruct (blocked_until r) as [t|] eqn:E.
  { destruct (now <? t); discriminate Hblocked. }
  destruct (block_count r >=? 4) eqn:E4; [|discriminate Hblocked].
  apply Z.geb_le in E4.
  destruct (Hperm eq_refl E4) as [-> Hfour].
  apply Z.geb_le in Hfour. now rewrite Hfour.
Qed.

End Escalation.

Lemma five_failures_lock_out_witness :
  record_login_failures [1000; 2000; 3000; 4000; 5000] None
  = ([not_blocked; not_blocked; not_blocked; not_blocked;
      {| blocked := true; duration := Some 300; permanent := false |}],
     Some {| consecutive_failures := 0; last_failure_at := Some 5000;
             blocked_until := Some 305000; block_count := 1 |}).
Proof.
  pose proof (five_failures_lock_out 1000 2000 3000 4000 5000 None I) as H.
  cbv zeta in H. cbn [get_block_duration] in H.
  apply H.
  - cbn. unfold thirty_minutes. lia.
  - lia.
Defined.

Lemma escalation_is_kept_witness :
  let locked :=
    {| consecutive_failures := 5; last_failure_at := Some 5000;
       blocked_until := None; block_count := 4 |} in
  check_user_login_block 9000000
    (Some (fold_left apply_login_user_operation
             [ResetFailures; CleanupBlock 8000000; RecordFailure 8500000] locked))
  = BlockedPermanently.
Proof.
  intros locked.
  apply (proj1 (proj2 (escalation_is_kept locked
                         [ResetFailures; CleanupBlock 8000000; RecordFailure 8500000]))
               0 9000000).
  reflexivity.
Defined.

(** ** The token bucket at work *)

Section TokenBucket.

Let bucket := inject_Z rate_limit_config.login.ip.bucket_size.

(** The refill, with the rate written as one token per 12 seconds. *)
Lemma refill_rate (now : Z) (r : login_ip_row) :
  tokens (refill_login_ip now bucket (Some r))
  == Qmin 5 (tokens r + inject_Z (now - last_refill r) * (1 # 12000)).
Proof.
  cbn [refill_login_ip tokens]. unfold epoch_seconds.
  change bucket with 5%Q.
  assert (H : tokens r + inject_Z (now - last_refill r) / 1000 / 60 * 5
              == tokens r + inject_Z (now - last_refill r) * (1 # 12000))
    by field.
  rewrite H. reflexivity.
Qed.

Lemma Qle_bool_false (x y : Q) : (y < x)%Q -> Qle_bool x y = false.
Proof.
  intros H. destruct (Qle_bool x y) eqn:E; [|reflexivity].
  apply Qle_bool_iff in E. exfalso. now apply (Qlt_not_le _ _ H).
Qed.

Lemma Qle_bool_true (x y : Q) : (x <= y)%Q -> Qle_bool x y = true.
Proof. apply Qle_bool_iff. Qed.

(** The limiter on a row that is not blocked, by the refilled count. *)
Lemma rate_limit_login_ip_open (now : Z) (cached : option bool) (r : login_ip_row) :
  cached <> Some true ->
  permanent_row (ip_blocked_until r) (ip_block_count r) = false ->
  is_currently_blocked now (ip_blocked_until r) = false ->
  let record := refill_login_ip now bucket (Some r) in
  rate_limit_login_ip now cached (Some r)
  = if Qle_bool 1 (tokens record) then (Next, Some (consume_token record))
    else match get_block_duration (ip_block_count r) login_ip_escalation with
         | Permanent => (TooManyRequests None, Some (block_ip_permanent record))
         | Seconds d =>
             (TooManyRequests (if d =? 0 then None else Some d),
              Some (block_ip_until now d record))
         | Undefined => (Next, Some record)
         end.
Proof.
  intros Hcached Hperm Hblocked record. unfold rate_limit_login_ip.
  assert (is_permanently_blocked cached (ip_blocked_until r) (ip_block_count r) true
          = false) as ->.
  { destruct cached as [[|]|]; [now elim Hcached|reflexivity|exact Hperm]. }
  fold bucket. fold record.
  change (ip_blocked_until record) with (ip_blocked_until r).
  change (ip_block_count record) with (ip_block_count r).
  rewrite Hblocked. now destruct (Qle_bool 1 (tokens record)).
Qed.

(** X15. An address that waits 12 seconds between its login attempts is
    never refused for lack of tokens.  On a row that is not blocked and
    holds no debt ([tokens >= 0]), a request made 12 seconds or more after
    the last refill is let through; the row it leaves holds no debt
    either, is refilled at the time of the request and keeps its block
    columns. *)
Theorem spaced_requests_pass (now : Z) (cached : option bool) (r : login_ip_row) :
  cached <> Some true ->
  permanent_row (ip_blocked_until r) (ip_block_count r) = false ->
  is_currently_blocked now (ip_blocked_until r) = false ->
  (0 <= tokens r)%Q ->
  12000 <= now - last_refill r ->
  exists r',
    rate_limit_login_ip now cached (Some r) = (Next, Some r') /\
    (0 <= tokens r')%Q /\ (tokens r' <= 4)%Q /\
    last_refill r' = now /\
    ip_blocked_until r' = ip_blocked_until r /\
    ip_block_count r' = ip_block_count r.
Proof.
  intros Hcached Hperm Hblocked Hpos Hgap.
  rewrite (rate_limit_login_ip_open now cached r Hcached Hperm Hblocked). cbv zeta.
  assert (Hx : (12000 <= inject_Z (now - last_refill r))%Q).
  { change 12000%Q with (inject_Z 12000). rewrite <- Zle_Qle. exact Hgap. }
  assert (Hone : (1 <= tokens (refill_login_ip now bucket (Some r)))%Q).
  { rewrite refill_rate. apply Q.min_glb; [unfold Qle; simpl; lia|].
    set (x := inject_Z (now - last_refill r)) in *.
    set (t := tokens r) in *. clearbody x t. lra. }
  assert (Hfive : (tokens (refill_login_ip now bucket (Some r)) <= 5)%Q).
  { rewrite refill_rate. apply Q.le_min_l. }
  rewrite (Qle_bool_true _ _ Hone).
  eexists. split; [reflexivity|].
  cbn [consume_token tokens last_refill ip_blocked_until ip_block_count].
  set (t := tokens (refill_login_ip now bucket (Some r))) in *. clearbody t.
  repeat split; try reflexivity; lra.
Qed.

(** The bucket during a burst that began at [t1] with a full bucket: after
    some requests it holds a whole number [c] of tokens plus what has
    dripped in since [t1]. *)
Let bursting (t1 : Z) (c : Z) (r : login_ip_row) : Prop :=
  tokens r == inject_Z c + inject_Z (last_refill r - t1) * (1 # 12000) /\
  t1 <= last_refill r /\
  ip_blocked_until r = None /\ ip_block_count r = 0.

Lemma burst_refill (t1 now c : Z) (r : login_ip_row) :
  bursting t1 c r -> last_refill r <= now -> now - t1 < 12000 -> c <= 4 ->
  tokens (refill_login_ip now bucket (Some r))
  == inject_Z c + inject_Z (now - t1) * (1 # 12000).
Proof.
  intros (Htok & Hstart & _ & _) Hlast Hshort Hc.
  rewrite refill_rate, Htok.
  assert (Hsum : inject_Z c + inject_Z (last_refill r - t1) * (1 # 12000)
                 + inject_Z (now - last_refill r) * (1 # 12000)
                 == inject_Z c + inject_Z (now - t1) * (1 # 12000)).
  { unfold Zminus. rewrite !inject_Z_plus, !inject_Z_opp. ring. }
  rewrite Hsum. apply Q.min_r.
  assert (Hx : (inject_Z (now - t1) < 12000)%Q).
  { change 12000%Q with (inject_Z 12000). rewrite <- Zlt_Qlt. exact Hshort. }
  assert (Hc' : (inject_Z c <= 4)%Q).
  { change 4%Q with (inject_Z 4). rewrite <- Zle_Qle. exact Hc. }
  set (x := inject_Z (now - t1)) in *. set (y := inject_Z c) in *.
  clearbody x y. lra.
Qed.

Lemma burst_passes (t1 now c : Z) (r : login_ip_row) :
  bursting t1 c r -> last_refill r <= now -> now - t1 < 12000 -> 1 <= c <= 4 ->
  exists r',
    rate_limit_login_ip now None (Some r) = (Next, Some r') /\
    bursting t1 (c - 1) r' /\ last_refill r' = now.
Proof.
  intros Hb Hlast Hshort [Hlo Hhi].
  pose proof (burst_refill t1 now c r Hb Hlast Hshort Hhi) as Hrefill.
  destruct Hb as (Htok & Hstart & Hnone & Hzero).
  rewrite (rate_limit_login_ip_open now None r);
    [|discriminate|now rewrite Hnone, Hzero|now rewrite Hnone].
  cbv zeta.
  assert (Hx : (0 <= inject_Z (now - t1))%Q).
  { change 0%Q with (inject_Z 0). rewrite <- Zle_Qle. lia. }
  assert (Hc' : (1 <= inject_Z c)%Q).
  { change 1%Q with (inject_Z 1). rewrite <- Zle_Qle. exact Hlo. }
  rewrite Qle_bool_true.
  2:{ rewrite Hrefill.
      set (x := inject_Z (now - t1)) in *. set (y := inject_Z c) in *.
      clearbody x y. lra. }
  eexists. split; [reflexivity|]. split; [|reflexivity].
  unfold bursting.
  cbn [consume_token tokens last_refill ip_blocked_until ip_block_count
       refill_login_ip].
  repeat split; [|lia|exact Hnone|exact Hzero].
  cbn [refill_login_ip tokens] in Hrefill. rewrite Hrefill.
  replace (c - 1) with (c + -1) by lia. rewrite (inject_Z_plus c (-1)).
  change (inject_Z (-1)) with (- (1))%Q. ring.
Qed.

Lemma burst_refused (t1 now : Z) (r : login_ip_row) :
  bursting t1 0 r -> last_refill r <= now -> now - t1 < 12000 ->
  exists r',
    rate_limit_login_ip now None (Some r) = (TooManyRequests (Some 3600), Some r') /\
    ip_blocked_until r' = Some (now + 3600 * 1000) /\ ip_block_count r' = 1.
Proof.
  intros Hb Hlast Hshort.
  pose proof (burst_refill t1 now 0 r Hb Hlast Hshort ltac:(lia)) as Hrefill.
  destruct Hb as (Htok & Hstart & Hnone & Hzero).
  rewrite (rate_limit_login_ip_open now None r);
    [|discriminate|now rewrite Hnone, Hzero|now rewrite Hnone].
  cbv zeta.
  assert (Hx : (inject_Z (now - t1) < 12000)%Q).
  { change 12000%Q with (inject_Z 12000). rewrite <- Zlt_Qlt. exact Hshort. }
  rewrite Qle_bool_false.
  2:{ rewrite Hrefill. change (inject_Z 0) with 0%Q.
      set (x := inject_Z (now - t1)) in *. clearbody x. lra. }
  rewrite Hzero. cbn [get_block_duration]. eexists. split; [reflexivity|].
  cbn [block_ip_until ip_blocked_until ip_block_count refill_login_ip].
  rewrite Hzero. now split.
Qed.

(** X16. The bucket allows a burst of five to requests that do not
    overlap.  From an address without a row, six login requests within
    less than 12 seconds, each handled to its end before the next one
    arrives: the first five are let through and the sixth is refused with
    [retry_after: 3600]; it blocks the address for an hour and makes the
    first step of the escalation. *)
Theorem burst_of_six (t1 t2 t3 t4 t5 t6 : Z) :
  t1 < t2 < t3 -> t3 < t4 < t5 -> t5 < t6 -> t6 - t1 < 12000 ->
  exists r,
    login_ip_requests [t1; t2; t3; t4; t5; t6] None
    = ([Next; Next; Next; Next; Next; TooManyRequests (Some 3600)], Some r) /\
    ip_blocked_until r = Some (t6 + 3600 * 1000) /\ ip_block_count r = 1.
Proof.
  intros [H12 H23] [H34 H45] H56 Hshort.
  set (r1 := {| tokens := 4; last_refill := t1;
                ip_blocked_until := None; ip_block_count := 0 |}).
  assert (Hfirst : exists r1',
            rate_limit_login_ip t1 None None = (Next, Some r1') /\
            bursting t1 4 r1' /\ last_refill r1' = t1).
  { eexists. split; [reflexivity|]. split; [|reflexivity].
    unfold bursting.
    cbn [consume_token refill_login_ip tokens last_refill ip_blocked_until
         ip_block_count].
    repeat split; [|lia].
    rewrite Z.sub_diag. reflexivity. }
  destruct Hfirst as (r1' & E1 & B1 & L1).
  destruct (burst_passes t1 t2 4 r1' B1) as (r2 & E2 & B2 & L2); [lia|lia|lia|].
  destruct (burst_passes t1 t3 3 r2 B2) as (r3 & E3 & B3 & L3); [lia|lia|lia|].
  destruct (burst_passes t1 t4 2 r3 B3) as (r4 & E4 & B4 & L4); [lia|lia|lia|].
  destruct (burst_passes t1 t5 1 r4 B4) as (r5 & E5 & B5 & L5); [lia|lia|lia|].
  destruct (burst_refused t1 t6 r5 B5) as (r6 & E6 & Hb & Hc); [lia|lia|].
  exists r6. cbn [login_ip_requests].
  rewrite E1, E2, E3, E4, E5, E6. now repeat split.
Qed.

End TokenBucket.

(** ** The cache *)

Section Cache.

Variable V : Type.

Implicit Types (s : MemoryCache.store V) (e : MemoryCache.entry V).

Lemma map_get_set_same (key : string) e s :
  MemoryCache.map_get key (MemoryCache.map_set key e s) = Some e.
Proof.
  induction s as [|[k old] rest IH]; simpl.
  - now rewrite String.eqb_refl.
  - destruct (String.eqb k key) eqn:E; simpl; now rewrite E.
Qed.

Lemma map_get_set_other (key other : string) e s :
  other <> key ->
  MemoryCache.map_get other (MemoryCache.map_set key e s)
  = MemoryCache.map_get other s.
Proof.
  intros Hne. induction s as [|[k old] rest IH]; simpl.
  - apply String.eqb_neq in Hne. rewrite String.eqb_sym. now rewrite Hne.
  - destruct (String.eqb k key) eqn:E; simpl.
    + apply String.eqb_eq in E. subst k.
      apply String.eqb_neq in Hne. rewrite String.eqb_sym. now rewrite Hne.
    + now rewrite IH.
Qed.

Lemma map_get_delete_same (key : string) s :
  MemoryCache.map_get key (MemoryCache.map_delete key s) = None.
Proof.
  unfold MemoryCache.map_delete.
  induction s as [|[k old] rest IH]; simpl; [reflexivity|].
  destruct (String.eqb k key) eqn:E; simpl; [exact IH|now rewrite E].
Qed.

Lemma map_get_delete_other (key other : string) s :
  other <> key ->
  MemoryCache.map_get other (MemoryCache.map_delete key s)
  = MemoryCache.map_get other s.
Proof.
  intros Hne. unfold MemoryCache.map_delete.
  induction s as [|[k old] rest IH]; simpl; [reflexivity|].
  destruct (String.eqb k key) eqn:E; simpl.
  - apply String.eqb_eq in E. subst k.
    apply String.eqb_neq in Hne. rewrite String.eqb_sym, Hne. exact IH.
  - now rewrite IH.
Qed.

Lemma map_get_In (key : string) e s :
  MemoryCache.map_get key s = Some e -> In (key, e) s.
Proof.
  induction s as [|[k old] rest IH]; simpl; [discriminate|].
  destruct (String.eqb k key) eqn:E.
  - apply String.eqb_eq in E. intros [= ->]. left. now subst.
  - intros H. right. now apply IH.
Qed.

Lemma map_get_absent (key : string) s :
  ~ In key (map fst s) -> MemoryCache.map_get key s = None.
Proof.
  intros Hnot. destruct (MemoryCache.map_get key s) as [e|] eqn:E; [|reflexivity].
  exfalso. apply Hnot. apply in_map_iff. exists (key, e).
  split; [reflexivity|now apply map_get_In].
Qed.

(** Looking up a key among the entries a predicate keeps, in a map. *)
Lemma map_get_filter (p : string * MemoryCache.entry V -> bool) (key : string) s :
  unique_keys s ->
  MemoryCache.map_get key (filter p s)
  = match MemoryCache.map_get key s with
    | Some e => if p (key, e) then Some e else None
    | None => None
    end.
Proof.
  unfold unique_keys. induction s as [|[k old] rest IH]; simpl; [reflexivity|].
  intros Hnodup. inversion Hnodup as [|? ? Hnotin Hrest]; subst.
  destruct (String.eqb k key) eqn:E.
  - apply String.eqb_eq in E. subst k.
    destruct (p (key, old)) eqn:P; simpl.
    + now rewrite String.eqb_refl.
    + rewrite (IH Hrest). now rewrite (map_get_absent key rest Hnotin).
  - destruct (p (k, old)); simpl; [rewrite E|]; now apply IH.
Qed.

Lemma keys_filter (p : string * MemoryCache.entry V -> bool) s :
  unique_keys s -> unique_keys (filter p s).
Proof.
  unfold unique_keys. induction s as [|[k old] rest IH]; simpl; intros H; [exact H|].
  inversion H as [|? ? Hnotin Hrest]; subst.
  destruct (p (k, old)); simpl; [|now apply IH].
  constructor; [|now apply IH].
  intros Hin. apply Hnotin. apply in_map_iff in Hin as (x & Hk & Hx).
  apply filter_In in Hx as [Hx _]. apply in_map_iff. now exists x.
Qed.

Lemma keys_map_set (key : string) e s :
  map fst (MemoryCache.map_set key e s)
  = if existsb (fun ke => String.eqb (fst ke) key) s then map fst s
    else (map fst s ++ [key])%list.
Proof.
  induction s as [|[k old] rest IH]; simpl; [reflexivity|].
  destruct (String.eqb k key) eqn:E; simpl; [reflexivity|].
  rewrite IH. now destruct (existsb _ rest).
Qed.

Lemma unique_keys_set (key : string) e s :
  unique_keys s -> unique_keys (MemoryCache.map_set key e s).
Proof.
  unfold unique_keys. rewrite keys_map_set. intros H.
  destruct (existsb _ s) eqn:E; [exact H|].
  apply NoDup_app; [exact H|repeat constructor; intros []|].
  intros k Hin [Hk|[]]. subst k.
  apply in_map_iff in Hin as ([k' e'] & Hk & Hin). simpl in Hk. subst k'.
  assert (existsb (fun ke => String.eqb (fst ke) key) s = true); [|congruence].
  apply existsb_exists. exists (key, e'). split; [exact Hin|apply String.eqb_refl].
Qed.

Lemma in_map_set (key : string) e e' s :
  In (key, e) (MemoryCache.map_set key e' s) -> e = e' \/ In (key, e) s.
Proof.
  induction s as [|[k old] rest IH]; simpl.
  - intros [[= ->]|[]]. now left.
  - destruct (String.eqb k key) eqn:E.
    + intros [[= _ ->]|Hin]; [now left|right; now right].
    + intros [Hin|Hin]; [right; now left|].
      destruct (IH Hin) as [->|H]; [now left|right; now right].
Qed.

(** X17. What [set] stores, [get] returns until the entry expires, and
    not after.  An entry set with a time to live of [ttl] milliseconds is
    returned at every time up to and including [now + ttl]; at a later
    time [get] returns [undefined] and removes the entry.  With no time
    to live, or one of 0, the entry never expires.  The other keys are
    not affected, and a map stays a map. *)
Theorem cache_get_after_set (key : string) (v : V) (ttl_ms : option Z)
    (now now' : Z) s :
  let s' := MemoryCache.set key v ttl_ms now s in
  (match ttl_ms with
   | Some ttl => ttl = 0 \/ now' <= now + ttl
   | None => True
   end ->
   MemoryCache.get key now' s' = (Some v, s')) /\
  (forall ttl, ttl_ms = Some ttl -> ttl <> 0 -> now + ttl <> 0 -> now + ttl < now' ->
     MemoryCache.get key now' s' = (None, MemoryCache.map_delete key s') /\
     forall later,
       fst (MemoryCache.get key later (MemoryCache.map_delete key s')) = None) /\
  (forall other, other <> key ->
     fst (MemoryCache.get other now' s') = fst (MemoryCache.get other now' s)) /\
  (unique_keys s -> unique_keys s').
Proof.
  intros s'. subst s'. unfold MemoryCache.set.
  split; [|split; [|split]].
  - intros Hlive. unfold MemoryCache.get. rewrite map_get_set_same.
    unfold MemoryCache.expired. cbn [MemoryCache.expires_at MemoryCache.value].
    destruct ttl_ms as [ttl|]; [|reflexivity].
    destruct (ttl =? 0) eqn:E; [reflexivity|].
    destruct Hlive as [->|Hle]; [discriminate E|].
    replace (now + ttl <? now') with false by (symmetry; apply Z.ltb_ge; lia).
    now rewrite andb_false_r.
  - intros ttl -> Hnz Hsum Hlate. split.
    + unfold MemoryCache.get. rewrite map_get_set_same.
      unfold MemoryCache.expired. cbn [MemoryCache.expires_at].
      apply Z.eqb_neq in Hnz, Hsum. rewrite Hnz. cbn [MemoryCache.expires_at].
      rewrite Hsum. apply Z.ltb_lt in Hlate. now rewrite Hlate.
    + intros later. unfold MemoryCache.get. now rewrite map_get_delete_same.
  - intros other Hne. unfold MemoryCache.get.
    rewrite map_get_set_other by exact Hne.
    destruct (MemoryCache.map_get other s) as [e|]; [|reflexivity].
    now destruct (MemoryCache.expired now' e).
  - apply unique_keys_set.
Qed.

Lemma expired_later (now now' : Z) e :
  now <= now' -> MemoryCache.expired now e = true ->
  MemoryCache.expired now' e = true.
Proof.
  unfold MemoryCache.expired. intros Hle.
  destruct (MemoryCache.expires_at e) as [t|]; [|discriminate].
  destruct (t =? 0); [discriminate|]. cbn [negb andb].
  intros H. apply Z.ltb_lt in H. apply Z.ltb_lt. lia.
Qed.

(** X18. [cleanup] removes the expired entries and nothing else, and no
    lookup can tell: at the time of the sweep and at every later time,
    [get] returns for every key what it would have returned without the
    sweep.  [size], which counts expired entries that are still stored,
    can only go down. *)
Theorem cache_cleanup_is_invisible (swept now : Z) (key : string) s :
  unique_keys s -> swept <= now ->
  let s' := MemoryCache.cleanup swept s in
  fst (MemoryCache.get key now s') = fst (MemoryCache.get key now s) /\
  Forall (fun ke => MemoryCache.expired swept (snd ke) = false) s' /\
  (forall ke, In ke s -> MemoryCache.expired swept (snd ke) = false -> In ke s') /\
  (MemoryCache.size s' <= MemoryCache.size s)%nat /\
  unique_keys s'.
Proof.
  intros Huniq Hle s'. subst s'. unfold MemoryCache.cleanup.
  split; [|split; [|split; [|split]]].
  - unfold MemoryCache.get. rewrite (map_get_filter _ key s Huniq).
    destruct (MemoryCache.map_get key s) as [e|]; [|reflexivity].
    cbn [snd]. destruct (MemoryCache.expired swept e) eqn:E; cbn [negb].
    + now rewrite (expired_later swept now e Hle E).
    + now destruct (MemoryCache.expired now e).
  - apply Forall_forall. intros ke Hin. apply filter_In in Hin as [_ H].
    now apply negb_true_iff in H.
  - intros ke Hin Hlive. apply filter_In. split; [exact Hin|].
    now rewrite Hlive.
  - apply List.filter_length_le.
  - now apply keys_filter.
Qed.

End Cache.

Section CachePersistence.

Variable V : Type.

Implicit Types (s : MemoryCache.store V) (e : MemoryCache.entry V).

Lemma map_get_load_all (now : Z) (key : string)
    (data : list (string * MemoryCache.entry V)) s :
  NoDup (map fst data) ->
  MemoryCache.map_get key (MemoryCache.load_all now data s)
  = match MemoryCache.map_get key data with
    | Some e => if MemoryCache.persistable now e then Some e
                else MemoryCache.map_get key s
    | None => MemoryCache.map_get key s
    end.
Proof.
  unfold MemoryCache.load_all. revert s.
  induction data as [|[k e] rest IH]; intros s Hnodup; [reflexivity|].
  cbn [fold_left fst snd MemoryCache.map_get map] in *.
  inversion Hnodup as [|? ? Hnotin Hrest]; subst.
  rewrite (IH _ Hrest).
  destruct (String.eqb k key) eqn:E.
  - apply String.eqb_eq in E. subst k.
    rewrite (map_get_absent V key rest Hnotin).
    destruct (MemoryCache.persistable now e); [apply map_get_set_same|reflexivity].
  - assert (Hne : key <> k) by (intros ->; now rewrite String.eqb_refl in E).
    assert (Hacc : MemoryCache.map_get key
                     (if MemoryCache.persistable now e
                      then MemoryCache.map_set k e s else s)
                   = MemoryCache.map_get key s).
    { destruct (MemoryCache.persistable now e); [|reflexivity].
      now apply map_get_set_other. }
    now rewrite Hacc.
Qed.

Lemma map_get_of_In (key : string) e s :
  NoDup (map fst s) -> In (key, e) s -> MemoryCache.map_get key s = Some e.
Proof.
  induction s as [|[k old] rest IH]; simpl; [intros _ []|].
  intros Hnodup Hin. inversion Hnodup as [|? ? Hnotin Hrest]; subst.
  destruct Hin as [[= -> ->]|Hin].
  - now rewrite String.eqb_refl.
  - destruct (String.eqb k key) eqn:E; [|now apply IH].
    apply String.eqb_eq in E. subst k. exfalso. apply Hnotin.
    apply in_map_iff. now exists (key, e).
Qed.

(** In an object, the order of the properties does not matter to a
    lookup. *)
Lemma map_get_permutation (key : string) s s' :
  NoDup (map fst s) -> Permutation s' s ->
  MemoryCache.map_get key s' = MemoryCache.map_get key s.
Proof.
  intros Hnodup Hperm.
  assert (Hnodup' : NoDup (map fst s')).
  { apply (Permutation_NoDup (l := map fst s)); [|exact Hnodup].
    apply Permutation_map. now apply Permutation_sym. }
  destruct (MemoryCache.map_get key s) as [e|] eqn:E.
  - apply map_get_of_In; [exact Hnodup'|].
    apply (Permutation_in (l := s)); [now apply Permutation_sym|].
    now apply map_get_In.
  - destruct (MemoryCache.map_get key s') as [e|] eqn:E'; [|reflexivity].
    apply map_get_In in E'.
    apply (Permutation_in (l' := s) _ Hperm) in E'.
    rewrite (map_get_of_In key e s Hnodup E') in E. discriminate E.
Qed.

(** X19. What [get_all] hands over for persistence at shutdown and
    [load_all] receives at startup answers every later lookup as the
    cache would have, had the server not stopped: for the entries
    [get_all] selects at one time, loaded by [load_all] in any order into
    an empty cache at a later time, [get] at any time after the load
    returns what it would have returned from the original cache.  The
    one exception is the key [__proto__], which [get_all] never hands
    over. *)
Theorem cache_restore_after_persist (persisted restored now : Z) (key : string) s
    (data : list (string * MemoryCache.entry V)) :
  unique_keys s -> persisted <= restored -> restored < now ->
  Permutation data (MemoryCache.get_all persisted s) ->
  let s' := MemoryCache.load_all restored data [] in
  (key <> "__proto__" ->
   fst (MemoryCache.get key now s') = fst (MemoryCache.get key now s)) /\
  fst (MemoryCache.get "__proto__" now s') = None.
Proof.
  intros Huniq Hle Hlt Hdata s'. subst s'.
  assert (Hsnapshot : NoDup (map fst (MemoryCache.get_all persisted s)))
    by now apply keys_filter.
  assert (Hnodup : NoDup (map fst data)).
  { apply (Permutation_NoDup (l := map fst (MemoryCache.get_all persisted s)));
      [|exact Hsnapshot].
    apply Permutation_map. now apply Permutation_sym. }
  assert (Hget : forall k,
            MemoryCache.map_get k (MemoryCache.load_all restored data [])
            = match MemoryCache.map_get k s with
              | Some e =>
                  if MemoryCache.persistable persisted e
                     && negb (String.eqb k "__proto__")
                     && MemoryCache.persistable restored e
                  then Some e else None
              | None => None
              end).
  { intros k. rewrite (map_get_load_all restored k _ [] Hnodup).
    rewrite (map_get_permutation k _ _ Hsnapshot Hdata).
    unfold MemoryCache.get_all. rewrite (map_get_filter V _ k s Huniq).
    cbn [fst snd MemoryCache.map_get].
    destruct (MemoryCache.map_get k s) as [e|]; [|reflexivity].
    destruct (MemoryCache.persistable persisted e && negb (String.eqb k "__proto__"));
      [|reflexivity].
    now destruct (MemoryCache.persistable restored e). }
  split.
  - intros Hkey. unfold MemoryCache.get. rewrite Hget.
    apply String.eqb_neq in Hkey. rewrite Hkey. cbn [negb].
    destruct (MemoryCache.map_get key s) as [e|]; [|reflexivity].
    rewrite andb_true_r.
    assert (Hc : MemoryCache.persistable persisted e
                 && MemoryCache.persistable restored e = true
                 \/ MemoryCache.expired now e = true).
    { unfold MemoryCache.persistable, MemoryCache.expired.
      destruct (MemoryCache.expires_at e) as [t|]; [|now left].
      destruct (t =? 0); [now left|]. cbn [orb negb andb].
      destruct (t <? now) eqn:Hexp; [now right|left].
      apply Z.ltb_ge in Hexp.
      replace (persisted <? t) with true by (symmetry; apply Z.ltb_lt; lia).
      replace (restored <? t) with true by (symmetry; apply Z.ltb_lt; lia).
      reflexivity. }
    destruct Hc as [Hc|Hc].
    + rewrite Hc. now destruct (MemoryCache.expired now e).
    + destruct (_ && _); rewrite ?Hc; reflexivity.
  - unfold MemoryCache.get. rewrite Hget.
    destruct (MemoryCache.map_get "__proto__" s) as [e|]; [|reflexivity].
    rewrite String.eqb_refl. cbn [negb]. now rewrite andb_false_r.
Qed.

End CachePersistence.

(** ** The limiter and its cache *)

Section CachedLimiter.

Let bucket := inject_Z rate_limit_config.login.ip.bucket_size.

Lemma permanently_blocked_spec (existing : option login_ip_row) :
  is_permanently_blocked None
    match existing with Some r => ip_blocked_until r | None => None end
    match existing with Some r => ip_block_count r | None => 0 end
    match existing with Some _ => true | None => false end
  = permanently_blocked existing.
Proof. now destruct existing. Qed.

(** A temporary block is set on the first three steps of the ladder
    only. *)
Lemma temporary_block_step (count d : Z) :
  get_block_duration count login_ip_escalation = Seconds d -> count < 3.
Proof.
  unfold get_block_duration.
  destruct (count >=? Z.of_nat (List.length login_ip_escalation)) eqn:E;
    [discriminate|].
  rewrite Z.geb_leb in E. apply Z.leb_gt in E. cbn in E. lia.
Qed.

Lemma permanent_block_step (count : Z) :
  get_block_duration count login_ip_escalation = Permanent -> 3 <= count.
Proof.
  unfold get_block_duration.
  destruct (count >=? Z.of_nat (List.length login_ip_escalation)) eqn:E.
  - apply Z.geb_le in E. cbn in E. lia.
  - destruct (array_get _ _); discriminate.
Qed.

(** X20. The cache never changes what the limiter decides.  As long as
    the answers kept in the cache are those of the database, which holds
    at the start (an empty cache) and which every request and every sweep
    preserves, a login request is decided, and the row of its address is
    written, exactly as it would be with the answer of the database
    itself; in particular the permanent block, which deletes the cached
    answer, is seen by the very next request. *)
Theorem cache_is_transparent (now : Z) (ip : string)
    (cache : MemoryCache.store bool) (existing : option login_ip_row) :
  cache_agrees ip cache existing ->
  let outcome := fst (fst (rate_limit_login_ip_cached now ip cache existing)) in
  let cache' := snd (fst (rate_limit_login_ip_cached now ip cache existing)) in
  let row' := snd (rate_limit_login_ip_cached now ip cache existing) in
  (outcome, row') = rate_limit_login_ip now None existing /\
  cache_agrees ip cache' row' /\
  (unique_keys cache -> unique_keys cache') /\
  (forall swept r, existing = Some r ->
     cache_agrees ip (MemoryCache.cleanup swept cache)
                  (Some (cleanup_login_ip swept r))) /\
  cache_agrees ip [] None.
Proof.
  unfold cache_agrees.
  set (cache_key := permanent_cache_key "rate_limit_login_ip" ip).
  intros [Hvalue Hbound].
  (* the lookup *)
  assert (Hhit : exists hit cache1,
            MemoryCache.get cache_key now cache = (hit, cache1) /\
            (forall b, hit = Some b -> b = permanently_blocked existing) /\
            (forall e, In (cache_key, e) cache1 ->
                       MemoryCache.value e = permanently_blocked existing) /\
            (unique_keys cache -> unique_keys cache1)).
  { unfold MemoryCache.get.
    destruct (MemoryCache.map_get cache_key cache) as [e|] eqn:E.
    - destruct (MemoryCache.expired now e).
      + exists None, (MemoryCache.map_delete cache_key cache).
        split; [reflexivity|]. split; [discriminate|]. split.
        * intros e' Hin. apply Hvalue.
          now apply filter_In in Hin as [Hin _].
        * apply keys_filter.
      + exists (Some (MemoryCache.value e)), cache.
        split; [reflexivity|]. split; [|split; [exact Hvalue|tauto]].
        intros b [= <-]. apply Hvalue. now apply map_get_In.
    - exists None, cache. split; [reflexivity|].
      split; [discriminate|]. split; [exact Hvalue|tauto]. }
  destruct Hhit as (hit & cache1 & Hget & Hhit & Hvalue1 & Huniq1).
  set (present := match existing with Some _ => true | None => false end).
  set (bu := match existing with Some r => ip_blocked_until r | None => None end).
  set (bc := match existing with Some r => ip_block_count r | None => 0 end).
  assert (Hblocked : is_permanently_blocked hit bu bc present
                     = permanently_blocked existing).
  { destruct hit as [b|]; [now apply Hhit|apply permanently_blocked_spec]. }
  set (cache2 := match hit with
                 | Some _ => cache1
                 | None => MemoryCache.set cache_key
                             (is_permanently_blocked hit bu bc present)
                             (Some 60000) now cache1
                 end).
  assert (Hvalue2 : forall e, In (cache_key, e) cache2 ->
                      MemoryCache.value e = permanently_blocked existing).
  { subst cache2. destruct hit; [exact Hvalue1|].
    intros e Hin. unfold MemoryCache.set in Hin.
    destruct (in_map_set bool cache_key e _ cache1 Hin) as [->|Hold];
      [exact Hblocked|now apply Hvalue1]. }
  assert (Huniq2 : unique_keys cache -> unique_keys cache2).
  { intros H. subst cache2. destruct hit; [now apply Huniq1|].
    apply unique_keys_set. now apply Huniq1. }
  assert (Hrun : rate_limit_login_ip_cached now ip cache existing
            = if permanently_blocked existing
              then (TooManyRequests None, cache2, existing)
              else
                let record := refill_login_ip now bucket existing in
                if is_currently_blocked now (ip_blocked_until record) then
                  (TooManyRequests
                     (option_map (remaining_seconds now) (ip_blocked_until record)),
                   cache2, Some record)
                else if negb (Qle_bool 1%Q (tokens record)) then
                  match get_block_duration (ip_block_count record)
                          login_ip_escalation with
                  | Permanent =>
                      (TooManyRequests None,
                       snd (MemoryCache.delete cache_key cache2),
                       Some (block_ip_permanent record))
                  | Seconds d =>
                      (TooManyRequests (if d =? 0 then None else Some d), cache2,
                       Some (block_ip_until now d record))
                  | Undefined => (Next, cache2, Some record)
                  end
                else (Next, cache2, Some (consume_token record))).
  { unfold rate_limit_login_ip_cached. fold cache_key. rewrite Hget.
    fold present bu bc. fold cache2. rewrite Hblocked. reflexivity. }
  assert (Hplain : rate_limit_login_ip now None existing
            = if permanently_blocked existing
              then (TooManyRequests None, existing)
              else
                let record := refill_login_ip now bucket existing in
                if is_currently_blocked now (ip_blocked_until record) then
                  (TooManyRequests
                     (option_map (remaining_seconds now) (ip_blocked_until record)),
                   Some record)
                else if negb (Qle_bool 1%Q (tokens record)) then
                  match get_block_duration (ip_block_count record)
                          login_ip_escalation with
                  | Permanent =>
                      (TooManyRequests None, Some (block_ip_permanent record))
                  | Seconds d =>
                      (TooManyRequests (if d =? 0 then None else Some d),
                       Some (block_ip_until now d record))
                  | Undefined => (Next, Some record)
                  end
                else (Next, Some (consume_token record))).
  { unfold rate_limit_login_ip. rewrite permanently_blocked_spec. reflexivity. }
  assert (Hrecord : permanently_blocked existing = false ->
            permanently_blocked (Some (refill_login_ip now bucket existing)) = false /\
            (forall t, ip_blocked_until (refill_login_ip now bucket existing) = Some t ->
                       ip_block_count (refill_login_ip now bucket existing) <= 3)).
  { intros Hfree. destruct existing as [r|].
    - split; [exact Hfree|]. intros t Ht. now apply (Hbound r t).
    - split; [reflexivity|]. discriminate. }
  clearbody cache2. clear Hget Hhit Hvalue1 Huniq1 Hblocked.
  cbv zeta. rewrite Hrun, Hplain. clear Hrun Hplain.
  split; [|split; [|split; [|split]]].
  - destruct (permanently_blocked existing); [reflexivity|]. cbv zeta.
    destruct (is_currently_blocked _ _); [reflexivity|].
    destruct (negb _); [|reflexivity].
    now destruct (get_block_duration _ _).
  - destruct (permanently_blocked existing) eqn:Hfree.
    { cbn [fst snd]. rewrite Hfree. split; [exact Hvalue2|exact Hbound]. }
    destruct (Hrecord eq_refl) as [Hfalse Hthree].
    set (record := refill_login_ip now bucket existing) in *. cbv zeta.
    destruct (is_currently_blocked now (ip_blocked_until record)).
    { cbn [fst snd]. split.
      - intros e He. rewrite Hfalse. now apply Hvalue2.
      - intros r t [= <-]. apply Hthree. }
    destruct (negb (Qle_bool 1 (tokens record))).
    + destruct (get_block_duration (ip_block_count record) login_ip_escalation)
        as [d| |] eqn:Hd; cbn [fst snd].
      * split.
        -- intros e He. cbn. now apply Hvalue2.
        -- intros r t [= <-] _. cbn.
           pose proof (temporary_block_step _ _ Hd). lia.
      * split.
        -- intros e Hin. cbn [MemoryCache.delete snd] in Hin.
           apply filter_In in Hin as [_ Hne]. cbn [fst] in Hne.
           now rewrite String.eqb_refl in Hne.
        -- intros r t [= <-]. discriminate.
      * split.
        -- intros e He. rewrite Hfalse. now apply Hvalue2.
        -- intros r t [= <-]. apply Hthree.
    + cbn [fst snd]. split.
      * intros e He.
        change (permanently_blocked (Some (consume_token record)))
          with (permanently_blocked (Some record)).
        rewrite Hfalse. now apply Hvalue2.
      * intros r t [= <-]. apply Hthree.
  - intros Huniq. pose proof (Huniq2 Huniq) as H2.
    destruct (permanently_blocked existing); [exact H2|]. cbv zeta.
    destruct (is_currently_blocked _ _); [exact H2|].
    destruct (negb _); [|exact H2].
    destruct (get_block_duration _ _); try exact H2.
    cbn [fst snd MemoryCache.delete]. now apply keys_filter.
  - intros swept r ->. split.
    + intros e Hin. apply filter_In in Hin as [Hin _].
      assert (Hsame : permanently_blocked (Some (cleanup_login_ip swept r))
                      = permanently_blocked (Some r)).
      { unfold cleanup_login_ip, permanently_blocked.
        destruct (ip_blocked_until r) as [t|] eqn:Et; [|now rewrite Et].
        destruct (t <? swept); [|now rewrite Et].
        cbn [ip_blocked_until ip_block_count permanent_row].
        pose proof (Hbound r t eq_refl Et) as Hle.
        apply Z.leb_gt. lia. }
      rewrite Hsame. now apply Hvalue.
    + intros r' t [= <-]. unfold cleanup_login_ip.
      destruct (ip_blocked_until r) as [t'|] eqn:Et.
      * destruct (t' <? swept); cbn; [discriminate|].
        rewrite Et. intros _. now apply (Hbound r t').
      * rewrite Et. discriminate.
  - split; [intros e []|discriminate].
Qed.

End CachedLimiter.

Section PermanentIpBlock.

Let bucket := inject_Z rate_limit_config.login.ip.bucket_size.


End PermanentIpBlock.

Lemma spaced_requests_pass_witness :
  fst (rate_limit_login_ip 13000 None
         (Some {| tokens := 0; last_refill := 1000;
                  ip_blocked_until := None; ip_block_count := 0 |}))
  = Next.
Proof.
  destruct (spaced_requests_pass 13000 None
              {| tokens := 0; last_refill := 1000;
                 ip_blocked_until := None; ip_block_count := 0 |})
    as (r' & Hrun & _).
  - discriminate.
  - reflexivity.
  - reflexivity.
  - unfold Qle. simpl. lia.
  - simpl. lia.
  - now rewrite Hrun.
Defined.

Lemma burst_of_six_witness :
  fst (login_ip_requests [1000; 1001; 1002; 1003; 1004; 1005] None)
  = [Next; Next; Next; Next; Next; TooManyRequests (Some 3600)].
Proof.
  destruct (burst_of_six 1000 1001 1002 1003 1004 1005) as (r & Hrun & _);
    try lia.
  now rewrite Hrun.
Defined.

Lemma cache_get_after_set_witness :
  MemoryCache.get "rate_limit_login_ip:permanent:192.0.2.7" 61000
    (MemoryCache.set "rate_limit_login_ip:permanent:192.0.2.7" false
       (Some 60000) 1000 [])
  = (Some false,
     [("rate_limit_login_ip:permanent:192.0.2.7",
       MemoryCache.mk_entry false (Some 61000))]) /\
  fst (MemoryCache.get "rate_limit_login_ip:permanent:192.0.2.7" 61001
         (MemoryCache.set "rate_limit_login_ip:permanent:192.0.2.7" false
            (Some 60000) 1000 []))
  = None.
Proof.
  pose proof (cache_get_after_set bool "rate_limit_login_ip:permanent:192.0.2.7"
                false (Some 60000) 1000 61000 []) as (Hlive & _).
  pose proof (cache_get_after_set bool "rate_limit_login_ip:permanent:192.0.2.7"
                false (Some 60000) 1000 61001 []) as (_ & Hdead & _).
  split.
  - apply Hlive. right. lia.
  - destruct (Hdead 60000 eq_refl) as [Hget _]; try lia. now rewrite Hget.
Defined.

Lemma cache_cleanup_is_invisible_witness :
  fst (MemoryCache.get "a" 5000
         (MemoryCache.cleanup 4000
            [("a", MemoryCache.mk_entry true (Some 3000));
             ("b", MemoryCache.mk_entry false None)]))
  = fst (MemoryCache.get "a" 5000
           [("a", MemoryCache.mk_entry true (Some 3000));
            ("b", MemoryCache.mk_entry false None)]).
Proof.
  apply (cache_cleanup_is_invisible bool 4000 5000 "a"
           [("a", MemoryCache.mk_entry true (Some 3000));
            ("b", MemoryCache.mk_entry false None)]).
  - repeat constructor; simpl; intuition discriminate.
  - lia.
Defined.

Lemma cache_restore_after_persist_witness :
  fst (MemoryCache.get "a" 5000
         (MemoryCache.load_all 4000
            [("10", MemoryCache.mk_entry false None);
             ("a", MemoryCache.mk_entry true (Some 9000))]
            []))
  = Some true.
Proof.
  rewrite (proj1 (cache_restore_after_persist bool 2000 4000 5000 "a"
                    [("a", MemoryCache.mk_entry true (Some 9000));
                     ("b", MemoryCache.mk_entry false (Some 1000));
                     ("10", MemoryCache.mk_entry false None)]
                    [("10", MemoryCache.mk_entry false None);
                     ("a", MemoryCache.mk_entry true (Some 9000))]
                    ltac:(repeat constructor; simpl; intuition discriminate)
                    ltac:(lia) ltac:(lia)
                    ltac:(apply perm_swap))); [reflexivity|discriminate].
Defined.

Lemma cache_is_transparent_witness :
  fst (fst (rate_limit_login_ip_cached 1000 "192.0.2.7" [] None)) = Next /\
  cache_agrees "192.0.2.7"
    (snd (fst (rate_limit_login_ip_cached 1000 "192.0.2.7" [] None)))
    (snd (rate_limit_login_ip_cached 1000 "192.0.2.7" [] None)).
Proof.
  destruct (cache_is_transparent 1000 "192.0.2.7" [] None) as (Hsame & Hagree & _).
  - split; [intros e []|discriminate].
  - split; [|exact Hagree].
    now apply (f_equal fst) in Hsame.
Defined.


(** ** Registrations *)

Section Registration.

Let limit := rate_limit_config.registration.max_per_day.
Let ladder := rate_limit_config.registration.block_escalation.

(** The limiter on a row that no block holds back, by the count of the
    window. *)
Lemma rate_limit_registration_open (now : Z) (r : registration_row) :
  permanent_row (reg_blocked_until r) (reg_block_count r) = false ->
  is_currently_blocked now (reg_blocked_until r) = false ->
  let record := upsert_registration now (Some r) in
  rate_limit_registration now None (Some r)
  = if limit <? request_count record then
      match get_block_duration (reg_block_count r) ladder with
      | Permanent =>
          (Refused
             (JObject [("error", JString "Too many registration attempts");
                       ("message", JString "This IP has been permanently blocked");
                       ("retry_after", JNull)]),
           Some {| request_count := request_count record;
                   window_start := window_start record;
                   reg_blocked_until := None;
                   reg_block_count := reg_block_count r + 1 |})
      | Seconds d =>
          (Refused (too_many_registrations d),
           Some {| request_count := request_count record;
                   window_start := window_start record;
                   reg_blocked_until := Some (now + d * 1000);
                   reg_block_count := reg_block_count r + 1 |})
      | Undefined => (Proceed, Some record)
      end
    else (Proceed, Some record).
Proof.
  intros Hperm Hblocked record. unfold rate_limit_registration.
  cbn [is_permanently_blocked andb]. rewrite Hperm. fold record.
  assert (Hbu : reg_blocked_until record = reg_blocked_until r).
  { subst record. unfold upsert_registration. now destruct (_ <? _). }
  assert (Hbc : reg_block_count record = reg_block_count r).
  { subst record. unfold upsert_registration. now destruct (_ <? _). }
  rewrite Hbu, Hbc, Hblocked. reflexivity.
Qed.

Lemma registration_requests_app (a b : list Z) (existing : option registration_row) :
  registration_requests (a ++ b) existing
  = (fst (registration_requests a existing)
     ++ fst (registration_requests b (snd (registration_requests a existing))),
     snd (registration_requests b (snd (registration_requests a existing))))%list.
Proof.
  revert existing. induction a as [|now a IH]; intros existing.
  - cbn. now destruct (registration_requests b existing).
  - cbn [app registration_requests].
    destruct (rate_limit_registration now None existing) as [outcome row].
    rewrite IH. destruct (registration_requests a row) as [outcomes final].
    reflexivity.
Qed.

(** Requests within the window and within the limit are let through and
    counted. *)
Lemma registration_requests_within (times : list Z) (r : registration_row) :
  reg_blocked_until r = None -> reg_block_count r < 4 ->
  Forall (fun t => t <= window_start r + one_day) times ->
  request_count r + Z.of_nat (List.length times) <= limit ->
  registration_requests times (Some r)
  = (repeat Proceed (List.length times),
     Some {| request_count := request_count r + Z.of_nat (List.length times);
             window_start := window_start r;
             reg_blocked_until := None;
             reg_block_count := reg_block_count r |}).
Proof.
  revert r. induction times as [|now later IH]; intros r Hnone Hcount Hwindow Hlimit.
  - cbn. rewrite Z.add_0_r. destruct r; cbn in *. now subst.
  - inversion Hwindow as [|? ? Hnow Hlater]; subst.
    cbn [registration_requests].
    rewrite rate_limit_registration_open;
      [|rewrite Hnone; cbn; apply Z.leb_gt; lia|now rewrite Hnone].
    cbv zeta.
    assert (Hup : upsert_registration now (Some r)
              = {| request_count := request_count r + 1;
                   window_start := window_start r;
                   reg_blocked_until := None;
                   reg_block_count := reg_block_count r |}).
    { unfold upsert_registration.
      replace (window_start r <? now - one_day) with false
        by (symmetry; apply Z.ltb_ge; lia).
      now rewrite Hnone. }
    rewrite Hup. cbn [request_count].
    replace (limit <? request_count r + 1) with false
      by (symmetry; apply Z.ltb_ge; cbn [List.length] in Hlimit; lia).
    cbn [List.length] in Hlimit.
    rewrite IH;
      cbn [reg_blocked_until reg_block_count window_start request_count];
      [|reflexivity|exact Hcount|exact Hlater|lia].
    cbn [List.length repeat]. do 3 f_equal. lia.
Qed.

(** X22. An address may register 20 times in one day.  From an address
    without a row, the first request opens a window of one day; the
    requests made in that window are let through up to the twentieth.
    The twenty-first is refused with [retry_after: 3600] and blocks the
    address for an hour.  A request made more than one day after the
    window was opened, on a row that no block holds back, opens a new
    window and is let through, whatever the count was. *)
Theorem registration_quota (t1 now : Z) (later : list Z) :
  List.length later = 19%nat ->
  Forall (fun t => t <= t1 + one_day) later ->
  now <= t1 + one_day ->
  registration_requests (t1 :: later ++ [now]) None
  = (repeat Proceed 20 ++ [Refused (too_many_registrations 3600)],
     Some {| request_count := 21; window_start := t1;
             reg_blocked_until := Some (now + 3600 * 1000);
             reg_block_count := 1 |})%list /\
  (forall r t,
     permanent_row (reg_blocked_until r) (reg_block_count r) = false ->
     is_currently_blocked t (reg_blocked_until r) = false ->
     window_start r + one_day < t ->
     rate_limit_registration t None (Some r)
     = (Proceed,
        Some {| request_count := 1; window_start := t;
                reg_blocked_until := reg_blocked_until r;
                reg_block_count := reg_block_count r |})).
Proof.
  intros Hlen Hlater Hnow. split.
  - change (t1 :: later ++ [now])%list with ([t1] ++ (later ++ [now]))%list.
    rewrite registration_requests_app.
    change (registration_requests [t1] None)
      with ([Proceed],
            Some {| request_count := 1; window_start := t1;
                    reg_blocked_until := None; reg_block_count := 0 |}).
    cbn [fst snd]. rewrite registration_requests_app.
    rewrite registration_requests_within;
      [|reflexivity|cbn; lia|exact Hlater
       |rewrite Hlen; vm_compute; discriminate].
    rewrite Hlen. cbn [fst snd request_count window_start reg_block_count].
    cbn [registration_requests].
    rewrite rate_limit_registration_open; [|reflexivity|reflexivity].
    cbv zeta. unfold upsert_registration. cbn [window_start].
    replace (t1 <? now - one_day) with false by (symmetry; apply Z.ltb_ge; lia).
    reflexivity.
  - intros r t Hperm Hblocked Hold.
    rewrite (rate_limit_registration_open t r Hperm Hblocked). cbv zeta.
    unfold upsert_registration.
    replace (window_start r <? t - one_day) with true
      by (symmetry; apply Z.ltb_lt; lia).
    reflexivity.
Qed.

(** X23. A block that has ended does not give the quota back.  When an
    address that has used up its window comes back after its block is
    over but within the same window, the request is counted, refused,
    and blocked one step higher on the ladder.  Only when the sweep has
    run in between, which starts the window of every row whose block is
    over again, is the request let through, as the first of a new
    window; the step of the escalation is kept. *)
Theorem registration_block_ends (now swept until d : Z) (r : registration_row) :
  reg_blocked_until r = Some until ->
  get_block_duration (reg_block_count r) ladder = Seconds d ->
  limit <= request_count r ->
  until < swept -> swept <= now -> now <= window_start r + one_day ->
  rate_limit_registration now None (Some r)
  = (Refused (too_many_registrations d),
     Some {| request_count := request_count r + 1;
             window_start := window_start r;
             reg_blocked_until := Some (now + d * 1000);
             reg_block_count := reg_block_count r + 1 |}) /\
  exists r',
    rate_limit_registration now None (Some (cleanup_registration swept r))
    = (Proceed, Some r') /\
    request_count r' = 1 /\ reg_block_count r' = reg_block_count r.
Proof.
  intros Hbu Hd Hfull Hover Hswept Hwindow. split.
  - rewrite rate_limit_registration_open.
    + cbv zeta. unfold upsert_registration.
      replace (window_start r <? now - one_day) with false
        by (symmetry; apply Z.ltb_ge; lia).
      cbn [request_count window_start].
      assert (Hover' : (limit <? request_count r + 1) = true)
        by (apply Z.ltb_lt; lia).
      rewrite Hover'. now rewrite Hd.
    + now rewrite Hbu.
    + rewrite Hbu. cbn. apply Z.ltb_ge. lia.
  - assert (Hclean : cleanup_registration swept r
              = {| request_count := 0; window_start := swept;
                   reg_blocked_until := Some until;
                   reg_block_count := reg_block_count r |}).
    { unfold cleanup_registration. rewrite Hbu.
      replace (until <? swept) with true by (symmetry; apply Z.ltb_lt; lia).
      reflexivity. }
    rewrite Hclean. rewrite rate_limit_registration_open.
    + cbv zeta. unfold upsert_registration. cbn [window_start request_count].
      destruct (swept <? now - one_day); eexists; now repeat split.
    + reflexivity.
    + cbn. apply Z.ltb_ge. lia.
Qed.

End Registration.

Lemma registration_quota_witness :
  fst (registration_requests
         (1000 :: repeat 2000 19 ++ [3000]) None)
  = (repeat Proceed 20 ++ [Refused (too_many_registrations 3600)])%list.
Proof.
  rewrite (proj1 (registration_quota 1000 3000 (repeat 2000 19) eq_refl
                    ltac:(repeat constructor; unfold one_day; lia)
                    ltac:(unfold one_day; lia))).
  reflexivity.
Defined.

Lemma registration_block_ends_witness :
  let r := {| request_count := 21; window_start := 1000;
              reg_blocked_until := Some 3603000; reg_block_count := 1 |} in
  fst (rate_limit_registration 4000000 None (Some r))
    = Refused (too_many_registrations 86400) /\
  fst (rate_limit_registration 4000000 None (Some (cleanup_registration 3700000 r)))
    = Proceed.
Proof.
  intros r.
  destruct (registration_block_ends 4000000 3700000 3603000 86400 r)
    as (Hagain & r' & Hswept & _); try reflexivity; try (unfold one_day; simpl; lia).
  - simpl. unfold rate_limit_config.registration.max_per_day. lia.
  - now rewrite Hagain, Hswept.
Defined.

(** ** Passwords and random tokens *)

Section Passwords.

Context {rt : Runtime}.

Lemma base64_text_round_trip (bytes : list ascii) :
  base64_decode (list_ascii_of_string (string_of_list_ascii (base64_encode bytes)))
  = bytes.
Proof. rewrite list_ascii_of_string_of_list_ascii. apply base64_round_trip. Qed.

Lemma string_of_list_ascii_inj (a b : list ascii) :
  string_of_list_ascii a = string_of_list_ascii b -> a = b.
Proof.
  intros H. apply (f_equal list_ascii_of_string) in H.
  now rewrite !list_ascii_of_string_of_list_ascii in H.
Qed.

(** X24. A password verifies against its own hash, and only the
    passwords with the same derived key do.  For the hash and the salt
    that [hash_password] returns, whatever the random salt,
    [verify_password] answers [true] for the password that was hashed,
    and for any candidate it answers [true] exactly when [scrypt] derives
    from the candidate and the salt the key it derived from the
    password. *)
Theorem password_round_trip (salt : list ascii) (password candidate : string) :
  let stored := hash_password salt password in
  verify_password password (fst stored) (snd stored) = true /\
  (verify_password candidate (fst stored) (snd stored) = true <->
   scrypt candidate salt = scrypt password salt).
Proof.
  cbv zeta. unfold hash_password, verify_password. cbn [fst snd].
  rewrite !base64_text_round_trip. split.
  - now rewrite Nat.eqb_refl, String.eqb_refl.
  - destruct (List.length (scrypt candidate salt)
              =? List.length (scrypt password salt))%nat eqn:E; cbn [negb].
    + split.
      * intros H. apply String.eqb_eq in H. now apply string_of_list_ascii_inj.
      * intros ->. apply String.eqb_refl.
    + split; [discriminate|].
      intros H. rewrite H, Nat.eqb_refl in E. discriminate E.
Qed.

End Passwords.

Section RandomTokens.

Lemma concat_length_six (sextets : list (list bool)) :
  Forall (fun s => List.length s = 6%nat) sextets ->
  List.length (List.concat sextets) = (6 * List.length sextets)%nat.
Proof.
  induction 1 as [|s sextets Hs _ IH]; [reflexivity|].
  cbn [List.concat List.length]. rewrite length_app, Hs, IH. lia.
Qed.

(** The number of groups of six bits. *)
Lemma sextets_of_bits_length (bits : list bool) :
  List.length (sextets_of_bits bits) = ((List.length bits + 5) / 6)%nat.
Proof.
  destruct (sextets_of_bits_spec _ bits (le_n _)) as (Hall & zeros & Hcat & Hz).
  pose proof (concat_length_six _ Hall) as Hlen.
  rewrite Hcat, length_app in Hlen.
  apply Nat.div_unique with (5 - List.length zeros)%nat; lia.
Qed.

Lemma bits_of_bytes_length (bytes : list ascii) :
  List.length (flat_map bits_of_byte bytes) = (8 * List.length bytes)%nat.
Proof.
  induction bytes as [|[b0 b1 b2 b3 b4 b5 b6 b7] bytes IH]; [reflexivity|].
  cbn [flat_map]. rewrite length_app, IH. cbn. lia.
Qed.

(** A character of the URL-safe alphabet, for each group of six bits. *)
Lemma url_safe_sextet (s : list bool) :
  List.length s = 6%nat ->
  is_url_safe (let c := char_of_sextet s in
               let c0 := if Ascii.eqb c "+" then "-"%char else c in
               if Ascii.eqb c0 "/" then "_"%char else c0) = true.
Proof.
  intros H.
  destruct s as [|b5 [|b4 [|b3 [|b2 [|b1 [|b0 [|? ?]]]]]]]; try discriminate H.
  destruct b5, b4, b3, b2, b1, b0; vm_compute; reflexivity.
Qed.

Lemma generate_token_encodes (random : list ascii) :
  generate_token random = base64_url_encode (string_of_list_ascii random).
Proof.
  unfold generate_token, base64_url_encode.
  now rewrite list_ascii_of_string_of_list_ascii.
Qed.

(** X25. A random token is URL-safe text that carries its bytes.
    [generate_token] writes the random bytes with the characters
    [A-Z a-z 0-9 - _] only, without padding: one character for every six
    bits, 43 characters for the 32 bytes of the default; and decoding the
    token gives the bytes back, so that two tokens are equal only if
    their bytes are. *)
Theorem generate_token_is_url_safe (random : list ascii) :
  forallb is_url_safe (list_ascii_of_string (generate_token random)) = true /\
  String.length (generate_token random) = ((8 * List.length random + 5) / 6)%nat /\
  (List.length random = 32%nat -> String.length (generate_token random) = 43%nat) /\
  base64_url_decode (generate_token random) = string_of_list_ascii random /\
  (forall other, generate_token other = generate_token random -> other = random).
Proof.
  assert (Hchars := base64_url_encode_chars (string_of_list_ascii random)).
  rewrite <- generate_token_encodes, list_ascii_of_string_of_list_ascii in Hchars.
  assert (Hlen : String.length (generate_token random)
                 = ((8 * List.length random + 5) / 6)%nat).
  { rewrite <- length_list_ascii_of_string, Hchars, length_map.
    now rewrite sextets_of_bits_length, bits_of_bytes_length. }
  assert (Hdecode : forall bytes,
            base64_url_decode (generate_token bytes) = string_of_list_ascii bytes).
  { intros bytes. rewrite generate_token_encodes. apply base64_url_round_trip. }
  split; [|split; [exact Hlen|split; [|split; [apply Hdecode|]]]].
  - rewrite Hchars. apply forallb_forall. intros c Hc.
    apply in_map_iff in Hc as (s & <- & Hs).
    pose proof (proj1 (sextets_of_bits_spec _ (flat_map bits_of_byte random) (le_n _)))
      as Hall.
    rewrite Forall_forall in Hall. now apply url_safe_sextet, Hall.
  - intros H32. now rewrite Hlen, H32.
  - intros other Heq. apply string_of_list_ascii_inj.
    now rewrite <- !Hdecode, Heq.
Qed.

End RandomTokens.

Lemma generate_token_is_url_safe_witness :
  String.length (generate_token (repeat "A"%char 32)) = 43%nat.
Proof.
  apply (proj1 (proj2 (proj2 (generate_token_is_url_safe (repeat "A"%char 32))))).
  reflexivity.
Defined.

(** ** The client address *)

Section ClientAddress.

(** X26. The address a limiter counts is the one the request names.
    When [X-Forwarded-For] is present and not empty, [get_client_ip] is
    the first entry of the header, the text before the first comma,
    without its surrounding white space, whatever follows it and
    whatever the address of the socket is.  Only without the header is
    the socket's address used, and [127.0.0.1] when there is none. *)
Theorem client_ip_is_first_forwarded (first rest : string)
    (remote remote' : option string) :
  free_of "," first = true ->
  get_client_ip (Some (first ++ "," ++ rest)) remote = trim first /\
  (first <> EmptyString -> get_client_ip (Some first) remote = trim first) /\
  (forall forwarded, forwarded <> EmptyString ->
     get_client_ip (Some forwarded) remote = get_client_ip (Some forwarded) remote') /\
  get_client_ip (Some EmptyString) remote = get_client_ip None remote /\
  (forall address, address <> EmptyString ->
     get_client_ip None (Some address) = address) /\
  get_client_ip None None = "127.0.0.1" /\
  get_client_ip None (Some EmptyString) = "127.0.0.1".
Proof.
  intros Hfree. split; [|split; [|split; [|split; [|split; [|split]]]]].
  - unfold get_client_ip.
    assert ((first ++ "," ++ rest)%string <> EmptyString) as Hne.
    { destruct first; discriminate. }
    apply String.eqb_neq in Hne. rewrite Hne.
    change ("," ++ rest)%string with (String "," rest).
    now rewrite (split_first "," first rest Hfree).
  - intros Hne. unfold get_client_ip.
    apply String.eqb_neq in Hne. rewrite Hne.
    now rewrite (split_free "," first Hfree).
  - intros forwarded Hne. unfold get_client_ip.
    apply String.eqb_neq in Hne. now rewrite Hne.
  - reflexivity.
  - intros address Hne. unfold get_client_ip.
    apply String.eqb_neq in Hne. now rewrite Hne.
  - reflexivity.
  - reflexivity.
Qed.

End ClientAddress.

Lemma client_ip_is_first_forwarded_witness :
  get_client_ip (Some " 203.0.113.9 , 10.0.0.1") (Some "198.51.100.4")
  = "203.0.113.9".
Proof.
  exact (proj1 (client_ip_is_first_forwarded " 203.0.113.9 " " 10.0.0.1"
                  (Some "198.51.100.4") None eq_refl)).
Defined.

Lemma password_round_trip_witness :
  @verify_password sample_runtime "analytical engine 1843"
    (password_hash ada) (password_salt ada) = true.
Proof.
  exact (proj1 (@password_round_trip sample_runtime (list_ascii_of_string "salt")
                  "analytical engine 1843" "difference engine")).
Defined.

(** ** Authentication: [require_auth], [/logout], [/login] then [/refresh] *)

Section Authentication.

Context {rt : Runtime}.
Variable jwt_config : jwt_configuration.
Variable environment : string.

Lemma get_user_by_id_sound (user_id : option json) (db : database) (u : user_row) :
  get_user_by_id user_id db = Some u ->
  In u (users db) /\ user_id = Some (JString (u_id u)).
Proof.
  unfold get_user_by_id. destruct user_id as [[| | |text| |]|]; try discriminate.
  destruct (filter _ (users db)) as [|u0 rest] eqn:E; [discriminate|].
  intros [= ->].
  assert (Hin : In u (filter (fun u => String.eqb (u_id u) text) (users db))).
  { rewrite E. now left. }
  apply filter_In in Hin as [Hin Eid]. apply String.eqb_eq in Eid.
  split; [exact Hin|now rewrite Eid].
Qed.

Lemma try_refresh_token_user (now : Z) (token : string) (db db' : database)
    (user : request_user) (c : cookie) :
  try_refresh_token jwt_config environment now token db = (Some (user, c), db') ->
  exists u, In u (users db) /\ user = request_user_of u /\ users db' = users db.
Proof.
  unfold try_refresh_token.
  destruct (verify_jwt jwt_config now (js_string token)) as [[payload|]|];
    try discriminate.
  destruct (get_property payload "type") as [[[| | |type| |]|]|]; try discriminate.
  destruct (String.eqb type "refresh"); [|discriminate].
  destruct (select_refresh_token now (hash_token token) db) as [|[record u] rest]
    eqn:E; [discriminate|].
  assert (Hin : In (record, u) (select_refresh_token now (hash_token token) db)).
  { rewrite E. now left. }
  apply select_refresh_token_sound in Hin as (_ & Hu & _ & _ & Hid).
  destruct (create_access_token _ _ _ _) as [access_token|]; [|discriminate].
  cbn [bind].
  destruct (get_cookie_options _ _ _) as [options|]; [|discriminate].
  cbn [bind]. intros [= <- _ <-]. exists u. split; [exact Hu|].
  split; [|reflexivity]. unfold request_user_of. now rewrite Hid.
Qed.

(** X27. Whoever [require_auth] lets through is a user of the table.
    The request carried a non-empty access-token cookie (a refresh token
    alone is not enough), [req.user] is set, and its id, name, email,
    admin flag, verified flag and deletion date are those of a row of
    [users], not the token's claims; so [require_admin] lets the request
    on exactly when that row is an admin's.  The table [users] is left as
    it was. *)
Theorem authenticated_user_is_a_row (now : Z) (req : request_cookies)
    (db db' : database) (user : option request_user)
    (acting : option impersonation) (cookies : list cookie) :
  require_auth jwt_config environment now req db
  = (Passed user acting cookies, db') ->
  exists u token,
    In u (users db) /\ user = Some (request_user_of u) /\
    access_token_cookie req = Some token /\ token <> EmptyString /\
    (require_admin user = None <-> u_is_admin u = true) /\
    users db' = users db.
Proof.
  unfold require_auth, get_access_token, cookie_or_null.
  destruct (access_token_cookie req) as [token|]; [|discriminate].
  destruct (String.eqb token EmptyString) eqn:Etoken; [discriminate|].
  apply String.eqb_neq in Etoken.
  assert (Hadmin : forall u,
            require_admin (Some (request_user_of u)) = None <-> u_is_admin u = true).
  { intros u. unfold require_admin, request_user_of. cbn [ru_is_admin].
    destruct (u_is_admin u); split; intros H; try reflexivity; discriminate H. }
  assert (Hrefresh :
    match get_refresh_token req with
    | Some refresh_token =>
        match try_refresh_token jwt_config environment now refresh_token db with
        | (Some (user, c), db') => (Passed (Some user) None [c], db')
        | (None, db') =>
            (Answered (unauthorized "Invalid or expired token"), db')
        end
    | None => (Answered (unauthorized "Invalid or expired token"), db)
    end = (Passed user acting cookies, db') ->
    exists u token0,
      In u (users db) /\ user = Some (request_user_of u) /\
      Some token = Some token0 /\ token0 <> EmptyString /\
      (require_admin user = None <-> u_is_admin u = true) /\
      users db' = users db).
  { destruct (get_refresh_token req) as [refresh_token|]; [|discriminate].
    destruct (try_refresh_token _ _ _ _ _) as [[[user0 c]|] db0] eqn:E;
      [|discriminate].
    intros [= <- <- <- <-].
    destruct (try_refresh_token_user _ _ _ _ _ _ E) as (u & Hu & -> & Husers).
    exists u, token. repeat split; try assumption; now apply Hadmin. }
  destruct (verify_jwt jwt_config now (js_string token)) as [[payload|error]|message];
    [|exact Hrefresh|exact Hrefresh].
  destruct (get_user_by_id (subject payload) db) as [u|] eqn:E; [|discriminate].
  unfold attach. intros [= <- <- <- <-].
  apply get_user_by_id_sound in E as [Hu _].
  exists u, token. repeat split; try assumption; now apply Hadmin.
Qed.

(** The claims [require_auth] reads in the payload of an access token. *)
Lemma access_claims_read (issued ttl : Z) (identity : user)
    (options : access_options) :
  let claims := full_payload issued ttl (access_claims identity options) in
  assoc "exp" claims = Some (JNumber ((issued + ttl) / 1000)) /\
  assoc "sub" claims = Some (JString (id identity)) /\
  truthy (assoc "is_impersonation" claims) = is_impersonation options /\
  (is_impersonation options = true ->
   assoc "admin_id" claims = Some (JString (admin_id options))).
Proof.
  cbv zeta. rewrite full_payload_access. unfold access_claims.
  destruct (is_impersonation options); cbn; repeat split; intros; discriminate.
Qed.

(** The row that [users] holds under an id, [id] being the primary
    key. *)
Lemma get_user_by_id_found (text : string) (db : database) (u : user_row) :
  NoDup (map u_id (users db)) -> In u (users db) -> u_id u = text ->
  get_user_by_id (Some (JString text)) db = Some u.
Proof.
  unfold get_user_by_id. intros Hnodup Hin Hid.
  induction (users db) as [|v rest IH]; [destruct Hin|].
  cbn [map] in Hnodup. inversion Hnodup as [|? ? Hnotin Hrest]; subst.
  cbn [filter]. destruct Hin as [->|Hin].
  - now rewrite String.eqb_refl.
  - destruct (String.eqb (u_id v) (u_id u)) eqn:E; [|now apply IH].
    apply String.eqb_eq in E. elim Hnotin. rewrite E.
    apply in_map_iff. now exists u.
Qed.

Lemma get_user_by_id_missing (text : string) (db : database) :
  (forall v, In v (users db) -> u_id v <> text) ->
  get_user_by_id (Some (JString text)) db = None.
Proof.
  unfold get_user_by_id. intros Hnone.
  induction (users db) as [|v rest IH]; [reflexivity|].
  cbn [filter].
  destruct (String.eqb (u_id v) text) eqn:E.
  - apply String.eqb_eq in E. elim (Hnone v); [now left|exact E].
  - apply IH. intros v' Hin. apply Hnone. now right.
Qed.

(** X28. An access token authenticates its user for its lifetime, and as
    the table has that user now.  Presented in the cookie no later than
    its [exp], the token of [create_access_token] lets the request
    through [require_auth] with, for [req.user], the columns of the row
    of [users] whose [id] is the token's [sub] ([id] being the primary
    key), and with the impersonating admin when the token was issued for
    an impersonation; it is answered 401 [User not found] when no row has
    that id any more.  No cookie is set and nothing is written.  After
    its [exp], and without a refresh-token cookie, the answer is 401
    [Invalid or expired token]. *)
Theorem access_token_authenticates (issued ttl : Z) (identity : user)
    (options : access_options) (db : database) :
  let claims := full_payload issued ttl (access_claims identity options) in
  let exp := (issued + ttl) / 1000 in
  parse_duration (access_expiry jwt_config) = Normal ttl ->
  JSON_parse (JSON_stringify (JObject claims)) = Normal (JObject claims) ->
  NoDup (map u_id (users db)) ->
  exists token,
    create_access_token jwt_config issued identity options = Normal token /\
    forall now req,
      access_token_cookie req = Some token ->
      (now / 1000 <= exp ->
       (forall u, In u (users db) -> u_id u = id identity ->
          require_auth jwt_config environment now req db
          = (Passed
               (Some {| ru_id := id identity; ru_username := u_username u;
                        ru_email := u_email u; ru_is_admin := u_is_admin u;
                        ru_is_verified := u_is_verified u;
                        ru_deleted_at := deleted_at u |})
               (if is_impersonation options
                then Some {| imp_admin_id := Some (JString (admin_id options)) |}
                else None)
               [], db)) /\
       ((forall v, In v (users db) -> u_id v <> id identity) ->
          require_auth jwt_config environment now req db
          = (Answered {| http_status := 401;
                         http_body := JObject [("error", JString "User not found")];
                         set_cookies := []; cleared_cookies := [] |}, db))) /\
      (exp < now / 1000 -> exp <> 0 -> refresh_token_cookie req = None ->
       require_auth jwt_config environment now req db
       = (Answered {| http_status := 401;
                      http_body :=
                        JObject [("error", JString "Invalid or expired token")];
                      set_cookies := []; cleared_cookies := [] |}, db)).
Proof.
  intros claims exp Httl Hjson Hkey.
  assert (Hcreate : create_access_token jwt_config issued identity options
            = Normal (signed_token jwt_config (JObject claims))).
  { unfold create_access_token, create_jwt.
    assert ((if String.eqb (access_expiry jwt_config) EmptyString
             then access_expiry jwt_config else access_expiry jwt_config)
            = access_expiry jwt_config) as -> by now destruct (String.eqb _ _).
    now rewrite Httl. }
  exists (signed_token jwt_config (JObject claims)). split; [exact Hcreate|].
  intros now req Hcookie.
  destruct (access_claims_read issued ttl identity options)
    as (Hexp & Hsub & Himp & Hadmin).
  fold claims in Hexp, Hsub, Himp, Hadmin. fold exp in Hexp.
  assert (Hsome : String.eqb (signed_token jwt_config (JObject claims)) EmptyString
                  = false).
  { unfold signed_token.
    destruct (base64_url_encode (JSON_stringify jwt_header)); reflexivity. }
  unfold require_auth, get_access_token, get_refresh_token, cookie_or_null.
  rewrite Hcookie, Hsome, (verify_signed_token jwt_config now claims exp Hjson Hexp).
  split.
  - intros Hnow.
    replace (exp <? now / 1000) with false by (symmetry; apply Z.ltb_ge; lia).
    rewrite orb_true_r. unfold subject. cbn [get_property]. rewrite Hsub.
    split.
    + intros u Hin Hid.
      rewrite (get_user_by_id_found (id identity) db u Hkey Hin Hid).
      unfold attach, request_user_of. cbn [get_property]. rewrite Himp, Hid.
      destruct (is_impersonation options); [|reflexivity].
      now rewrite (Hadmin eq_refl).
    + intros Hnone. now rewrite (get_user_by_id_missing (id identity) db Hnone).
  - intros Hnow Hnz Hnone. apply Z.eqb_neq in Hnz. apply Z.ltb_lt in Hnow.
    rewrite Hnz, Hnow. cbn [orb negb]. now rewrite Hnone.
Qed.

Lemma select_refresh_token_deleted (now : Z) (hash : string) (db : database) :
  select_refresh_token now hash
    (with_refresh_tokens (delete_refresh_token hash (refresh_tokens db)) db) = [].
Proof.
  unfold select_refresh_token, with_refresh_tokens, delete_refresh_token.
  cbn [refresh_tokens users].
  induction (refresh_tokens db) as [|r table IH]; [reflexivity|].
  cbn [filter]. destruct (String.eqb (token_hash r) hash) eqn:E; cbn [negb].
  - exact IH.
  - cbn [flat_map]. rewrite E. cbn [andb app]. exact IH.
Qed.

Lemma select_refresh_token_kept (now : Z) (hash other : string) (db : database) :
  other <> hash ->
  select_refresh_token now other
    (with_refresh_tokens (delete_refresh_token hash (refresh_tokens db)) db)
  = select_refresh_token now other db.
Proof.
  intros Hne.
  unfold select_refresh_token, with_refresh_tokens, delete_refresh_token.
  cbn [refresh_tokens users].
  induction (refresh_tokens db) as [|r table IH]; [reflexivity|].
  cbn [filter flat_map]. destruct (String.eqb (token_hash r) hash) eqn:E; cbn [negb].
  - apply String.eqb_eq in E.
    replace (String.eqb (token_hash r) other) with false.
    + cbn [andb app]. exact IH.
    + symmetry. apply String.eqb_neq. congruence.
  - cbn [flat_map]. now rewrite IH.
Qed.

(** X29. [/logout] revokes the refresh token it is sent, and nothing
    else.  Afterwards [/refresh] answers that token with 401
    [Invalid refresh token] at every clock value, and the silent refresh
    of [require_auth] refuses it; a refresh token with another hash is
    answered by [/refresh] as it was before the logout.  The access token
    is not revoked: a request whose access token verifies is let through
    [require_auth] after the logout as before it. *)
Theorem logout_revokes_refresh_token (token : string) (db : database) :
  token <> EmptyString ->
  let db' := snd (post_logout (Some token) db) in
  (forall now,
     post_refresh jwt_config environment now (Some token) db'
     = ({| http_status := 401;
           http_body := JObject [("error", JString "Invalid refresh token")];
           set_cookies := [];
           cleared_cookies := ["access_token"; "refresh_token"] |}, db')) /\
  (forall now,
     try_refresh_token jwt_config environment now token db' = (None, db')) /\
  (forall now other,
     hash_token other <> hash_token token ->
     fst (post_refresh jwt_config environment now (Some other) db')
     = fst (post_refresh jwt_config environment now (Some other) db)) /\
  (forall now req access_token payload,
     access_token_cookie req = Some access_token ->
     verify_jwt jwt_config now (js_string access_token) = Normal (valid payload) ->
     require_auth jwt_config environment now req db'
     = (fst (require_auth jwt_config environment now req db), db')).
Proof.
  intros Htoken db'. apply String.eqb_neq in Htoken.
  assert (Hdb : db' = with_refresh_tokens
                        (delete_refresh_token (hash_token token) (refresh_tokens db))
                        db).
  { subst db'. unfold post_logout. now rewrite Htoken. }
  split; [|split; [|split]].
  - intros now. unfold post_refresh. rewrite Htoken, Hdb.
    now rewrite select_refresh_token_deleted.
  - intros now. unfold try_refresh_token.
    destruct (verify_jwt jwt_config now (js_string token)) as [[payload|]|];
      try reflexivity.
    destruct (get_property payload "type") as [[[| | |type| |]|]|]; try reflexivity.
    destruct (String.eqb type "refresh"); [|reflexivity].
    rewrite Hdb at 1. now rewrite select_refresh_token_deleted.
  - intros now other Hother. unfold post_refresh.
    destruct (String.eqb other EmptyString); [reflexivity|].
    rewrite Hdb, (select_refresh_token_kept now _ _ db Hother).
    destruct (select_refresh_token now (hash_token other) db) as [|[record u] rest];
      [reflexivity|].
    destruct (create_access_token _ _ _ _) as [access_token|]; [|reflexivity].
    cbn [bind].
    now destruct (get_cookie_options _ _ _).
  - intros now req access_token payload Hcookie Hvalid.
    unfold require_auth, get_access_token, cookie_or_null. rewrite Hcookie.
    destruct (String.eqb access_token EmptyString); [reflexivity|].
    rewrite Hvalid.
    assert (Huser : get_user_by_id (subject payload) db'
                    = get_user_by_id (subject payload) db).
    { rewrite Hdb. reflexivity. }
    rewrite Huser. now destruct (get_user_by_id (subject payload) db).
Qed.

End Authentication.

(** ** [/login], then [/refresh] *)

Section LoginThenRefresh.

Context {rt : Runtime}.
Variable jwt_config : jwt_configuration.
Variable environment : string.

(** What [login_success] did when it answers 200. *)
Lemma login_success_issued (now : Z) (fresh_id : string) (req : login_request)
    (u : user_row) (db : database) :
  http_status (fst (login_success jwt_config environment now fresh_id req u db)) = 200 ->
  exists access_token refresh_token options,
    create_access_token jwt_config now
      {| id := u_id u; username := u_username u;
         is_admin := u_is_admin u; is_verified := u_is_verified u |}
      no_options = Normal access_token /\
    create_refresh_token jwt_config now
      {| id := u_id u; username := u_username u;
         is_admin := u_is_admin u; is_verified := u_is_verified u |}
      (stay_logged_in req) = Normal refresh_token /\
    store_refresh_token jwt_config now fresh_id (u_id u) refresh_token
      (stay_logged_in req) req db
    = Normal (snd (login_success jwt_config environment now fresh_id req u db)) /\
    get_cookie_options jwt_config environment (negb (stay_logged_in req))
    = Normal options /\
    set_cookies (fst (login_success jwt_config environment now fresh_id req u db))
    = [access_cookie access_token options; refresh_cookie refresh_token options].
Proof.
  unfold login_success.
  set (identity := {| id := u_id u; username := u_username u;
                      is_admin := u_is_admin u; is_verified := u_is_verified u |}).
  destruct (create_access_token jwt_config now identity no_options)
    as [access_token|] eqn:Ea.
  2: { destruct (deleted_at u); [destruct (deleted_by_admin u)|]; discriminate. }
  destruct (create_refresh_token jwt_config now identity (stay_logged_in req))
    as [refresh_token|] eqn:Er.
  2: { destruct (deleted_at u); [destruct (deleted_by_admin u)|]; discriminate. }
  destruct (store_refresh_token jwt_config now fresh_id (u_id u) refresh_token
              (stay_logged_in req) req db) as [db'|] eqn:Es.
  2: { destruct (deleted_at u); [destruct (deleted_by_admin u)|]; discriminate. }
  unfold set_auth_cookies.
  destruct (get_cookie_options jwt_config environment (negb (stay_logged_in req)))
    as [options|] eqn:Eo.
  2: { destruct (deleted_at u); [destruct (deleted_by_admin u)|]; discriminate. }
  cbn [bind]. intros Hstatus.
  exists access_token, refresh_token, options.
  destruct (deleted_at u); [destruct (deleted_by_admin u); [discriminate Hstatus|]|];
    now repeat split.
Qed.

(** [/login] answers 200 only after [login_success], for a user of the
    table. *)
Lemma post_login_success (now later : Z) (fresh_id : string) (req : login_request)
    (db : database) :
  http_status (fst (post_login jwt_config environment now later fresh_id req db)) = 200 ->
  exists u db0,
    In u (users db) /\ users db0 = users db /\
    refresh_tokens db0 = refresh_tokens db /\
    post_login jwt_config environment now later fresh_id req db
    = login_success jwt_config environment now fresh_id req u db0.
Proof.
  unfold post_login.
  destruct (body_username req) as [name|]; [|discriminate].
  destruct (body_password req) as [password|]; [|discriminate].
  destruct (String.eqb name EmptyString || String.eqb password EmptyString);
    [discriminate|].
  destruct (find_user name db) as [|u others] eqn:Efind; [discriminate|].
  assert (Hu : In u (users db)).
  { assert (Hin : In u (find_user name db)) by (rewrite Efind; now left).
    unfold find_user in Hin. now apply filter_In in Hin as [Hin _]. }
  destruct (check_user_login_block now (rate_limit_login_user db (u_id u)));
    [|discriminate|discriminate].
  destruct (verify_password password (password_hash u) (password_salt u)).
  - intros _. eexists u, _. split; [exact Hu|].
    split; [|split; [|reflexivity]].
    + unfold with_rate_limit. now destruct (reset_login_failures _).
    + unfold with_rate_limit. now destruct (reset_login_failures _).
  - destruct (record_login_failure now _) as [failure row].
    destruct (blocked failure); discriminate.
Qed.

Lemma select_refresh_token_app (now : Z) (hash : string) (db : database)
    (table extra : list refresh_token_row) :
  select_refresh_token now hash (with_refresh_tokens (table ++ extra) db)
  = (select_refresh_token now hash (with_refresh_tokens table db)
     ++ select_refresh_token now hash (with_refresh_tokens extra db))%list.
Proof.
  unfold select_refresh_token, with_refresh_tokens. cbn [refresh_tokens users].
  apply flat_map_app.
Qed.

Lemma select_refresh_token_fresh (now : Z) (hash : string) (db : database)
    (table : list refresh_token_row) :
  existsb (fun r => String.eqb (token_hash r) hash) table = false ->
  select_refresh_token now hash (with_refresh_tokens table db) = [].
Proof.
  unfold select_refresh_token, with_refresh_tokens. cbn [refresh_tokens users].
  induction table as [|r table IH]; [reflexivity|].
  cbn [existsb flat_map]. intros H. apply orb_false_elim in H as [-> H].
  cbn [andb app]. now apply IH.
Qed.

(** X30. The refresh token of a successful login works until the day it
    expires.  When [/login] answers 200 it has set the access-token and
    the refresh-token cookie and stored the refresh token to expire 24
    hours after the login, or after the configured [refresh_expiry] with
    [stay_logged_in].  Sent to [/refresh] at any clock value before that
    instant, the cookie is answered 200 with a new access-token cookie;
    from that instant on it is answered 401 [Invalid refresh token] and
    both cookies are cleared. *)
Theorem login_then_refresh (now later : Z) (fresh_id : string) (req : login_request)
    (db : database) :
  let login := post_login jwt_config environment now later fresh_id req db in
  http_status (fst login) = 200 ->
  exists access_token refresh_token options expires,
    set_cookies (fst login)
    = [access_cookie access_token options; refresh_cookie refresh_token options] /\
    get_expiry_date now
      (if stay_logged_in req then refresh_expiry jwt_config else "24h")
    = Normal expires /\
    now <= expires /\
    (forall now', now' < expires ->
       let refresh :=
         fst (post_refresh jwt_config environment now' (Some refresh_token)
                (snd login)) in
       http_status refresh = 200 /\
       map cookie_name (set_cookies refresh) = ["access_token"]) /\
    (forall now', expires <= now' ->
       fst (post_refresh jwt_config environment now' (Some refresh_token)
              (snd login))
       = {| http_status := 401;
            http_body := JObject [("error", JString "Invalid refresh token")];
            set_cookies := [];
            cleared_cookies := ["access_token"; "refresh_token"] |}).
Proof.
  intros login Hstatus. subst login.
  destruct (post_login_success now later fresh_id req db Hstatus)
    as (u & db0 & Hu & Husers & _ & Hlogin).
  rewrite Hlogin in *.
  destruct (login_success_issued now fresh_id req u db0 Hstatus)
    as (access_token & refresh_token & options & Haccess & Hrefresh & Hstore
        & Hoptions & Hcookies).
  set (db' := snd (login_success jwt_config environment now fresh_id req u db0)) in *.
  clearbody db'.
  unfold store_refresh_token in Hstore.
  destruct (get_expiry_date now _) as [expires|] eqn:Eexpires; [|discriminate Hstore].
  cbn [bind] in Hstore.
  destruct (existsb _ (refresh_tokens db0)) eqn:Efresh; [discriminate Hstore|].
  injection Hstore as Hdb'.
  exists access_token, refresh_token, options, expires.
  split; [exact Hcookies|]. split; [reflexivity|].
  assert (Hnonempty : String.eqb refresh_token EmptyString = false).
  { unfold create_refresh_token, create_jwt in Hrefresh.
    destruct (parse_duration _); [|discriminate Hrefresh].
    cbn [bind] in Hrefresh. injection Hrefresh as <-.
    destruct (base64_url_encode (JSON_stringify jwt_header)); reflexivity. }
  assert (Hlater : now <= expires).
  { unfold get_expiry_date in Eexpires.
    destruct (parse_duration _) as [d|] eqn:Ed; [|discriminate Eexpires].
    cbn [bind] in Eexpires. injection Eexpires as <-.
    pose proof (parse_duration_nonneg _ _ Ed). lia. }
  split; [exact Hlater|].
  set (row := {| rt_id := fresh_id; rt_user_id := u_id u;
                 token_hash := hash_token refresh_token;
                 rt_expires_at := expires;
                 is_session_only := negb (stay_logged_in req);
                 rt_created_at := now; last_used_at := None;
                 user_agent := _; ip_address := _ |}) in Hdb'.
  assert (Hselect : forall now',
    select_refresh_token now' (hash_token refresh_token) db'
    = if now' <? expires
      then map (fun u0 => (row, u0))
               (filter (fun u0 => String.eqb (u_id u) (u_id u0)) (users db0))
      else []).
  { intros now'. rewrite <- Hdb', select_refresh_token_app.
    rewrite (select_refresh_token_fresh now' _ db0 _ Efresh).
    unfold select_refresh_token, with_refresh_tokens.
    cbn [refresh_tokens users flat_map app token_hash rt_expires_at rt_user_id row].
    rewrite String.eqb_refl. cbn [andb].
    destruct (now' <? expires); [apply app_nil_r|reflexivity]. }
  split.
  - intros now' Hnow'. cbv zeta. unfold post_refresh.
    rewrite Hnonempty, Hselect.
    apply Z.ltb_lt in Hnow'. rewrite Hnow'.
    destruct (filter (fun u0 => String.eqb (u_id u) (u_id u0)) (users db0))
      as [|u1 rest] eqn:Efilter.
    { assert (Hin : In u (filter (fun u0 => String.eqb (u_id u) (u_id u0))
                            (users db0))).
      { apply filter_In. rewrite Husers. split; [exact Hu|apply String.eqb_refl]. }
      rewrite Efilter in Hin. destruct Hin. }
    cbn [map].
    assert (Httl : exists ttl, parse_duration (access_expiry jwt_config) = Normal ttl).
    { unfold create_access_token, create_jwt in Haccess.
      assert ((if String.eqb (access_expiry jwt_config) EmptyString
               then access_expiry jwt_config else access_expiry jwt_config)
              = access_expiry jwt_config) as E by now destruct (String.eqb _ _).
      rewrite E in Haccess.
      destruct (parse_duration (access_expiry jwt_config)) as [ttl|];
        [eauto|discriminate Haccess]. }
    destruct Httl as [ttl Httl].
    destruct (create_access_token_succeeds jwt_config now' ttl
                {| id := u_id u1; username := u_username u1;
                   is_admin := u_is_admin u1; is_verified := u_is_verified u1 |}
                no_options Httl) as [access_token' ->].
    cbn [bind is_session_only row]. rewrite Hoptions. cbn [bind fst].
    split; reflexivity.
  - intros now' Hnow'. unfold post_refresh.
    rewrite Hnonempty, Hselect.
    replace (now' <? expires) with false by (symmetry; apply Z.ltb_ge; lia).
    reflexivity.
Qed.

End LoginThenRefresh.

Lemma auth_cookies_are_protected_witness :
  let login :=
    fst (@post_login sample_runtime default_jwt_config "PROD" 5000 5000 "r3"
           (login_attempt "ada" "analytical engine 1843") (sample_database 0 0)) in
  Forall (protected_cookie "PROD") (set_cookies login) /\
  http_status login = 200 /\
  map cookie_name (set_cookies login) = ["access_token"; "refresh_token"] /\
  map maxAge (set_cookies login) = [Some 900000; None].
Proof.
  destruct (@auth_cookies_are_protected sample_runtime default_jwt_config "PROD"
              5000 5000 "r3" (login_attempt "ada" "analytical engine 1843") None
              (sample_database 0 0)) as (Hlogin & _ & Hset).
  split; [exact Hlogin|].
  destruct Hset as (Hstatus & Hnames & _).
  - vm_compute. discriminate.
  - split; [exact Hstatus|]. split; [exact Hnames|]. vm_compute. reflexivity.
Defined.

Lemma blocked_login_is_refused_witness :
  exists retry_after,
    @post_login sample_runtime default_jwt_config "dev" 5299990 5300010 "r3"
      (login_attempt "ada" "analytical engine 1843") locked_database
    = (json_response 429
         (JObject [("error", JString "Account temporarily locked");
                   ("retry_after", JNumber retry_after)]),
       locked_database) /\
    retry_after <= 0.
Proof.
  destruct (proj1 (@blocked_login_is_refused sample_runtime default_jwt_config
                     "dev" 5299990 5300010 5000000 "r3" "ada"
                     "analytical engine 1843"
                     (login_attempt "ada" "analytical engine 1843")
                     locked_database ada []
                     (rate_limit_login_user (sample_database 4 4900000) "7f3c")
                     300 eq_refl ltac:(discriminate) eq_refl ltac:(discriminate)
                     eq_refl eq_refl eq_refl)
                  ltac:(lia))
    as (retry_after & Hanswer & _ & _ & Hover).
  exists retry_after. split; [exact Hanswer|]. apply Hover. lia.
Defined.

Lemma authenticated_user_is_a_row_witness :
  let req := {| access_token_cookie := Some former_admin_token;
                refresh_token_cookie := None |} in
  exists u token,
    In u (users (sample_database 0 0)) /\
    Some (request_user_of ada) = Some (request_user_of u) /\
    access_token_cookie req = Some token /\ token <> EmptyString /\
    (require_admin (Some (request_user_of ada)) = None <-> u_is_admin u = true) /\
    users (sample_database 0 0) = users (sample_database 0 0).
Proof.
  intros req.
  apply (@authenticated_user_is_a_row sample_runtime default_jwt_config "dev"
           1700000600000 req (sample_database 0 0) (sample_database 0 0)
           (Some (request_user_of ada)) None []).
  vm_compute. reflexivity.
Defined.

Lemma access_token_authenticates_witness :
  exists token,
    @create_access_token sample_runtime default_jwt_config 1700000000123
      {| id := "7f3c"; username := "ada"; is_admin := true; is_verified := true |}
      no_options = Normal token /\
    @require_auth sample_runtime default_jwt_config "dev" 1700000900999
      {| access_token_cookie := Some token; refresh_token_cookie := None |}
      two_users
    = (Passed (Some {| ru_id := "7f3c"; ru_username := "ada";
                       ru_email := "ada@example.org"; ru_is_admin := false;
                       ru_is_verified := true; ru_deleted_at := None |})
              None [], two_users) /\
    @require_auth sample_runtime default_jwt_config "dev" 1700000901000
      {| access_token_cookie := Some token; refresh_token_cookie := None |}
      two_users
    = (Answered {| http_status := 401;
                   http_body :=
                     JObject [("error", JString "Invalid or expired token")];
                   set_cookies := []; cleared_cookies := [] |}, two_users).
Proof.
  destruct (@access_token_authenticates sample_runtime default_jwt_config "dev"
              1700000000123 900000
              {| id := "7f3c"; username := "ada"; is_admin := true;
                 is_verified := true |}
              no_options two_users) as (token & Hcreate & Hauth).
  - reflexivity.
  - vm_compute. reflexivity.
  - repeat constructor; simpl; intuition discriminate.
  - exists token. split; [exact Hcreate|]. split.
    + apply (proj1 (proj1 (Hauth 1700000900999
                             {| access_token_cookie := Some token;
                                refresh_token_cookie := None |} eq_refl)
                      ltac:(vm_compute; discriminate)) ada).
      * right. now left.
      * reflexivity.
    + apply (proj2 (Hauth 1700000901000
                      {| access_token_cookie := Some token;
                         refresh_token_cookie := None |} eq_refl)).
      * vm_compute. reflexivity.
      * vm_compute. discriminate.
      * reflexivity.
Defined.

Lemma logout_revokes_refresh_token_witness :
  let db' := snd (@post_logout sample_runtime (Some "first-token")
                    (sample_database 0 0)) in
  @post_refresh sample_runtime default_jwt_config "dev" 5000 (Some "first-token") db'
  = ({| http_status := 401;
        http_body := JObject [("error", JString "Invalid refresh token")];
        set_cookies := [];
        cleared_cookies := ["access_token"; "refresh_token"] |}, db') /\
  http_status
    (fst (@post_refresh sample_runtime default_jwt_config "dev" 5000
            (Some "second-token") db')) = 200.
Proof.
  intros db'.
  destruct (@logout_revokes_refresh_token sample_runtime default_jwt_config "dev"
              "first-token" (sample_database 0 0)) as (Hsame & _ & Hother & _).
  - discriminate.
  - split; [apply Hsame|].
    subst db'. rewrite Hother.
    + vm_compute. reflexivity.
    + vm_compute. discriminate.
Defined.

Lemma login_then_refresh_witness :
  let login :=
    @post_login sample_runtime default_jwt_config "dev" 5000 5000 "r3"
      (login_attempt "ada" "analytical engine 1843") (sample_database 0 0) in
  exists refresh_token,
    map cookie_value (set_cookies (fst login)) <> [] /\
    nth_error (map cookie_value (set_cookies (fst login))) 1 = Some refresh_token /\
    http_status
      (fst (@post_refresh sample_runtime default_jwt_config "dev" 86404999
              (Some refresh_token) (snd login))) = 200 /\
    http_status
      (fst (@post_refresh sample_runtime default_jwt_config "dev" 86405000
              (Some refresh_token) (snd login))) = 401.
Proof.
  intros login.
  destruct (@login_then_refresh sample_runtime default_jwt_config "dev" 5000 5000
              "r3"
              (login_attempt "ada" "analytical engine 1843") (sample_database 0 0))
    as (access_token & refresh_token & options & expires & Hcookies & Hexpires
        & _ & Hbefore & Hafter).
  - vm_compute. reflexivity.
  - fold login in Hcookies, Hbefore, Hafter.
    injection Hexpires as <-.
    exists refresh_token. rewrite Hcookies. split; [discriminate|].
    split; [reflexivity|]. split.
    + apply (Hbefore 86404999). reflexivity.
    + rewrite (Hafter 86405000); [reflexivity|]. discriminate.
Defined.
